(** * SigmaAI: the download manager of [src/services/cache.ts]

    A shallow embedding of [class DownloadManager] (the second document of
    [src/services/cache.ts], imported by the apps as [services/download]) and
    the properties of its request deduplication, progress tracking, subscriber
    fan-out, waiting and eviction.  After it come [class CacheManager] of the
    same file and the hardware service ([services/hardware]), each with its
    own model of what it reads from the browser.

    The class lives on a JavaScript event loop.  Every piece of code that runs
    without suspension (the synchronous prefix of [downloadModel], one call of
    [progressTracker], the continuation after [await pipeline(...)], one timer
    callback) is one atomic step of the model; the event loop, the
    [pipeline] collaborator and the passing of time choose which step comes
    next.

    Numbers.  [Date.now()] is an integer number of milliseconds ([Z]).  The
    other numbers are finite doubles; they are modelled by exact rationals
    ([Q]), and the one division whose divisor is not guarded,
    [progress.loaded / progress.total], by [JsNumber], which adds the
    non-finite results of a division by zero.  A rational does not round, so
    what is stated of these numbers is what rounding keeps: which value is
    copied where, signs and order; no equation between computed values. *)

From stdpp Require Import gmap strings list.
From Stdlib Require Import ZArith QArith Lia Sorted Ascii.

Close Scope Q_scope.

(** ** Values *)

(** The values a promise of [downloadModel] settles with, and the values that
    are thrown.  [JsError m] is an instance of [Error] whose [message] is [m];
    every other constructor is not an instance of [Error].  An [Error] is
    known by its message: two of them with one message are not told apart. *)
Inductive JsValue :=
  | JsNull
  | JsModel (handle : nat)
  | JsString (s : string)
  | JsError (message : string).

Inductive JsNumber :=
  | Finite (q : Q)
  | PosInfinity
  | NegInfinity
  | NaN.

(** [x / y] on doubles. *)
Definition js_div (x y : Q) : JsNumber :=
  if Qeq_bool y 0 then
    match (x ?= 0)%Q with
    | Gt => PosInfinity
    | Lt => NegInfinity
    | Eq => NaN
    end
  else Finite (x / y).

(** [n * q] for a finite [q]. *)
Definition js_mul (n : JsNumber) (k : Q) : JsNumber :=
  match n with
  | Finite q => Finite (q * k)
  | other => other
  end.

(** [x > y] on finite doubles. *)
Definition Qgtb (x y : Q) : bool := negb (Qle_bool x y).

(** ** [interface DownloadProgress] *)

Inductive Status := StPending | StDownloading | StCompleted | StError.

Record DownloadProgress := mkProgress {
  modelId : string;
  status : Status;
  progress : JsNumber;
  loaded : Q;
  total : Q;
  speed : Q;
  eta : Q;
  error : option string;
}.

(** [type ProgressCallback = (progress: DownloadProgress) => void].  A callback
    is user code: it observes the record it is handed and either returns
    ([None]) or throws a value ([Some v]).  [cb_id] names the callback in the
    log of deliveries. *)
Record ProgressCallback := mkCallback {
  cb_id : nat;
  cb_body : DownloadProgress -> option JsValue;
}.

(** The argument [pipeline] hands to [progress_callback] ([progress: any]);
    [raw_file = None] is an absent [file]. *)
Record RawProgress := mkRaw {
  raw_status : string;
  raw_file : option string;
  raw_loaded : Q;
  raw_total : Q;
}.

(** Truthiness of [progress.file]. *)
Definition truthy (s : option string) : bool :=
  match s with
  | Some ""%string | None => false
  | Some _ => true
  end.

(** ** The state of the manager and of the event loop *)

(** The environment of one activation of [downloadModel] that went past the
    joining test: the object [progressData] and the variables [lastLoaded] and
    [lastTime] captured by [progressTracker], the promise the call returned
    and whether [await pipeline(...)] is still suspended.  The object
    [progressData] is shared: [activeDownloads] holds a reference to it, an
    index into [heap]. *)
Record Activation := mkActivation {
  progressData : DownloadProgress;
  lastLoaded : Q;
  lastTime : Z;
  caller : nat;
  awaiting : bool;
}.

Inductive Timer :=
  | Evict (due : Z) (id : string)            (* the [setTimeout] of [finally] *)
  | Poll (due : Z) (id : string) (p : nat).  (* [setTimeout(checkStatus, 100)] *)

Definition due_of (t : Timer) : Z :=
  match t with
  | Evict d _ | Poll d _ _ => d
  end.

Inductive Outcome :=
  | Unsettled
  | Resolved (v : JsValue)
  | Rejected (v : JsValue).

Record Manager := mkManager {
  clock : Z;                                     (* [Date.now()] *)
  heap : list Activation;
  activeDownloads : gmap string nat;
  callbacks : gmap string (list ProgressCallback);
  timers : list Timer;
  promises : list Outcome;                       (* one per [downloadModel] call *)
  pipelineCalls : list (string * string);        (* [pipeline(task, modelId, ...)] *)
  delivered : list (nat * DownloadProgress);     (* callback invocations, in order *)
}.

Definition initial : Manager :=
  mkManager 0 [] ∅ ∅ [] [] [] [].

Definition set_clock (t : Z) (w : Manager) : Manager :=
  mkManager t (heap w) (activeDownloads w) (callbacks w) (timers w)
            (promises w) (pipelineCalls w) (delivered w).
Definition set_heap (h : list Activation) (w : Manager) : Manager :=
  mkManager (clock w) h (activeDownloads w) (callbacks w) (timers w)
            (promises w) (pipelineCalls w) (delivered w).
Definition set_activeDownloads (m : gmap string nat) (w : Manager) : Manager :=
  mkManager (clock w) (heap w) m (callbacks w) (timers w)
            (promises w) (pipelineCalls w) (delivered w).
Definition set_callbacks (c : gmap string (list ProgressCallback)) (w : Manager) : Manager :=
  mkManager (clock w) (heap w) (activeDownloads w) c (timers w)
            (promises w) (pipelineCalls w) (delivered w).
Definition set_timers (t : list Timer) (w : Manager) : Manager :=
  mkManager (clock w) (heap w) (activeDownloads w) (callbacks w) t
            (promises w) (pipelineCalls w) (delivered w).
Definition set_promises (p : list Outcome) (w : Manager) : Manager :=
  mkManager (clock w) (heap w) (activeDownloads w) (callbacks w) (timers w)
            p (pipelineCalls w) (delivered w).
Definition set_pipelineCalls (c : list (string * string)) (w : Manager) : Manager :=
  mkManager (clock w) (heap w) (activeDownloads w) (callbacks w) (timers w)
            (promises w) c (delivered w).
Definition set_delivered (d : list (nat * DownloadProgress)) (w : Manager) : Manager :=
  mkManager (clock w) (heap w) (activeDownloads w) (callbacks w) (timers w)
            (promises w) (pipelineCalls w) d.

(** Updates of the shared object [progressData]. *)
Definition with_status (s : Status) (d : DownloadProgress) : DownloadProgress :=
  mkProgress (modelId d) s (progress d) (loaded d) (total d) (speed d) (eta d) (error d).
Definition with_progress (n : JsNumber) (d : DownloadProgress) : DownloadProgress :=
  mkProgress (modelId d) (status d) n (loaded d) (total d) (speed d) (eta d) (error d).
Definition with_error (e : string) (d : DownloadProgress) : DownloadProgress :=
  mkProgress (modelId d) (status d) (progress d) (loaded d) (total d) (speed d) (eta d) (Some e).
Definition with_data (d : DownloadProgress) (a : Activation) : Activation :=
  mkActivation d (lastLoaded a) (lastTime a) (caller a) (awaiting a).
Definition settled (a : Activation) : Activation :=
  mkActivation (progressData a) (lastLoaded a) (lastTime a) (caller a) false.

(** A promise settles once: [resolve] and [reject] on a settled promise do
    nothing. *)
Definition settle (p : nat) (o : Outcome) (w : Manager) : Manager :=
  match promises w !! p with
  | Some Unsettled => set_promises (<[p := o]> (promises w)) w
  | _ => w
  end.

Definition setTimeout (t : Timer) (w : Manager) : Manager :=
  set_timers (timers w ++ [t]) w.

(** ** The methods *)

(** [addProgressCallback]. *)
Definition addProgressCallback (id : string) (cb : ProgressCallback) (w : Manager) : Manager :=
  let existing := default [] (callbacks w !! id) in
  set_callbacks (<[id := existing ++ [cb]]> (callbacks w)) w.

(** [callbacks.forEach((cb) => cb(progress))]: the callbacks run in order; the
    first one that throws ends the loop, and its exception is the result. *)
Fixpoint forEach (cbs : list ProgressCallback) (d : DownloadProgress)
  : list (nat * DownloadProgress) * option JsValue :=
  match cbs with
  | [] => ([], None)
  | cb :: rest =>
      match cb_body cb d with
      | Some v => ([(cb_id cb, d)], Some v)
      | None => let '(l, r) := forEach rest d in ((cb_id cb, d) :: l, r)
      end
  end.

(** [notifyProgress]. *)
Definition notifyProgress (id : string) (d : DownloadProgress) (w : Manager)
  : Manager * option JsValue :=
  let cbs := default [] (callbacks w !! id) in
  let '(l, r) := forEach cbs d in
  (set_delivered (delivered w ++ l) w, r).

(** [progress.error || 'Download failed']. *)
Definition error_or_default (e : option string) : string :=
  match e with
  | Some ""%string | None => "Download failed"%string
  | Some m => m
  end.

(** [checkStatus], the body of the polling loop of [waitForDownload] for the
    promise [p].  [None] stands for a reference into [heap] that dangles, which
    the manager never creates. *)
Definition checkStatus (id : string) (p : nat) (w : Manager) : option Manager :=
  match activeDownloads w !! id with
  | None => Some (settle p (Rejected (JsError "Download cancelled")) w)
  | Some r =>
      a ← heap w !! r;
      match status (progressData a) with
      | StCompleted => Some (settle p (Resolved JsNull) w)
      | StError =>
          Some (settle p (Rejected (JsError (error_or_default (error (progressData a))))) w)
      | _ => Some (setTimeout (Poll (clock w + 100) id p) w)
      end
  end.

(** [waitForDownload]: the executor of the new promise runs [checkStatus] at
    once. *)
Definition waitForDownload (id : string) (p : nat) (w : Manager) : option Manager :=
  checkStatus id p w.

Definition register (id : string) (onProgress : option ProgressCallback) (w : Manager) : Manager :=
  match onProgress with
  | Some cb => addProgressCallback id cb w
  | None => w
  end.

(** The test at the head of [downloadModel]. *)
Definition joins (id : string) (w : Manager) : option bool :=
  match activeDownloads w !! id with
  | None => Some false
  | Some r =>
      a ← heap w !! r;
      Some (match status (progressData a) with StDownloading => true | _ => false end)
  end.

(** The part of [downloadModel] that starts a download, up to the suspension at
    [await pipeline(...)]. *)
Definition startDownload (id task : string) (onProgress : option ProgressCallback)
    (p : nat) (w : Manager) : Manager :=
  let d := mkProgress id StDownloading (Finite 0) 0 0 0 0 None in
  let r := length (heap w) in
  let w := set_heap (heap w ++ [mkActivation d 0 (clock w) p true]) w in
  let w := set_activeDownloads (<[id := r]> (activeDownloads w)) w in
  let w := register id onProgress w in
  set_pipelineCalls (pipelineCalls w ++ [(task, id)]) w.

(** [downloadModel], up to its first suspension.  The promise it returns is
    the next free index of [promises]. *)
Definition downloadModel (id task : string) (onProgress : option ProgressCallback)
    (w : Manager) : option Manager :=
  let p := length (promises w) in
  j ← joins id w;
  let w := set_promises (promises w ++ [Unsettled]) w in
  if j : bool then waitForDownload id p (register id onProgress w)
  else Some (startDownload id task onProgress p w).

(** The closure [progressTracker] of the activation [a], called at time [now].
    [None] when the sample is ignored. *)
Definition progressTracker (now : Z) (a : Activation) (raw : RawProgress) : option Activation :=
  if String.eqb (raw_status raw) "progress" && truthy (raw_file raw) then
    let timeDelta := (inject_Z (now - lastTime a) / 1000)%Q in
    let loadedDelta := (raw_loaded raw - lastLoaded a)%Q in
    let speed := if Qgtb timeDelta 0 then (loadedDelta / timeDelta)%Q else 0%Q in
    let remaining := (raw_total raw - raw_loaded raw)%Q in
    let eta := if Qgtb speed 0 then (remaining / speed)%Q else 0%Q in
    let d := progressData a in
    let d := mkProgress (modelId d) (status d)
               (js_mul (js_div (raw_loaded raw) (raw_total raw)) 100)
               (raw_loaded raw) (raw_total raw) speed eta (error d) in
    Some (mkActivation d (raw_loaded raw) now (caller a) (awaiting a))
  else None.

(** [error instanceof Error ? error.message : 'Unknown error']. *)
Definition message_of (e : JsValue) : string :=
  match e with
  | JsError m => m
  | _ => "Unknown error"%string
  end.

(** The [finally] block. *)
Definition finally (id : string) (w : Manager) : Manager :=
  setTimeout (Evict (clock w + 5000) id) w.

(** The [catch] block of the activation at [r], entered with [e]; ends in the
    [finally] block and the rejection of the call's promise. *)
Definition catch (r : nat) (a : Activation) (e : JsValue) (w : Manager) : Manager :=
  let d := with_error (message_of e) (with_status StError (progressData a)) in
  let a := with_data d a in
  let w := set_heap (<[r := a]> (heap w)) w in
  let '(w, raised) := notifyProgress (modelId d) d w in
  let w := finally (modelId d) w in
  settle (caller a) (Rejected (default e raised)) w.

(** The continuation of [await pipeline(...)] when the promise resolved with
    [model]. *)
Definition onResolved (r : nat) (a : Activation) (model : JsValue) (w : Manager) : Manager :=
  let d := with_progress (Finite 100) (with_status StCompleted (progressData a)) in
  let a := settled (with_data d a) in
  let w := set_heap (<[r := a]> (heap w)) w in
  let '(w, raised) := notifyProgress (modelId d) d w in
  match raised with
  | Some e => catch r a e w
  | None => settle (caller a) (Resolved model) (finally (modelId d) w)
  end.

(** The continuation when the promise rejected with [e]. *)
Definition onRejected (r : nat) (a : Activation) (e : JsValue) (w : Manager) : Manager :=
  catch r (settled a) e w.

(** The callback of the eviction timer. *)
Definition evict (id : string) (w : Manager) : Manager :=
  set_callbacks (delete id (callbacks w)) (set_activeDownloads (delete id (activeDownloads w)) w).

(** [getProgress] and [isDownloading]. *)
Definition getProgress (id : string) (w : Manager) : option DownloadProgress :=
  r ← activeDownloads w !! id; a ← heap w !! r; Some (progressData a).

Definition isDownloading (id : string) (w : Manager) : bool :=
  match getProgress id w with
  | Some d => match status d with StDownloading => true | _ => false end
  | None => false
  end.

(** ** The event loop *)

Inductive Event :=
  | Call (id task : string) (onProgress : option ProgressCallback)
      (* a client calls [downloadModel] *)
  | Sample (r : nat) (raw : RawProgress)
      (* [pipeline] calls the [progress_callback] of the activation [r] *)
  | Settles (r : nat) (model : JsValue)
      (* the promise of [pipeline] resolves *)
  | Fails (r : nat) (e : JsValue)
      (* the promise of [pipeline] rejects *)
  | Fires (i : nat)
      (* the pending timer at position [i] runs; it is due *)
  | Advance (dt : Z).
      (* time passes *)

Definition running (r : nat) (w : Manager) : option Activation :=
  a ← heap w !! r; if awaiting a then Some a else None.

(** One step; [None] when the event cannot happen in [w].  A timer fires when
    it is due or later, and the due timers fire in any order.  [pipeline]
    hands samples to an activation only while its promise is pending; an
    exception that a subscriber throws inside [progressTracker] goes up into
    [pipeline], which is free to resolve or to reject later. *)
Definition step (w : Manager) (ev : Event) : option Manager :=
  match ev with
  | Call id task onProgress => downloadModel id task onProgress w
  | Sample r raw =>
      a ← running r w;
      match progressTracker (clock w) a raw with
      | Some a' =>
          let w := set_heap (<[r := a']> (heap w)) w in
          Some (fst (notifyProgress (modelId (progressData a')) (progressData a') w))
      | None => Some w
      end
  | Settles r model => a ← running r w; Some (onResolved r a model w)
  | Fails r e => a ← running r w; Some (onRejected r a e w)
  | Fires i =>
      t ← timers w !! i;
      if (due_of t <=? clock w)%Z then
        let w := set_timers (delete i (timers w)) w in
        match t with
        | Evict _ id => Some (evict id w)
        | Poll _ id p => checkStatus id p w
        end
      else None
  | Advance dt =>
      if (0 <=? dt)%Z then Some (set_clock (clock w + dt) w) else None
  end.

Fixpoint run (w : Manager) (evs : list Event) : option Manager :=
  match evs with
  | [] => Some w
  | ev :: rest => w' ← step w ev; run w' rest
  end.

(** A subscriber that returns, and one that throws [v], whatever it is
    handed. *)
Definition quiet (n : nat) : ProgressCallback := mkCallback n (fun _ => None).
Definition faulty (n : nat) (v : JsValue) : ProgressCallback := mkCallback n (fun _ => Some v).

Definition terminal (s : Status) : bool :=
  match s with
  | StCompleted | StError => true
  | _ => false
  end.

(** The activations of [id] whose [pipeline] promise is pending: the fetches
    in flight. *)
Definition in_flight (id : string) (w : Manager) : list Activation :=
  filter (fun a => awaiting a = true ∧ modelId (progressData a) = id) (heap w).

(** ** Derived notions and scenarios *)

(** A settled promise keeps its outcome. *)
Definition keeps (l l' : list Outcome) : Prop :=
  ∀ q o, l !! q = Some o → o ≠ Unsettled → l' !! q = Some o.

(** An activation whose fetch is pending is in status ['downloading'], one
    whose fetch is over is in a terminal status, the references of
    [activeDownloads] point into the heap, and the identity under which an
    activation was stored is the one its record carries. *)
Record consistent (w : Manager) : Prop := {
  cons_status : ∀ r a, heap w !! r = Some a →
    if awaiting a then status (progressData a) = StDownloading
    else terminal (status (progressData a)) = true;
  cons_refs : ∀ id r, activeDownloads w !! id = Some r →
    ∃ a, heap w !! r = Some a ∧ modelId (progressData a) = id;
}.

(** A client retries within the grace window of a failed download, the fetch of
    the retry is still running when the eviction timer of the failed download
    fires, and then a third call arrives. *)
Definition stale_eviction : list Event :=
  [ Call "m" "text-generation" (Some (quiet 0));
    Fails 0 (JsError "network timeout");
    Advance 1000;
    Call "m" "text-generation" (Some (quiet 1));
    Advance 4000;
    Fires 0 ].

(** The record a starting call creates. *)
Definition fresh (id : string) : DownloadProgress :=
  mkProgress id StDownloading (Finite 0) 0 0 0 0 None.

(** The first download of ["m"] has completed and its record is still there. *)
Definition grace_window : list Event :=
  [ Call "m" "text-generation" (Some (quiet 0));
    Settles 0 (JsModel 7);
    Advance 1000 ].

(** The eviction timer of a completed download fires while the fetch of a
    second download, started late in the grace window, is running and a joiner
    of that second download is waiting for its first poll, which is then due.
    No fetch has failed. *)
Definition evicted_under_joiner : list Event :=
  [ Call "m" "text-generation" (Some (quiet 0));
    Settles 0 (JsModel 7);
    Advance 4950;
    Call "m" "text-generation" (Some (quiet 1));
    Advance 10;
    Call "m" "text-generation" (Some (quiet 2));
    Advance 40;
    Fires 0;
    Advance 60 ].

(** The callbacks registered for an identity, in registration order. *)
Definition subscribers (id : string) (w : Manager) : list ProgressCallback :=
  default [] (callbacks w !! id).

(** The records the two continuations of [await pipeline(...)] leave. *)
Definition completed_record (d : DownloadProgress) : DownloadProgress :=
  with_progress (Finite 100) (with_status StCompleted d).
Definition error_record (e : JsValue) (d : DownloadProgress) : DownloadProgress :=
  with_error (message_of e) (with_status StError d).

(** Two clients ask for ["m"]; the second joins the download of the first and
    its first poll is due. *)
Definition joined : list Event :=
  [ Call "m" "text-generation" (Some (quiet 0));
    Call "m" "text-generation" (Some (quiet 1));
    Advance 100 ].

(** The moves of a status the code makes. *)
Definition forward (s s' : Status) : Prop :=
  s' = s ∨ (s = StDownloading ∧ (s' = StCompleted ∨ s' = StError)).

(** What one step does to the heap and to [activeDownloads]: nothing to the
    heap; or it updates one record, moving its status forward; or it is a call
    of [downloadModel] that creates a fresh record and stores it under its
    identity. *)
Inductive effect (w : Manager) (ev : Event) (w' : Manager) : Prop :=
  | effect_none :
      heap w' = heap w →
      (activeDownloads w' = activeDownloads w ∨
       ∃ id, activeDownloads w' = delete id (activeDownloads w)) →
      effect w ev w'
  | effect_update r a a' :
      heap w !! r = Some a →
      heap w' = <[r := a']> (heap w) →
      activeDownloads w' = activeDownloads w →
      forward (status (progressData a)) (status (progressData a')) →
      effect w ev w'
  | effect_create id task cb p :
      ev = Call id task cb →
      heap w' = heap w ++ [mkActivation (fresh id) 0 (clock w) p true] →
      activeDownloads w' = <[id := length (heap w)]> (activeDownloads w) →
      effect w ev w'.

(** The samples [progressTracker] takes into account. *)
Definition accepted (raw : RawProgress) : bool :=
  String.eqb (raw_status raw) "progress" && truthy (raw_file raw).

(** The samples of one fetch, each with the time of its delivery, through the
    closure [progressTracker] of the activation: the records that result, one
    for each sample taken into account. *)
Fixpoint feed (a : Activation) (samples : list (Z * RawProgress)) : list DownloadProgress :=
  match samples with
  | [] => []
  | (now, raw) :: rest =>
      match progressTracker now a raw with
      | Some a' => progressData a' :: feed a' rest
      | None => feed a rest
      end
  end.

(** The activation a starting call creates at time [t]. *)
Definition started (id : string) (t : Z) : Activation :=
  mkActivation (fresh id) 0 t 0 true.

(** [<=] on the values of [progress]; it relates finite values only. *)
Definition JsNumber_le (x y : JsNumber) : Prop :=
  match x, y with
  | Finite p, Finite q => (p <= q)%Q
  | _, _ => False
  end.

Definition sample (file : string) (l t : Q) : RawProgress :=
  mkRaw "progress" (Some file) l t.

(** The samples of [pipeline] are per file.  Here a sample for a second file
    follows a sample for the first. *)
Definition two_files : list Event :=
  [ Call "m" "text-generation" (Some (quiet 0));
    Advance 1000;
    Sample 0 (sample "tokenizer.json" 500 1000);
    Advance 1000 ].

(** The first subscriber of ["m"] throws, the second does not. *)
Definition faulty_first : list Event :=
  [ Call "m" "text-generation" (Some (faulty 0 (JsError "render failed")));
    Call "m" "text-generation" (Some (quiet 1)) ].

(** A download fails, the client retries a second later, and the retry
    completes a second after that. *)
Definition retry_completes : list Event :=
  [ Call "m" "text-generation" (Some (quiet 0));
    Fails 0 (JsError "network timeout");
    Advance 1000;
    Call "m" "text-generation" (Some (quiet 1));
    Advance 1000;
    Settles 1 (JsModel 7) ].

(** The fetches started for an identity so far. *)
Definition fetches (id : string) (w : Manager) : list (string * string) :=
  List.filter (fun c => String.eqb (snd c) id) (pipelineCalls w).

(** No eviction timer for [id] is pending. *)
Definition no_eviction_pending (id : string) (w : Manager) : Prop :=
  Forall (fun t => ∀ due, t ≠ Evict due id) (timers w).

(** The download [r] is the one fetch in flight for [id]: its record is the
    one stored for [id], its fetch is pending, no other fetch for [id] is
    pending and no eviction timer for [id] is pending. *)
Record sole_fetch (id : string) (r : nat) (w : Manager) : Prop := {
  sole_entry : activeDownloads w !! id = Some r;
  sole_running : ∃ a, running r w = Some a ∧ modelId (progressData a) = id ∧
                      status (progressData a) = StDownloading;
  sole_others : ∀ r' a', r' ≠ r → heap w !! r' = Some a' →
                  modelId (progressData a') = id → awaiting a' = false;
  sole_timers : no_eviction_pending id w;
}.

(** The fetch of [r] is not over in [ev]. *)
Definition leaves_pending (r : nat) (ev : Event) : Prop :=
  match ev with
  | Settles r' _ | Fails r' _ => r' ≠ r
  | _ => True
  end.

(** The entry of [id] is there, and every eviction timer for [id], pending or
    armed from now on, is due at [deadline] or later. *)
Record in_grace (id : string) (deadline : Z) (w : Manager) : Prop := {
  grace_entry : is_Some (activeDownloads w !! id);
  grace_timers : Forall (fun t => ∀ due, t = Evict due id → (deadline <= due)%Z) (timers w);
  grace_clock : (deadline <= clock w + 5000)%Z;
}.

(** ** Further notions about the manager *)

(** The identity an event is about: the one a call names, the one of the
    download a sample or a settlement belongs to, the one a timer was armed
    for. *)
Definition concerns (w : Manager) (ev : Event) : option string :=
  match ev with
  | Call id _ _ => Some id
  | Sample r _ | Settles r _ | Fails r _ =>
      a ← heap w !! r; Some (modelId (progressData a))
  | Fires i =>
      t ← timers w !! i;
      Some (match t with Evict _ id | Poll _ id _ => id end)
  | Advance _ => None
  end.

(** Something is pending for the promise [p]: a fetch in flight whose
    activation returned it, or a poll of its waiting loop. *)
Definition awaited (p : nat) (w : Manager) : Prop :=
  (∃ r a, running r w = Some a ∧ caller a = p) ∨
  (∃ due id, Poll due id p ∈ timers w).

(** The requests [(task, modelId)] of the calls of [downloadModel] in a
    trace, in order. *)
Fixpoint calls_of (evs : list Event) : list (string * string) :=
  match evs with
  | [] => []
  | Call id task _ :: rest => (task, id) :: calls_of rest
  | _ :: rest => calls_of rest
  end.

(** Two downloads run side by side. *)
Definition side_by_side : list Event :=
  [ Call "m" "text-generation" (Some (quiet 0));
    Call "n" "image-classification" (Some (quiet 1));
    Advance 1000 ].

(** ** The promise of a requester and the promises of the joiners *)

(** What the promise of the call that created a record holds, by the status
    of the record. *)
Definition outcome_fits (s : Status) (o : Outcome) : Prop :=
  match s with
  | StPending => False
  | StDownloading => o = Unsettled
  | StCompleted => ∃ model, o = Resolved model
  | StError => ∃ v, o = Rejected v
  end.

(** The promise a pending poll serves, and the promises that have a poll
    pending. *)
Definition polled (t : Timer) : option nat :=
  match t with
  | Poll _ _ p => Some p
  | Evict _ _ => None
  end.

Definition waiting (w : Manager) : list nat := omap polled (timers w).

(** The promise of the call that created a record is unsettled while the
    record is in status ['downloading'], resolved when it is ['completed'] and
    rejected when it is ['error']; two records were not created by one call;
    a promise with a pending poll is unsettled and is not the promise of a
    call that created a record; and no promise has two polls pending. *)
Record accounted (w : Manager) : Prop := {
  acc_callers : ∀ r a, heap w !! r = Some a →
    ∃ o, promises w !! caller a = Some o ∧ outcome_fits (status (progressData a)) o;
  acc_distinct : ∀ r r' a a', heap w !! r = Some a → heap w !! r' = Some a' →
    caller a = caller a' → r = r';
  acc_polls : ∀ p, p ∈ waiting w →
    promises w !! p = Some Unsettled ∧ ∀ r a, heap w !! r = Some a → caller a ≠ p;
  acc_once : NoDup (waiting w);
}.

(** * The cache manager of [src/services/cache.ts]

    [class CacheManager] works on the Cache Storage of the browser
    ([window.caches]).  The storage is modelled by the list of its caches, in
    the order of [caches.keys()], each with its name and its entries, in the
    order of [cache.keys()].  An entry is a request and the size of the blob of
    its response.  The URL of a request is the text of its origin, its path and
    what follows the path; [new URL(request.url).pathname] is the path.  A storage that
    cannot be used ([None]) makes every call of the interface throw, which is
    what the [catch] blocks of the methods are for.  The methods are taken as
    they run when nothing else touches the storage between their steps. *)

(** [hay.includes(needle)]. *)
Fixpoint includes (needle hay : string) : bool :=
  String.prefix needle hay ||
  match hay with
  | EmptyString => false
  | String _ rest => includes needle rest
  end.

(** [s.split(sep)] for a separator of one character. *)
Fixpoint split (sep : Ascii.ascii) (s : string) : list string :=
  match s with
  | EmptyString => [EmptyString]
  | String c rest =>
      if Ascii.eqb c sep then EmptyString :: split sep rest
      else match split sep rest with
           | h :: t => String c h :: t
           | [] => [String c EmptyString]
           end
  end.

(** [l.slice(-n)]. *)
Definition slice_last {A} (n : nat) (l : list A) : list A :=
  drop (length l - n) l.

Record Request := mkRequest {
  req_origin : string;
  req_pathname : string;
  req_search : string;
}.

(** [request.url]. *)
Definition url (q : Request) : string :=
  req_origin q +:+ req_pathname q +:+ req_search q.

Record CacheEntry := mkEntry {
  entry_request : Request;
  entry_size : N;
}.

(** [interface CachedModel]. *)
Record CachedModel := mkCachedModel {
  cached_modelId : string;
  cached_size : N;
  cachedAt : Z;
}.

(** The test of [caches.filter(...)]. *)
Definition is_transformers (name : string) : bool := includes "transformers" name.

Definition transformerCaches (s : list (string * list CacheEntry))
  : list (string * list CacheEntry) :=
  List.filter (fun nc => is_transformers (fst nc)) s.

(** [cache.match(request)]: the response of the first entry stored under the
    URL of the request, here its size. *)
Definition cache_match (q : Request) (c : list CacheEntry) : option N :=
  entry_size <$> List.find (fun e => String.eqb (url (entry_request e)) (url q)) c.

(** [cache.delete(request)]: the entries stored under the URL of the request
    go. *)
Definition cache_delete (q : Request) (c : list CacheEntry) : list CacheEntry :=
  List.filter (fun e => negb (String.eqb (url (entry_request e)) (url q))) c.

(** [pathParts.slice(-2).join('/')]. *)
Definition modelId_of (q : Request) : string :=
  String.concat "/" (slice_last 2 (split "/"%char (req_pathname q))).

(** The inner loop of [getCachedModels] over the requests of one cache; [now]
    is the reading of [Date.now()]. *)
Fixpoint models_of (now : Z) (c : list CacheEntry) (requests : list Request)
  : list CachedModel :=
  match requests with
  | [] => []
  | q :: rest =>
      match cache_match q c with
      | Some n => mkCachedModel (modelId_of q) n now :: models_of now c rest
      | None => models_of now c rest
      end
  end.

(** [getCachedModels]. *)
Definition getCachedModels (now : Z) (cs : option (list (string * list CacheEntry)))
  : list CachedModel :=
  match cs with
  | None => []
  | Some s =>
      flat_map (fun nc => models_of now (snd nc) (map entry_request (snd nc)))
               (transformerCaches s)
  end.

(** The inner loop of [deleteModel] over the requests of one cache: the cache
    and the flag [deleted] as the loop leaves them. *)
Fixpoint delete_requests (id : string) (requests : list Request)
    (c : list CacheEntry) (deleted : bool) : bool * list CacheEntry :=
  match requests with
  | [] => (deleted, c)
  | q :: rest =>
      if includes id (url q) then delete_requests id rest (cache_delete q c) true
      else delete_requests id rest c deleted
  end.

(** The outer loop of [deleteModel]. *)
Fixpoint delete_in_caches (id : string) (s : list (string * list CacheEntry))
    (deleted : bool) : bool * list (string * list CacheEntry) :=
  match s with
  | [] => (deleted, [])
  | (name, c) :: rest =>
      if is_transformers name then
        let '(deleted, c') := delete_requests id (map entry_request c) c deleted in
        let '(deleted, rest') := delete_in_caches id rest deleted in
        (deleted, (name, c') :: rest')
      else
        let '(deleted, rest') := delete_in_caches id rest deleted in
        (deleted, (name, c) :: rest')
  end.

(** [deleteModel]: its result and the storage it leaves. *)
Definition deleteModel (id : string) (cs : option (list (string * list CacheEntry)))
  : bool * option (list (string * list CacheEntry)) :=
  match cs with
  | None => (false, None)
  | Some s => let '(deleted, s') := delete_in_caches id s false in (deleted, Some s')
  end.

(** [caches.delete(cacheName)]. *)
Definition caches_delete (name : string) (s : list (string * list CacheEntry))
  : list (string * list CacheEntry) :=
  List.filter (fun nc => negb (String.eqb (fst nc) name)) s.

(** [clearAllCache]: its result and the storage it leaves. *)
Definition clearAllCache (cs : option (list (string * list CacheEntry)))
  : bool * option (list (string * list CacheEntry)) :=
  match cs with
  | None => (false, None)
  | Some s =>
      (true, Some (fold_left (fun acc name => caches_delete name acc)
                             (map fst (transformerCaches s)) s))
  end.

(** [getTotalCacheSize]. *)
Definition getTotalCacheSize (now : Z) (cs : option (list (string * list CacheEntry))) : N :=
  fold_left (fun total model => (total + cached_size model)%N) (getCachedModels now cs) 0%N.

(** The predicate of the entries [deleteModel] removes. *)
Definition mentions (id : string) (e : CacheEntry) : bool :=
  includes id (url (entry_request e)).

(** The storage without the entries of its transformers caches that mention
    [id], and whether there is such an entry. *)
Definition purge (id : string) (s : list (string * list CacheEntry))
  : list (string * list CacheEntry) :=
  map (fun nc => if is_transformers (fst nc)
                 then (fst nc, List.filter (fun e => negb (mentions id e)) (snd nc))
                 else nc) s.

Definition any_mention (id : string) (s : list (string * list CacheEntry)) : bool :=
  existsb (fun nc => is_transformers (fst nc) && existsb (mentions id) (snd nc)) s.

(** A storage as the library leaves it: two files of two models in the
    transformers cache, and a cache of the application. *)
Definition sample_storage : list (string * list CacheEntry) :=
  [ ("transformers-cache",
     [ mkEntry (mkRequest "https://huggingface.co"
                  "/Xenova/whisper-tiny/resolve/main/config.json" "") 2048;
       mkEntry (mkRequest "https://huggingface.co"
                  "/Xenova/gpt2/resolve/main/model.onnx" "") 300000 ]);
    ("app-shell",
     [ mkEntry (mkRequest "https://sigma.example" "/index.html" "") 512 ]) ].

(** * The hardware service ([services/hardware])

    What the functions read from the browser: [navigator.gpu] and the outcome
    of [requestAdapter()], the outcomes of [getContext] on a new canvas,
    [navigator.deviceMemory] and [navigator.hardwareConcurrency]. *)

Inductive Probe := Found | Null | Throws.

Record Browser := mkBrowser {
  gpu : option Probe;              (* [None]: no [navigator.gpu] *)
  getContext_webgl2 : Probe;
  getContext_webgl : Probe;
  deviceMemory : option Q;
  hardwareConcurrency : option Q;
}.

Inductive Backend := webgpu_backend | wasm_backend.

Record HardwareProfile := mkProfile {
  webgpu : bool;
  webgl : bool;
  ram : Q;
  cores : Q;
  backend : Backend;
}.

(** [detectWebGPU]. *)
Definition detectWebGPU (b : Browser) : bool :=
  match gpu b with
  | None => false
  | Some Found => true
  | Some Null => false
  | Some Throws => false
  end.

(** [detectWebGL]: [getContext('webgl2') || getContext('webgl')], then
    [gl !== null]; an exception anywhere gives [false]. *)
Definition detectWebGL (b : Browser) : bool :=
  match getContext_webgl2 b with
  | Found => true
  | Throws => false
  | Null =>
      match getContext_webgl b with
      | Found => true
      | Null => false
      | Throws => false
      end
  end.

(** Truthiness of a number that is there. *)
Definition nonzero (x : Q) : bool := negb (Qeq_bool x 0).

(** [detectRAM]. *)
Definition detectRAM (b : Browser) : Q :=
  match deviceMemory b with
  | Some m => if nonzero m && Qgtb m 0 then m else 4
  | None => 4
  end.

(** [detectCPUCores]. *)
Definition detectCPUCores (b : Browser) : Q :=
  match hardwareConcurrency b with
  | Some n => if nonzero n && Qgtb n 0 then n else 2
  | None => 2
  end.

(** [getHardwareProfile]. *)
Definition getHardwareProfile (b : Browser) : HardwareProfile :=
  let webgpu := detectWebGPU b in
  mkProfile webgpu (detectWebGL b) (detectRAM b) (detectCPUCores b)
            (if webgpu then webgpu_backend else wasm_backend).

(** [getOptimalBackend]. *)
Definition getOptimalBackend (b : Browser) : Backend := backend (getHardwareProfile b).

(** [interface Model]; an absent field is [None]. *)
Record Model := mkModel {
  name : string;
  min_ram_gb : option Q;
  min_cores : option Q;
  requires_webgpu : option bool;
}.

Record CompatibilityResult := mkResult {
  compatible : bool;
  reason : string;
}.

(** [x && y < x] for an optional number [x]. *)
Definition short_of (need : option Q) (have : Q) : option Q :=
  match need with
  | Some x => if nonzero x && Qgtb x have then Some x else None
  | None => None
  end.

(** [checkModelCompatibility]; [show] renders a number in a template
    string. *)
Definition checkModelCompatibility (show : Q → string) (b : Browser)
    (model : Model) (profile : option HardwareProfile) : CompatibilityResult :=
  let hwProfile := default (getHardwareProfile b) profile in
  match short_of (min_ram_gb model) (ram hwProfile) with
  | Some need =>
      mkResult false ("Model requires " +:+ show need +:+ "GB RAM, but only "
                      +:+ show (ram hwProfile) +:+ "GB available")
  | None =>
      match short_of (min_cores model) (cores hwProfile) with
      | Some need =>
          mkResult false ("Model requires " +:+ show need +:+ " CPU cores, but only "
                          +:+ show (cores hwProfile) +:+ " available")
      | None =>
          if default false (requires_webgpu model) && negb (webgpu hwProfile)
             && negb (webgl hwProfile)
          then mkResult false
                 "Model requires GPU acceleration (WebGPU/WebGL), but none available"
          else mkResult true "Hardware meets model requirements"
      end
  end.

(** One profile has at least the hardware of another. *)
Definition at_least (p p' : HardwareProfile) : Prop :=
  (ram p <= ram p')%Q ∧ (cores p <= cores p')%Q ∧
  (webgpu p = true → webgpu p' = true) ∧ (webgl p = true → webgl p' = true).

(** * Basic facts *)

Section Settle.
Context (p : nat) (o : Outcome) (w : Manager).

Lemma settle_clock : clock (settle p o w) = clock w.
Proof. unfold settle. by repeat case_match. Qed.
Lemma settle_heap : heap (settle p o w) = heap w.
Proof. unfold settle. by repeat case_match. Qed.
Lemma settle_activeDownloads : activeDownloads (settle p o w) = activeDownloads w.
Proof. unfold settle. by repeat case_match. Qed.
Lemma settle_callbacks : callbacks (settle p o w) = callbacks w.
Proof. unfold settle. by repeat case_match. Qed.
Lemma settle_timers : timers (settle p o w) = timers w.
Proof. unfold settle. by repeat case_match. Qed.
Lemma settle_pipelineCalls : pipelineCalls (settle p o w) = pipelineCalls w.
Proof. unfold settle. by repeat case_match. Qed.
Lemma settle_delivered : delivered (settle p o w) = delivered w.
Proof. unfold settle. by repeat case_match. Qed.

Lemma settle_unsettled :
  promises w !! p = Some Unsettled → promises (settle p o w) !! p = Some o.
Proof.
  intros H. unfold settle. rewrite H. cbn.
  apply list_lookup_insert_eq. by eapply lookup_lt_Some.
Qed.

Lemma settle_other q : q ≠ p → promises (settle p o w) !! q = promises w !! q.
Proof.
  intros H. unfold settle. repeat case_match; try done.
  cbn. by apply list_lookup_insert_ne.
Qed.
End Settle.

Lemma keeps_refl l : keeps l l.
Proof. by intros q o. Qed.

Lemma keeps_trans l1 l2 l3 : keeps l1 l2 → keeps l2 l3 → keeps l1 l3.
Proof. intros H12 H23 q o Hq Ho. apply H23; [|done]. by apply H12. Qed.

Lemma keeps_app l x : keeps l (l ++ [x]).
Proof. intros q o Hq _. by apply lookup_app_l_Some. Qed.

Lemma keeps_settle p o w : keeps (promises w) (promises (settle p o w)).
Proof.
  intros q o' Hq Ho'. destruct (decide (q = p)) as [->|Hne].
  - unfold settle. rewrite Hq. by destruct o'.
  - by rewrite settle_other.
Qed.

Lemma notifyProgress_result id d w :
  notifyProgress id d w =
    (set_delivered (delivered w ++ fst (forEach (default [] (callbacks w !! id)) d)) w,
     snd (forEach (default [] (callbacks w !! id)) d)).
Proof. unfold notifyProgress. by destruct (forEach _ _). Qed.

(** [forEach] when nobody throws, and when somebody does. *)
Lemma forEach_quiet cbs d :
  Forall (fun cb => cb_body cb d = None) cbs →
  forEach cbs d = (map (fun cb => (cb_id cb, d)) cbs, None).
Proof.
  induction 1 as [|cb rest Hcb _ IH]; [done|].
  cbn. by rewrite Hcb, IH.
Qed.

Lemma forEach_raise pre cb post d v :
  Forall (fun c => cb_body c d = None) pre →
  cb_body cb d = Some v →
  forEach (pre ++ cb :: post) d = (map (fun c => (cb_id c, d)) (pre ++ [cb]), Some v).
Proof.
  intros Hpre Hcb. induction Hpre as [|c rest Hc _ IH]; cbn.
  - by rewrite Hcb.
  - by rewrite Hc, IH.
Qed.

(** What one poll of the waiting loop does to the promise it serves. *)
Lemma checkStatus_absent id p w :
  activeDownloads w !! id = None →
  checkStatus id p w = Some (settle p (Rejected (JsError "Download cancelled")) w).
Proof. intros H. unfold checkStatus. by rewrite H. Qed.

Lemma checkStatus_present id p w r a :
  activeDownloads w !! id = Some r → heap w !! r = Some a →
  checkStatus id p w = Some
    match status (progressData a) with
    | StCompleted => settle p (Resolved JsNull) w
    | StError => settle p (Rejected (JsError (error_or_default (error (progressData a))))) w
    | _ => setTimeout (Poll (clock w + 100) id p) w
    end.
Proof.
  intros Hr Ha. unfold checkStatus. rewrite Hr. cbn. rewrite Ha. cbn.
  by destruct (status (progressData a)).
Qed.

Lemma checkStatus_keeps id p w w' :
  checkStatus id p w = Some w' → keeps (promises w) (promises w').
Proof.
  unfold checkStatus. intros H.
  destruct (activeDownloads w !! id) as [r|].
  - cbn in H. destruct (heap w !! r) as [a|]; [|done]. cbn in H.
    destruct (status (progressData a)); simplify_eq; cbn;
      auto using keeps_settle, keeps_refl.
  - simplify_eq. apply keeps_settle.
Qed.

Lemma catch_keeps r a e w : keeps (promises w) (promises (catch r a e w)).
Proof.
  unfold catch. rewrite notifyProgress_result.
  eapply keeps_trans; [|apply keeps_settle]. apply keeps_refl.
Qed.

Lemma onResolved_keeps r a model w : keeps (promises w) (promises (onResolved r a model w)).
Proof.
  unfold onResolved. rewrite notifyProgress_result.
  destruct (snd (forEach _ _)).
  - eapply keeps_trans; [|apply catch_keeps]. apply keeps_refl.
  - eapply keeps_trans; [|apply keeps_settle]. apply keeps_refl.
Qed.

Lemma downloadModel_keeps id task cb w w' :
  downloadModel id task cb w = Some w' → keeps (promises w) (promises w').
Proof.
  unfold downloadModel. intros H.
  destruct (joins id w) as [[]|]; cbn in H; [| |done].
  - apply checkStatus_keeps in H. eapply keeps_trans; [|exact H].
    destruct cb; apply keeps_app.
  - simplify_eq. destruct cb; apply keeps_app.
Qed.

(** Each promise settles at most once: an outcome, once there, stays. *)
Lemma step_keeps w ev w' : step w ev = Some w' → keeps (promises w) (promises w').
Proof.
  destruct ev as [id task cb|r raw|r model|r e|i|dt]; cbn; intros H.
  - by eapply downloadModel_keeps.
  - destruct (running r w) as [a|]; [|done]. cbn in H.
    destruct (progressTracker _ _ _); simplify_eq; [|apply keeps_refl].
    rewrite notifyProgress_result. apply keeps_refl.
  - destruct (running r w) as [a|]; [|done]. simplify_eq/=. apply onResolved_keeps.
  - destruct (running r w) as [a|]; [|done]. simplify_eq/=. apply catch_keeps.
  - destruct (timers w !! i) as [t|]; [|done]. cbn in H.
    destruct (due_of t <=? clock w)%Z; [|done].
    destruct t; simplify_eq; [apply keeps_refl|].
    by apply checkStatus_keeps in H.
  - destruct (0 <=? dt)%Z; simplify_eq. apply keeps_refl.
Qed.

Lemma run_keeps evs : ∀ w w', run w evs = Some w' → keeps (promises w) (promises w').
Proof.
  induction evs as [|ev evs IH]; intros w w' H; cbn in H.
  - simplify_eq. apply keeps_refl.
  - destruct (step w ev) as [w1|] eqn:Hstep; [|done]. cbn in H.
    eapply keeps_trans; [by eapply step_keeps|by eapply IH].
Qed.

(** ** The invariant of the reachable states *)

Lemma consistent_initial : consistent initial.
Proof. split; cbn; intros *; [by rewrite lookup_nil | by rewrite lookup_empty]. Qed.

Lemma consistent_same_heap w w' :
  heap w' = heap w → activeDownloads w' = activeDownloads w →
  consistent w → consistent w'.
Proof. intros Hh Ha [H1 H2]. split; rewrite ?Hh, ?Ha; auto. Qed.

Lemma consistent_update w r a a' :
  heap w !! r = Some a →
  modelId (progressData a') = modelId (progressData a) →
  (if awaiting a' then status (progressData a') = StDownloading
   else terminal (status (progressData a')) = true) →
  consistent w → consistent (set_heap (<[r := a']> (heap w)) w).
Proof.
  intros Hr Hid Hst [H1 H2]. split; cbn.
  - intros r0 a0 H0. destruct (decide (r0 = r)) as [->|Hne].
    + rewrite list_lookup_insert_eq in H0 by by eapply lookup_lt_Some.
      by simplify_eq.
    + rewrite list_lookup_insert_ne in H0 by done. by eapply H1.
  - intros id r0 H0. destruct (H2 _ _ H0) as (a0 & Ha0 & Hid0).
    destruct (decide (r0 = r)) as [->|Hne].
    + exists a'. rewrite list_lookup_insert_eq by by eapply lookup_lt_Some.
      split; [done|]. simplify_eq. by rewrite Hid.
    + exists a0. by rewrite list_lookup_insert_ne.
Qed.

Lemma consistent_evict id w : consistent w → consistent (evict id w).
Proof.
  intros [H1 H2]. split; cbn; [done|].
  intros id' r H. apply lookup_delete_Some in H as [_ H]. by eapply H2.
Qed.

Lemma consistent_start id task cb p w :
  consistent w → consistent (startDownload id task cb p w).
Proof.
  intros [H1 H2]. unfold startDownload.
  split.
  - intros r a. cbn. destruct cb; cbn; intros H.
    all: apply lookup_app_Some in H as [H|[_ H]]; [by eapply H1|].
    all: apply list_lookup_singleton_Some in H as [_ <-]; done.
  - intros id' r. cbn. destruct cb; cbn; intros H.
    all: apply lookup_insert_Some in H as [[-> <-]|[Hne H]].
    all: try (eexists; split; [apply list_lookup_middle; done|done]).
    all: destruct (H2 _ _ H) as (a & Ha & Hid); exists a; split; [|done].
    all: by apply lookup_app_l_Some.
Qed.

Lemma checkStatus_same id p w w' :
  checkStatus id p w = Some w' →
  clock w' = clock w ∧ heap w' = heap w ∧ activeDownloads w' = activeDownloads w ∧
  callbacks w' = callbacks w ∧ pipelineCalls w' = pipelineCalls w ∧
  delivered w' = delivered w.
Proof.
  unfold checkStatus. intros H.
  destruct (activeDownloads w !! id) as [r|]; cbn in H.
  - destruct (heap w !! r) as [a|]; [|done]. cbn in H.
    destruct (status (progressData a)); simplify_eq;
      rewrite ?settle_clock, ?settle_heap, ?settle_activeDownloads, ?settle_callbacks,
        ?settle_pipelineCalls, ?settle_delivered; done.
  - simplify_eq.
    by rewrite settle_clock, settle_heap, settle_activeDownloads, settle_callbacks,
        settle_pipelineCalls, settle_delivered.
Qed.

Lemma running_Some r w a :
  running r w = Some a → heap w !! r = Some a ∧ awaiting a = true.
Proof.
  unfold running. destruct (heap w !! r) as [a0|]; [|done]. cbn.
  destruct (awaiting a0) eqn:E; [|done]. by intros [= <-].
Qed.

(** The heap after the [catch] block and after the continuations of
    [await pipeline(...)]: the record of the activation, and nothing else, has
    changed, and it is terminal. *)
Lemma catch_heap r a e w :
  heap (catch r a e w) =
    <[r := with_data (with_error (message_of e) (with_status StError (progressData a))) a]> (heap w).
Proof. unfold catch. rewrite notifyProgress_result. by rewrite settle_heap. Qed.

Lemma catch_activeDownloads r a e w : activeDownloads (catch r a e w) = activeDownloads w.
Proof. unfold catch. rewrite notifyProgress_result. by rewrite settle_activeDownloads. Qed.

Lemma onResolved_heap r a model w :
  ∃ d, heap (onResolved r a model w) = <[r := settled (with_data d a)]> (heap w) ∧
       terminal (status d) = true ∧ modelId d = modelId (progressData a).
Proof.
  unfold onResolved. rewrite notifyProgress_result.
  destruct (snd (forEach _ _)) as [e|].
  - rewrite catch_heap. cbn. rewrite list_insert_insert_eq. by eexists.
  - rewrite settle_heap. cbn. by eexists.
Qed.

Lemma onResolved_activeDownloads r a model w :
  activeDownloads (onResolved r a model w) = activeDownloads w.
Proof.
  unfold onResolved. rewrite notifyProgress_result.
  destruct (snd (forEach _ _)).
  - by rewrite catch_activeDownloads.
  - by rewrite settle_activeDownloads.
Qed.

Lemma progressTracker_keeps now a raw a' :
  progressTracker now a raw = Some a' →
  status (progressData a') = status (progressData a) ∧
  modelId (progressData a') = modelId (progressData a) ∧
  error (progressData a') = error (progressData a) ∧
  caller a' = caller a ∧ awaiting a' = awaiting a.
Proof. unfold progressTracker. case_match; [|done]. by intros [= <-]. Qed.

Lemma consistent_heap_eq w w' h :
  heap w' = h → heap (set_heap h w) = h →
  activeDownloads w' = activeDownloads w →
  consistent (set_heap h w) → consistent w'.
Proof. intros Hh _ Ha. apply consistent_same_heap; by rewrite ?Hh. Qed.

Lemma step_consistent w ev w' : step w ev = Some w' → consistent w → consistent w'.
Proof.
  destruct ev as [id task cb|r raw|r model|r e|i|dt]; cbn; intros H Hw.
  - unfold downloadModel in H.
    destruct (joins id w) as [[]|]; cbn in H; [| |done].
    + apply checkStatus_same in H as (_ & Hh & Ha & _).
      eapply consistent_same_heap; [| |exact Hw].
      all: rewrite ?Hh, ?Ha; clear Hh Ha; destruct cb; reflexivity.
    + simplify_eq. apply consistent_start.
      eapply consistent_same_heap; [| |exact Hw]; reflexivity.
  - destruct (running r w) as [a|] eqn:Hr; [|done]. cbn in H.
    apply running_Some in Hr as [Hr Haw].
    destruct (progressTracker _ _ _) as [a'|] eqn:Ht; simplify_eq; [|done].
    apply progressTracker_keeps in Ht as (Hs & Hid & _ & _ & Haw').
    rewrite notifyProgress_result. cbn.
    eapply (consistent_heap_eq w _ (<[r := a']> (heap w))); try done.
    eapply consistent_update; try done.
    rewrite Haw', Haw, Hs. by pose proof (cons_status _ Hw _ _ Hr) as Hc; rewrite Haw in Hc.
  - destruct (running r w) as [a|] eqn:Hr; [|done]. simplify_eq/=.
    apply running_Some in Hr as [Hr _].
    destruct (onResolved_heap r a model w) as (d & Hh & Hd & Hid).
    eapply (consistent_heap_eq w _ _ Hh); [done|apply onResolved_activeDownloads|].
    by eapply consistent_update.
  - destruct (running r w) as [a|] eqn:Hr; [|done]. simplify_eq/=.
    apply running_Some in Hr as [Hr _].
    eapply (consistent_heap_eq w _ _ (catch_heap _ _ _ _)); [done|apply catch_activeDownloads|].
    by eapply consistent_update.
  - destruct (timers w !! i) as [t|]; [|done]. cbn in H.
    destruct (due_of t <=? clock w)%Z; [|done].
    destruct t; simplify_eq.
    + apply consistent_evict.
      eapply consistent_same_heap; [| |exact Hw]; reflexivity.
    + apply checkStatus_same in H as (_ & Hh & Ha & _).
      eapply consistent_same_heap; [| |exact Hw]; by rewrite ?Hh, ?Ha.
  - destruct (0 <=? dt)%Z; simplify_eq.
    eapply consistent_same_heap; [| |exact Hw]; reflexivity.
Qed.

Lemma run_consistent evs : ∀ w w', run w evs = Some w' → consistent w → consistent w'.
Proof.
  induction evs as [|ev evs IH]; intros w w' H Hw; cbn in H; [by simplify_eq|].
  destruct (step w ev) as [w1|] eqn:Hstep; [|done]. cbn in H.
  eapply IH; [done|]. by eapply step_consistent.
Qed.

Lemma reachable_consistent evs w : run initial evs = Some w → consistent w.
Proof. intros H. eapply run_consistent; [done|apply consistent_initial]. Qed.

(** * Deduplication *)

(** While the record stored for an identity is in status ['downloading'], a
    call of [downloadModel] joins: it starts no fetch and creates no record, it
    appends its callback to the list of the identity and arms the first poll
    of its waiting loop. *)
Lemma downloadModel_joins id task cb w r a :
  activeDownloads w !! id = Some r → heap w !! r = Some a →
  status (progressData a) = StDownloading →
  ∃ w', downloadModel id task cb w = Some w' ∧
        pipelineCalls w' = pipelineCalls w ∧ heap w' = heap w ∧
        activeDownloads w' = activeDownloads w ∧
        promises w' = promises w ++ [Unsettled] ∧
        timers w' = timers w ++ [Poll (clock w + 100) id (length (promises w))].
Proof.
  intros Hr Ha Hs. unfold downloadModel, joins. rewrite Hr. cbn. rewrite Ha. cbn.
  rewrite Hs. unfold waitForDownload.
  erewrite checkStatus_present; [|by destruct cb|by destruct cb].
  rewrite Hs. eexists; split; [done|]. by destruct cb.
Qed.

(** C1, at a failing input.  After [stale_eviction] the fetch of the second
    call is in flight and in status ['downloading'], but the timer of the first
    download has removed its record from [activeDownloads]; a call issued now
    does not join it: [pipeline] is invoked again, and two fetches for the
    identity are in flight. *)
Theorem dedup_broken_by_stale_eviction :
  ∃ w w',
    run initial stale_eviction = Some w ∧
    length (in_flight "m" w) = 1 ∧
    isDownloading "m" w = false ∧
    step w (Call "m" "text-generation" (Some (quiet 2))) = Some w' ∧
    pipelineCalls w' = pipelineCalls w ++ [("text-generation", "m")] ∧
    length (in_flight "m" w') = 2.
Proof. do 2 eexists. split; [by vm_compute|]. by vm_compute. Qed.

(** * Calls that start a download *)

Lemma downloadModel_starts id task cb w :
  joins id w = Some false →
  downloadModel id task cb w = Some (startDownload id task cb (length (promises w))
    (set_promises (promises w ++ [Unsettled]) w)).
Proof. intros H. unfold downloadModel. by rewrite H. Qed.

Lemma startDownload_getProgress id task cb p w :
  getProgress id (startDownload id task cb p w) = Some (fresh id).
Proof.
  unfold getProgress, startDownload. destruct cb; cbn.
  all: rewrite lookup_insert_eq; cbn.
  all: by rewrite list_lookup_middle.
Qed.

(** * Waiting *)

(** C10.  A poll of the waiting loop that finds no entry for the identity in
    [activeDownloads] rejects the promise of the joiner with an [Error] whose
    message is ['Download cancelled'] and ends the loop.  This holds for the
    check that [waitForDownload] runs at once and for every later poll from a
    timer, whatever made the entry absent; no record is read or changed, so
    the rejection owes nothing to a failure of a fetch. *)
Theorem absent_entry_rejects_with_cancelled w id p :
  activeDownloads w !! id = None →
  promises w !! p = Some Unsettled →
  (∃ w', waitForDownload id p w = Some w' ∧
         promises w' !! p = Some (Rejected (JsError "Download cancelled")) ∧
         timers w' = timers w ∧ heap w' = heap w) ∧
  (∀ i due, timers w !! i = Some (Poll due id p) → (due <= clock w)%Z →
     ∃ w', step w (Fires i) = Some w' ∧
           promises w' !! p = Some (Rejected (JsError "Download cancelled")) ∧
           timers w' = delete i (timers w) ∧ heap w' = heap w).
Proof.
  intros Hid Hp. split.
  - unfold waitForDownload. rewrite checkStatus_absent by done.
    eexists; split; [done|].
    by rewrite settle_unsettled, settle_timers, settle_heap.
  - intros i due Hi Hdue. cbn. rewrite Hi. cbn.
    apply Z.leb_le in Hdue. rewrite Hdue.
    rewrite checkStatus_absent by done.
    eexists; split; [done|].
    by rewrite settle_unsettled, settle_timers, settle_heap.
Qed.

Lemma absent_entry_rejects_with_cancelled_witness :
  ∃ w, run initial evicted_under_joiner = Some w ∧
       activeDownloads w !! "m" = None ∧
       promises w !! 2 = Some Unsettled ∧
       timers w !! 0 = Some (Poll 5060 "m" 2) ∧
       Forall (fun a => status (progressData a) ≠ StError) (heap w) ∧
       ∃ w', step w (Fires 0) = Some w' ∧
             promises w' !! 2 = Some (Rejected (JsError "Download cancelled")) ∧
             timers w' = delete 0 (timers w) ∧ heap w' = heap w.
Proof.
  eexists. split; [by vm_compute|].
  split; [by vm_compute|]. split; [by vm_compute|]. split; [by vm_compute|].
  split; [vm_compute; by repeat constructor|].
  eapply (absent_entry_rejects_with_cancelled _ "m" 2); by vm_compute.
Defined.

Lemma catch_quiet r a e w :
  let d := error_record e (progressData a) in
  Forall (fun cb => cb_body cb d = None) (subscribers (modelId d) w) →
  catch r a e w =
    settle (caller a) (Rejected e)
      (finally (modelId d)
         (set_delivered (delivered w ++ map (fun cb => (cb_id cb, d)) (subscribers (modelId d) w))
            (set_heap (<[r := with_data d a]> (heap w)) w))).
Proof.
  intros d Hq. unfold catch. rewrite notifyProgress_result.
  fold (error_record e (progressData a)). fold d.
  change (callbacks (set_heap _ w)) with (callbacks w).
  fold (subscribers (modelId d) w). by rewrite forEach_quiet.
Qed.

Lemma onResolved_quiet r a model w :
  let d := completed_record (progressData a) in
  Forall (fun cb => cb_body cb d = None) (subscribers (modelId d) w) →
  onResolved r a model w =
    settle (caller a) (Resolved model)
      (finally (modelId d)
         (set_delivered (delivered w ++ map (fun cb => (cb_id cb, d)) (subscribers (modelId d) w))
            (set_heap (<[r := settled (with_data d a)]> (heap w)) w))).
Proof.
  intros d Hq. unfold onResolved. rewrite notifyProgress_result.
  fold (completed_record (progressData a)). fold d.
  change (callbacks (set_heap _ w)) with (callbacks w).
  fold (subscribers (modelId d) w). by rewrite forEach_quiet.
Qed.

(** The poll of a joiner that finds a terminal record. *)
Lemma poll_terminal w i due id p r a :
  timers w !! i = Some (Poll due id p) → (due <= clock w)%Z →
  activeDownloads w !! id = Some r → heap w !! r = Some a →
  terminal (status (progressData a)) = true →
  promises w !! p = Some Unsettled →
  ∃ w', step w (Fires i) = Some w' ∧
        timers w' = delete i (timers w) ∧
        (∀ q, q ≠ p → promises w' !! q = promises w !! q) ∧
        promises w' !! p = Some
          match status (progressData a) with
          | StError => Rejected (JsError (error_or_default (error (progressData a))))
          | _ => Resolved JsNull
          end.
Proof.
  intros Hi Hdue Hr Ha Ht Hp. cbn. rewrite Hi. cbn.
  apply Z.leb_le in Hdue. rewrite Hdue.
  erewrite checkStatus_present by done.
  destruct (status (progressData a)); try done.
  all: eexists; split; [done|].
  all: rewrite settle_timers, settle_unsettled by done.
  all: split; [done|]; split; [|done].
  all: intros q Hq; by rewrite settle_other.
Qed.

(** The poll of a joiner that finds the record in status ['downloading']. *)
Lemma poll_downloading w i due id p r a :
  timers w !! i = Some (Poll due id p) → (due <= clock w)%Z →
  activeDownloads w !! id = Some r → heap w !! r = Some a →
  status (progressData a) = StDownloading →
  ∃ w', step w (Fires i) = Some w' ∧
        promises w' = promises w ∧
        timers w' = delete i (timers w) ++ [Poll (clock w + 100) id p].
Proof.
  intros Hi Hdue Hr Ha Hs. cbn. rewrite Hi. cbn.
  apply Z.leb_le in Hdue. rewrite Hdue.
  erewrite checkStatus_present by done. rewrite Hs. by eexists.
Qed.

(** The state after the continuation of a fetch, when no subscriber throws on
    the record it is handed. *)
Lemma Settles_quiet w r a model :
  running r w = Some a →
  let id := modelId (progressData a) in
  let d := completed_record (progressData a) in
  Forall (fun cb => cb_body cb d = None) (subscribers id w) →
  promises w !! caller a = Some Unsettled →
  ∃ w', step w (Settles r model) = Some w' ∧
        clock w' = clock w ∧
        heap w' = <[r := settled (with_data d a)]> (heap w) ∧
        activeDownloads w' = activeDownloads w ∧
        callbacks w' = callbacks w ∧
        timers w' = timers w ++ [Evict (clock w + 5000) id] ∧
        promises w' = <[caller a := Resolved model]> (promises w) ∧
        pipelineCalls w' = pipelineCalls w ∧
        delivered w' = delivered w ++ map (fun cb => (cb_id cb, d)) (subscribers id w).
Proof.
  intros Hrun id d Hq Hp. cbn. rewrite Hrun. cbn.
  rewrite onResolved_quiet by done. eexists; split; [done|].
  unfold settle. cbn. by rewrite Hp.
Qed.

Lemma Fails_quiet w r a e :
  running r w = Some a →
  let id := modelId (progressData a) in
  let d := error_record e (progressData a) in
  Forall (fun cb => cb_body cb d = None) (subscribers id w) →
  promises w !! caller a = Some Unsettled →
  ∃ w', step w (Fails r e) = Some w' ∧
        clock w' = clock w ∧
        heap w' = <[r := settled (with_data d a)]> (heap w) ∧
        activeDownloads w' = activeDownloads w ∧
        callbacks w' = callbacks w ∧
        timers w' = timers w ++ [Evict (clock w + 5000) id] ∧
        promises w' = <[caller a := Rejected e]> (promises w) ∧
        pipelineCalls w' = pipelineCalls w ∧
        delivered w' = delivered w ++ map (fun cb => (cb_id cb, d)) (subscribers id w).
Proof.
  intros Hrun id d Hq Hp. cbn. rewrite Hrun. cbn.
  unfold onRejected. rewrite catch_quiet by done. eexists; split; [done|].
  unfold settle. cbn. by rewrite Hp.
Qed.

(** A joiner [p] of the download [r] of an identity, around the end of the
    fetch: its poll timer is pending, the record of the identity is the one
    of [r] and is in status ['downloading'], and no subscriber throws.  A poll
    that comes before the fetch is over leaves the promise unsettled and arms
    the next poll, 100 ms later.  After the fetch has resolved with [model] the
    promise of the original requester is resolved with [model], and the next
    poll of the joiner resolves its promise with [null], not with [model];
    after the fetch has rejected with [e] the original requester is rejected
    with [e] and the next poll rejects the joiner with a new [Error] that
    carries the recorded message.  The joiner's promise then keeps its outcome
    whatever happens next. *)
Lemma poll_around_settlement w r a i due p :
  running r w = Some a →
  let id := modelId (progressData a) in
  activeDownloads w !! id = Some r →
  status (progressData a) = StDownloading →
  Forall (fun cb => ∀ d, cb_body cb d = None) (subscribers id w) →
  promises w !! caller a = Some Unsettled →
  timers w !! i = Some (Poll due id p) → (due <= clock w)%Z →
  promises w !! p = Some Unsettled → p ≠ caller a →
  (∃ w0, step w (Fires i) = Some w0 ∧ promises w0 !! p = Some Unsettled ∧
         timers w0 = delete i (timers w) ++ [Poll (clock w + 100) id p]) ∧
  (∀ model, ∃ w1 w2,
     step w (Settles r model) = Some w1 ∧
     promises w1 !! caller a = Some (Resolved model) ∧
     step w1 (Fires i) = Some w2 ∧
     promises w2 !! caller a = Some (Resolved model) ∧
     promises w2 !! p = Some (Resolved JsNull) ∧
     ∀ evs w3, run w2 evs = Some w3 → promises w3 !! p = Some (Resolved JsNull)) ∧
  (∀ e, ∃ w1 w2,
     let o := Rejected (JsError (error_or_default (Some (message_of e)))) in
     step w (Fails r e) = Some w1 ∧
     promises w1 !! caller a = Some (Rejected e) ∧
     step w1 (Fires i) = Some w2 ∧
     promises w2 !! caller a = Some (Rejected e) ∧
     promises w2 !! p = Some o ∧
     ∀ evs w3, run w2 evs = Some w3 → promises w3 !! p = Some o).
Proof.
  intros Hrun id Hid Hs Hq Hc Hi Hdue Hp Hne.
  destruct (running_Some _ _ _ Hrun) as [Hr _].
  assert (r < length (heap w)) as Hlt by by eapply lookup_lt_Some.
  assert (caller a < length (promises w)) as Hclt by by eapply lookup_lt_Some.
  split; [|split].
  - destruct (poll_downloading w i due id p r a) as (w0 & H0 & Hp0 & Ht0); try done.
    exists w0. by rewrite Hp0.
  - intros model.
    destruct (Settles_quiet w r a model Hrun) as (w1 & H1 & Hck & Hh & Ha & _ & Ht & Hps & _);
      [by eapply Forall_impl|done|].
    destruct (poll_terminal w1 i due id p r
                (settled (with_data (completed_record (progressData a)) a)))
      as (w2 & H2 & _ & Hoth & Hp2).
    { rewrite Ht. by apply lookup_app_l_Some. }
    { by rewrite Hck. }
    { by rewrite Ha. }
    { rewrite Hh. by apply list_lookup_insert_eq. }
    { done. }
    { rewrite Hps. by rewrite list_lookup_insert_ne. }
    exists w1, w2. split; [done|].
    assert (promises w1 !! caller a = Some (Resolved model)) as Hc1.
    { rewrite Hps. by apply list_lookup_insert_eq. }
    split; [done|]. split; [done|]. split; [by rewrite Hoth|].
    split; [done|]. intros evs w3 H3. by eapply run_keeps.
  - intros e.
    destruct (Fails_quiet w r a e Hrun) as (w1 & H1 & Hck & Hh & Ha & _ & Ht & Hps & _);
      [by eapply Forall_impl|done|].
    destruct (poll_terminal w1 i due id p r
                (settled (with_data (error_record e (progressData a)) a)))
      as (w2 & H2 & _ & Hoth & Hp2).
    { rewrite Ht. by apply lookup_app_l_Some. }
    { by rewrite Hck. }
    { by rewrite Ha. }
    { rewrite Hh. by apply list_lookup_insert_eq. }
    { done. }
    { rewrite Hps. by rewrite list_lookup_insert_ne. }
    exists w1, w2. cbn zeta. split; [done|].
    assert (promises w1 !! caller a = Some (Rejected e)) as Hc1.
    { rewrite Hps. by apply list_lookup_insert_eq. }
    split; [done|]. split; [done|]. split; [by rewrite Hoth|].
    split; [done|]. intros evs w3 H3. by eapply run_keeps.
Qed.

(** C2, as stated, fails: the fetch resolves with the model [JsModel 7], the
    original requester is handed it, and the joiner is handed [null]. *)
Lemma joiner_resolves_with_null :
  ∃ w, run initial (joined ++ [Settles 0 (JsModel 7); Fires 0]) = Some w ∧
       promises w !! 0 = Some (Resolved (JsModel 7)) ∧
       promises w !! 1 = Some (Resolved JsNull) ∧
       promises w !! 1 ≠ promises w !! 0.
Proof. eexists. split; [by vm_compute|]. by vm_compute. Qed.

(** * Failure of the fetch *)




(** * The status of a record *)

Lemma terminal_forward s s' :
  s = StDownloading → terminal s' = true → forward s s'.
Proof. intros -> H. right. split; [done|]. destruct s'; auto; done. Qed.

Lemma step_effect w ev w' : consistent w → step w ev = Some w' → effect w ev w'.
Proof.
  intros Hw.
  destruct ev as [id task cb|r raw|r model|r e|i|dt]; cbn; intros H.
  - unfold downloadModel in H.
    destruct (joins id w) as [[]|]; cbn in H; [| |done].
    + apply checkStatus_same in H as (_ & Hh & Ha & _).
      apply effect_none; [|left]; rewrite ?Hh, ?Ha; by destruct cb.
    + simplify_eq. eapply effect_create; [done| |]; by destruct cb.
  - destruct (running r w) as [a|] eqn:Hr; [|done]. cbn in H.
    apply running_Some in Hr as [Hr Haw].
    destruct (progressTracker _ _ _) as [a'|] eqn:Ht; simplify_eq.
    + apply progressTracker_keeps in Ht as (Hs & _).
      rewrite notifyProgress_result. cbn.
      eapply (effect_update _ _ _ r a a'); try done. by left.
    + apply effect_none; auto.
  - destruct (running r w) as [a|] eqn:Hr; [|done]. simplify_eq/=.
    apply running_Some in Hr as [Hr Haw].
    pose proof (cons_status _ Hw _ _ Hr) as Hs. rewrite Haw in Hs.
    destruct (onResolved_heap r a model w) as (d & Hh & Hd & Hid).
    eapply effect_update; [done|exact Hh|apply onResolved_activeDownloads|].
    by apply terminal_forward.
  - destruct (running r w) as [a|] eqn:Hr; [|done]. simplify_eq/=.
    apply running_Some in Hr as [Hr Haw].
    pose proof (cons_status _ Hw _ _ Hr) as Hs. rewrite Haw in Hs.
    eapply effect_update; [done|apply catch_heap|apply catch_activeDownloads|].
    by apply terminal_forward.
  - destruct (timers w !! i) as [t|]; [|done]. cbn in H.
    destruct (due_of t <=? clock w)%Z; [|done].
    destruct t; simplify_eq.
    + apply effect_none; [done|]. right. by eexists.
    + apply checkStatus_same in H as (_ & Hh & Ha & _).
      apply effect_none; [|left]; by rewrite ?Hh, ?Ha.
  - destruct (0 <=? dt)%Z; simplify_eq. apply effect_none; auto.
Qed.

Lemma consistent_not_pending w r a :
  consistent w → heap w !! r = Some a → status (progressData a) ≠ StPending.
Proof.
  intros Hw Hr. pose proof (cons_status _ Hw _ _ Hr) as Hs.
  destruct (awaiting a); [by rewrite Hs|]. by destruct (status (progressData a)).
Qed.

(** The record and the notifications that the continuation of a resolved
    fetch leaves. *)
Lemma onResolved_record r a model w :
  r < length (heap w) →
  let id := modelId (progressData a) in
  let d := completed_record (progressData a) in
  match snd (forEach (subscribers id w) d) with
  | None =>
      (progressData <$> heap (onResolved r a model w) !! r) = Some d ∧
      delivered (onResolved r a model w) = delivered w ++ fst (forEach (subscribers id w) d)
  | Some v =>
      (progressData <$> heap (onResolved r a model w) !! r) = Some (error_record v d) ∧
      delivered (onResolved r a model w) =
        delivered w ++ fst (forEach (subscribers id w) d) ++
                       fst (forEach (subscribers id w) (error_record v d))
  end.
Proof.
  intros Hlt id d. unfold onResolved. rewrite notifyProgress_result.
  change (default [] (callbacks (set_heap _ w) !! _)) with (subscribers id w).
  fold (completed_record (progressData a)). fold d.
  destruct (snd (forEach (subscribers id w) d)) as [v|].
  - unfold catch. rewrite notifyProgress_result.
    rewrite settle_heap, settle_delivered. cbn.
    rewrite list_insert_insert_eq, list_lookup_insert_eq by done.
    split; [done|]. by rewrite <- app_assoc.
  - rewrite settle_heap, settle_delivered. cbn.
    by rewrite list_lookup_insert_eq.
Qed.

(** What the subscribers are handed. *)
Lemma forEach_log cbs d : Forall (fun x => snd x = d) (fst (forEach cbs d)).
Proof.
  induction cbs as [|cb rest IH]; cbn; [constructor|].
  destruct (cb_body cb d); cbn; [by repeat constructor|].
  destruct (forEach rest d) as [l o]. cbn in *. by constructor.
Qed.

Lemma forEach_log_status cbs d :
  status d ≠ StPending →
  Forall (fun x => status (snd x) ≠ StPending) (fst (forEach cbs d)).
Proof.
  intros Hd. eapply Forall_impl; [apply forEach_log|]. by intros x ->.
Qed.

Lemma step_delivered w ev w' :
  consistent w → step w ev = Some w' →
  ∃ l, delivered w' = delivered w ++ l ∧
       Forall (fun x => status (snd x) ≠ StPending) l.
Proof.
  intros Hc.
  assert (∃ l, delivered w = delivered w ++ l ∧
               Forall (fun x => status (snd x) ≠ StPending) l) as Hnil
    by (exists []; by rewrite app_nil_r).
  destruct ev as [id task cb|r raw|r model|r e|i|dt]; cbn; intros H.
  - unfold downloadModel in H.
    destruct (joins id w) as [[]|]; cbn in H; [| |done].
    + apply checkStatus_same in H as (_ & _ & _ & _ & _ & ->). by destruct cb.
    + injection H as <-. by destruct cb.
  - destruct (running r w) as [a|] eqn:Hr; [|done]. cbn in H.
    apply running_Some in Hr as [Hr Haw].
    destruct (progressTracker _ _ _) as [a'|] eqn:Ht; injection H as <-; [|done].
    apply progressTracker_keeps in Ht as (Hs & _).
    rewrite notifyProgress_result. cbn. eexists. split; [done|].
    apply forEach_log_status. rewrite Hs.
    pose proof (cons_status _ Hc _ _ Hr) as Hst. rewrite Haw in Hst. by rewrite Hst.
  - destruct (running r w) as [a|] eqn:Hr; [|done]. injection H as <-.
    apply running_Some in Hr as [Hr _].
    pose proof (onResolved_record r a model w ltac:(by eapply lookup_lt_Some)) as Hrec.
    cbn zeta in Hrec.
    destruct (snd (forEach _ _)) as [v|]; destruct Hrec as [_ ->].
    + eexists. split; [done|]. apply Forall_app. split; by apply forEach_log_status.
    + eexists. split; [done|]. by apply forEach_log_status.
  - destruct (running r w) as [a|] eqn:Hr; [|done]. injection H as <-.
    unfold onRejected, catch. rewrite notifyProgress_result, settle_delivered. cbn.
    eexists. split; [done|]. by apply forEach_log_status.
  - destruct (timers w !! i) as [t|]; [|done]. cbn in H.
    destruct (due_of t <=? clock w)%Z; [|done].
    destruct t; [by injection H as <-|].
    by apply checkStatus_same in H as (_ & _ & _ & _ & _ & ->).
  - destruct (0 <=? dt)%Z; [|done]. by injection H as <-.
Qed.

Lemma run_delivered evs : ∀ w w',
  run w evs = Some w' → consistent w →
  Forall (fun x => status (snd x) ≠ StPending) (delivered w) →
  Forall (fun x => status (snd x) ≠ StPending) (delivered w').
Proof.
  induction evs as [|ev evs IH]; intros w w' H Hc Hd; cbn in H.
  - by injection H as <-.
  - destruct (step w ev) as [w1|] eqn:Hstep; [|done]. cbn in H.
    eapply IH; [exact H|by eapply step_consistent|].
    destruct (step_delivered _ _ _ Hc Hstep) as (l & -> & Hl).
    apply Forall_app. by split.
Qed.

(** C4, as the code has it.  In every state the manager reaches, one step of
    the event loop (a) creates a record only in status ['downloading'], never
    in ['pending'], and only in a call of [downloadModel], which stores it
    under its identity; (b) leaves the status of every record as it is or
    moves it from ['downloading'] to ['completed'] or ['error'], and no
    record is ever in status ['pending']; (c) changes the status that
    [getProgress] shows for an identity away from a terminal one only by a
    call of [downloadModel] for that identity, which replaces the record by a
    fresh one in status ['downloading'] (eviction makes the identity absent
    instead); (d) when it is the continuation of a resolved fetch, sets the
    record to ['completed'] and notifies the subscribers, and if one of them
    throws sets the same record to ['error'] and notifies again before the
    step ends; (e) hands no subscriber a record in status ['pending']. *)
Theorem status_moves_forward evs w ev w' :
  run initial evs = Some w → step w ev = Some w' →
  (∀ r a', heap w !! r = None → heap w' !! r = Some a' →
     status (progressData a') = StDownloading ∧
     ∃ task cb, ev = Call (modelId (progressData a')) task cb ∧
                getProgress (modelId (progressData a')) w' = Some (progressData a')) ∧
  (∀ r a, heap w !! r = Some a →
     status (progressData a) ≠ StPending ∧
     ∃ a', heap w' !! r = Some a' ∧
           forward (status (progressData a)) (status (progressData a'))) ∧
  (∀ id d d', getProgress id w = Some d → getProgress id w' = Some d' →
     terminal (status d) = true → status d' ≠ status d →
     d' = fresh id ∧ ∃ task cb, ev = Call id task cb) ∧
  (∀ r model a, ev = Settles r model → heap w !! r = Some a →
     let id := modelId (progressData a) in
     let d := completed_record (progressData a) in
     match snd (forEach (subscribers id w) d) with
     | None =>
         (progressData <$> heap w' !! r) = Some d ∧
         delivered w' = delivered w ++ fst (forEach (subscribers id w) d)
     | Some v =>
         (progressData <$> heap w' !! r) = Some (error_record v d) ∧
         delivered w' =
           delivered w ++ fst (forEach (subscribers id w) d) ++
                          fst (forEach (subscribers id w) (error_record v d))
     end) ∧
  Forall (fun x => status (snd x) ≠ StPending) (delivered w').
Proof.
  intros Hrun Hstep. pose proof (reachable_consistent _ _ Hrun) as Hw.
  assert (Forall (fun x => status (snd x) ≠ StPending) (delivered w')) as He.
  { eapply (run_delivered [ev] w); [by cbn; rewrite Hstep|done|].
    eapply run_delivered; [exact Hrun|apply consistent_initial|constructor]. }
  assert (∀ r model a, ev = Settles r model → heap w !! r = Some a →
     let id := modelId (progressData a) in
     let d := completed_record (progressData a) in
     match snd (forEach (subscribers id w) d) with
     | None =>
         (progressData <$> heap w' !! r) = Some d ∧
         delivered w' = delivered w ++ fst (forEach (subscribers id w) d)
     | Some v =>
         (progressData <$> heap w' !! r) = Some (error_record v d) ∧
         delivered w' =
           delivered w ++ fst (forEach (subscribers id w) d) ++
                          fst (forEach (subscribers id w) (error_record v d))
     end) as Hd.
  { intros r model a -> Hr. cbn in Hstep.
    destruct (running r w) as [a0|] eqn:Hr0; [|done]. injection Hstep as <-.
    apply running_Some in Hr0 as [Hr0 _]. rewrite Hr in Hr0. injection Hr0 as <-.
    apply onResolved_record. by eapply lookup_lt_Some. }
  destruct (step_effect _ _ _ Hw Hstep)
    as [Hh Ha|r0 a0 a0' Hr0 Hh Ha Hf|id0 task cb p -> Hh Ha].
  - split; [|split; [|split; [|by split]]].
    + intros r a' Hn Hs. rewrite Hh in Hs. congruence.
    + intros r a Hr. split; [by eapply consistent_not_pending|].
      exists a. rewrite Hh. split; [done|by left].
    + intros id d d' Hd0 Hd' _ Hne. exfalso. apply Hne.
      unfold getProgress in *. rewrite Hh in Hd'.
      destruct Ha as [Ha|[id1 Ha]]; rewrite Ha in Hd'; [congruence|].
      destruct (decide (id1 = id)) as [->|Hid].
      * by rewrite lookup_delete_eq in Hd'.
      * rewrite lookup_delete_ne in Hd' by done. congruence.
  - assert (r0 < length (heap w)) as Hlt by by eapply lookup_lt_Some.
    split; [|split; [|split; [|by split]]].
    + intros r a' Hn Hs'. rewrite Hh in Hs'.
      destruct (decide (r = r0)) as [->|Hne]; [congruence|].
      rewrite list_lookup_insert_ne in Hs' by done. congruence.
    + intros r a Hr. split; [by eapply consistent_not_pending|].
      rewrite Hh. destruct (decide (r = r0)) as [->|Hne].
      * exists a0'. rewrite list_lookup_insert_eq by done. by simplify_eq.
      * exists a. rewrite list_lookup_insert_ne by done. split; [done|by left].
    + intros id d d' Hd0 Hd' Ht Hne. exfalso. apply Hne.
      unfold getProgress in *. rewrite Ha, Hh in Hd'.
      destruct (activeDownloads w !! id) as [r|]; [|done]. cbn in *.
      destruct (decide (r = r0)) as [->|Hr].
      * rewrite list_lookup_insert_eq in Hd' by done. rewrite Hr0 in Hd0.
        cbn in *. simplify_eq. destruct Hf as [Hf|[Hf _]]; [done|].
        by rewrite Hf in Ht.
      * rewrite list_lookup_insert_ne in Hd' by done. congruence.
  - split; [|split; [|split; [|by split]]].
    + intros r a' Hn Hs'. rewrite Hh in Hs'.
      apply lookup_ge_None in Hn.
      apply lookup_app_Some in Hs' as [Hs'|[_ Hs']].
      { apply lookup_lt_Some in Hs'. lia. }
      apply list_lookup_singleton_Some in Hs' as [Hr <-]. cbn.
      split; [done|]. exists task, cb. split; [done|].
      unfold getProgress. rewrite Ha, Hh, lookup_insert_eq. cbn.
      by rewrite list_lookup_middle.
    + intros r a Hr. split; [by eapply consistent_not_pending|].
      exists a. rewrite Hh. split; [by apply lookup_app_l_Some|by left].
    + intros id d d' Hd0 Hd' _ Hne.
      unfold getProgress in *. rewrite Ha, Hh in Hd'.
      destruct (decide (id0 = id)) as [->|Hid].
      * rewrite lookup_insert_eq in Hd'. cbn in Hd'.
        rewrite list_lookup_middle in Hd' by done. cbn in Hd'. simplify_eq.
        split; [done|]. by exists task, cb.
      * exfalso. apply Hne. rewrite lookup_insert_ne in Hd' by done.
        destruct (activeDownloads w !! id) as [r|]; [|done]. cbn in *.
        destruct (heap w !! r) as [a|] eqn:Hr; [|done].
        rewrite (lookup_app_l_Some _ _ _ _ Hr) in Hd'. congruence.
Qed.

Lemma status_moves_forward_witness :
  ∃ w w', run initial joined = Some w ∧
          step w (Settles 0 (JsModel 7)) = Some w' ∧
          ∀ r a, heap w !! r = Some a →
            status (progressData a) ≠ StPending ∧
            ∃ a', heap w' !! r = Some a' ∧
                  forward (status (progressData a)) (status (progressData a')).
Proof.
  do 2 eexists.
  match goal with
  | |- run initial ?evs = Some ?w ∧ step _ ?ev = Some ?w' ∧ _ =>
      assert (run initial evs = Some w) as Hrun by (by vm_compute);
      assert (step w ev = Some w') as Hstep by (by vm_compute)
  end.
  split; [exact Hrun|]. split; [exact Hstep|].
  exact (proj1 (proj2 (status_moves_forward _ _ _ _ Hrun Hstep))).
Defined.

(** C4, as stated, fails, in two ways.  In the grace window of a completed
    download the status shown for ["m"] is ['completed'] and the eviction
    timer has not fired; a request then moves it to ['downloading'], out of
    the terminal status and not after eviction: the timer is still pending.
    And when the first subscriber of ["m"] throws on the notification of
    completion, the one record of the download is handed to it in status
    ['completed'] and then in status ['error'], in which it ends. *)
Lemma terminal_status_left :
  (∃ w w', run initial grace_window = Some w ∧
           step w (Call "m" "text-generation" (Some (quiet 1))) = Some w' ∧
           (status <$> getProgress "m" w) = Some StCompleted ∧
           (status <$> getProgress "m" w') = Some StDownloading ∧
           timers w = [Evict 5000 "m"] ∧ timers w' = [Evict 5000 "m"] ∧
           clock w' = 1000%Z) ∧
  (∃ w w', run initial faulty_first = Some w ∧
           step w (Settles 0 (JsModel 7)) = Some w' ∧
           length (heap w') = 1 ∧
           map (fun x => (fst x, status (snd x))) (delivered w') =
             [(0, StCompleted); (0, StError)] ∧
           (status <$> getProgress "m" w') = Some StError).
Proof.
  split.
  - do 2 eexists. split; [by vm_compute|]. split; [by vm_compute|]. by vm_compute.
  - do 2 eexists. split; [by vm_compute|]. split; [by vm_compute|]. by vm_compute.
Qed.

(** * The progress tracker *)

(** [feed] is what the steps of the event loop do with the samples. *)
Lemma Sample_step w r a raw :
  running r w = Some a →
  ∃ w', step w (Sample r raw) = Some w' ∧
        heap w' !! r = Some (default a (progressTracker (clock w) a raw)).
Proof.
  intros Hrun. cbn. rewrite Hrun. cbn.
  apply running_Some in Hrun as [Hr _].
  destruct (progressTracker _ _ _) as [a'|]; cbn; [|by eexists].
  eexists; split; [done|]. rewrite notifyProgress_result. cbn.
  apply list_lookup_insert_eq. by eapply lookup_lt_Some.
Qed.

Lemma progressTracker_Some now a raw :
  accepted raw = true →
  ∃ a', progressTracker now a raw = Some a' ∧
        loaded (progressData a') = raw_loaded raw ∧
        total (progressData a') = raw_total raw ∧
        progress (progressData a') = js_mul (js_div (raw_loaded raw) (raw_total raw)) 100 ∧
        lastLoaded a' = raw_loaded raw ∧ lastTime a' = now.
Proof.
  intros H. unfold progressTracker. unfold accepted in H. rewrite H. by eexists.
Qed.

Lemma progressTracker_None now a raw :
  accepted raw = false → progressTracker now a raw = None.
Proof. intros H. unfold progressTracker. unfold accepted in H. by rewrite H. Qed.

Lemma feed_loaded samples : ∀ a,
  map loaded (feed a samples) = map raw_loaded (List.filter accepted (map snd samples)).
Proof.
  induction samples as [|[now raw] rest IH]; intros a; [done|].
  cbn [feed map snd List.filter].
  destruct (accepted raw) eqn:Hacc.
  - destruct (progressTracker_Some now a raw Hacc) as (a' & -> & Hl & _).
    cbn. by rewrite Hl, IH.
  - rewrite progressTracker_None by done. apply IH.
Qed.

Lemma feed_progress samples : ∀ a,
  map progress (feed a samples) =
    map (fun raw => js_mul (js_div (raw_loaded raw) (raw_total raw)) 100)
        (List.filter accepted (map snd samples)).
Proof.
  induction samples as [|[now raw] rest IH]; intros a; [done|].
  cbn [feed map snd List.filter].
  destruct (accepted raw) eqn:Hacc.
  - destruct (progressTracker_Some now a raw Hacc) as (a' & -> & _ & _ & Hp & _).
    cbn. by rewrite Hp, IH.
  - rewrite progressTracker_None by done. apply IH.
Qed.

Lemma percentage_le c x1 t1 x2 t2 :
  (0 < c)%Q → (t1 == c)%Q → (t2 == c)%Q → (x1 <= x2)%Q →
  JsNumber_le (js_mul (js_div x1 t1) 100) (js_mul (js_div x2 t2) 100).
Proof.
  intros Hc H1 H2 Hx. unfold js_div.
  assert (Qeq_bool t1 0 = false) as ->.
  { apply not_true_is_false. intros E%Qeq_bool_eq. rewrite H1 in E.
    rewrite E in Hc. by apply Qlt_irrefl in Hc. }
  assert (Qeq_bool t2 0 = false) as ->.
  { apply not_true_is_false. intros E%Qeq_bool_eq. rewrite H2 in E.
    rewrite E in Hc. by apply Qlt_irrefl in Hc. }
  cbn. rewrite H1, H2. apply Qmult_le_compat_r; [|done].
  apply Qmult_le_compat_r; [done|]. apply Qinv_le_0_compat. by apply Qlt_le_weak.
Qed.

Lemma Sorted_map_transfer {A B C} (f : A → B) (g : A → C)
    (R : B → B → Prop) (R' : C → C → Prop) (P : A → Prop) l :
  (∀ x y, P x → P y → R (f x) (f y) → R' (g x) (g y)) →
  Forall P l → Sorted R (map f l) → Sorted R' (map g l).
Proof.
  intros HR HP. induction HP as [|x l Hx Hl IH]; cbn; [constructor|].
  intros Hs. apply Sorted_inv in Hs as [Hs Hhd]. constructor; [by apply IH|].
  destruct Hl as [|y l Hy Hl]; cbn in *; constructor.
  apply HdRel_inv in Hhd. by apply HR.
Qed.

(** C5, as the code has it.  The closure records the [loaded] of every sample
    it takes into account as it is.  So the recorded [loaded] is non-decreasing
    over the samples of one fetch when the [loaded] of the samples is, and then
    the recorded percentage is non-decreasing as well, as long as the samples
    carry one and the same positive [total]. *)
Theorem recorded_progress_follows_samples a samples c :
  let taken := List.filter accepted (map snd samples) in
  Sorted Qle (map raw_loaded taken) →
  map loaded (feed a samples) = map raw_loaded taken ∧
  Sorted Qle (map loaded (feed a samples)) ∧
  ((0 < c)%Q → Forall (fun raw => (raw_total raw == c)%Q) taken →
   Sorted JsNumber_le (map progress (feed a samples))).
Proof.
  intros taken Hs. split; [apply feed_loaded|]. split; [by rewrite feed_loaded|].
  intros Hc Ht. rewrite feed_progress. fold taken.
  eapply (Sorted_map_transfer raw_loaded _ Qle); [|exact Ht|exact Hs].
  intros x y Hx Hy Hxy. by eapply percentage_le.
Qed.

Lemma recorded_progress_follows_samples_witness :
  let samples := [(1000%Z, sample "model.onnx" 500 1000);
                  (2000%Z, sample "model.onnx" 1000 1000)] in
  map loaded (feed (started "m" 0) samples) = [500%Q; 1000%Q] ∧
  Sorted Qle (map loaded (feed (started "m" 0) samples)) ∧
  Sorted JsNumber_le (map progress (feed (started "m" 0) samples)).
Proof.
  intros samples.
  assert (Sorted Qle (map raw_loaded (List.filter accepted (map snd samples)))) as Hs.
  { cbn. repeat constructor. by vm_compute. }
  destruct (recorded_progress_follows_samples (started "m" 0) samples 1000 Hs)
    as (Hl & Hsl & Hp).
  split; [exact Hl|]. split; [exact Hsl|].
  apply Hp; [by vm_compute|]. cbn. by repeat constructor.
Defined.

(** C5, as stated, fails: the second sample lowers the recorded [loaded] from
    500 to 100 and, with [total] at 1000, the recorded percentage from 50 to
    10. *)
Lemma recorded_loaded_decreases :
  ∃ w1 w2 d1 d2,
    run initial two_files = Some w1 ∧
    step w1 (Sample 0 (sample "model.onnx" 100 1000)) = Some w2 ∧
    getProgress "m" w1 = Some d1 ∧ getProgress "m" w2 = Some d2 ∧
    (0 < total d1)%Q ∧ (0 < total d2)%Q ∧
    (loaded d2 < loaded d1)%Q ∧
    ¬ JsNumber_le (progress d1) (progress d2).
Proof.
  do 4 eexists. split; [by vm_compute|]. split; [by vm_compute|].
  split; [by vm_compute|]. split; [by vm_compute|].
  vm_compute. by repeat split.
Qed.

Lemma Qgtb_true x y : Qgtb x y = true → (y < x)%Q.
Proof.
  unfold Qgtb. intros H%negb_true_iff. apply Qnot_le_lt. intros Hle.
  apply Qle_bool_iff in Hle. congruence.
Qed.

(** C9, as the code has it.  The speed a sample yields is 0 when the clock has
    not advanced since the sample before, and it is not negative when the
    [loaded] of the sample is not below the one of the sample before. *)
Theorem speed_sign now a raw a' :
  progressTracker now a raw = Some a' →
  ((now <= lastTime a)%Z → speed (progressData a') = 0%Q) ∧
  ((lastLoaded a <= raw_loaded raw)%Q → (0 <= speed (progressData a'))%Q).
Proof.
  unfold progressTracker. case_match; [|done]. intros [= <-]. cbn. split.
  - intros Hnow. case_match eqn:Hgt; [|done].
    apply Qgtb_true in Hgt. exfalso. revert Hgt.
    unfold Qlt, Qdiv, Qmult, Qinv, inject_Z. cbn. lia.
  - intros Hl. case_match eqn:Hgt; [|done].
    apply Qgtb_true in Hgt. apply Qmult_le_0_compat.
    + by apply Qle_minus_iff in Hl.
    + apply Qinv_le_0_compat. by apply Qlt_le_weak.
Qed.

Lemma speed_sign_witness :
  ∃ a', progressTracker 1000 (started "m" 0) (sample "model.onnx" 500 1000) = Some a' ∧
        (0 <= speed (progressData a'))%Q ∧
        ∃ a'', progressTracker 1000 a' (sample "model.onnx" 700 1000) = Some a'' ∧
               speed (progressData a'') = 0%Q.
Proof.
  eexists.
  match goal with
  | |- ?t = Some ?a' ∧ _ => assert (t = Some a') as H1 by (by vm_compute)
  end.
  split; [exact H1|]. split.
  - apply (proj2 (speed_sign _ _ _ _ H1)). by vm_compute.
  - eexists.
    match goal with
    | |- ?t = Some ?a'' ∧ _ => assert (t = Some a'') as H2 by (by vm_compute)
    end.
    split; [exact H2|]. apply (proj1 (speed_sign _ _ _ _ H2)). by vm_compute.
Defined.

(** C9, as stated, fails: the sample for the second file comes a second
    after the first and its [loaded] is 400 bytes lower; the speed is -400. *)
Lemma speed_negative :
  ∃ w d, run initial (two_files ++ [Sample 0 (sample "model.onnx" 100 1000)]) = Some w ∧
         getProgress "m" w = Some d ∧
         (speed d == -400)%Q ∧ (speed d < 0)%Q.
Proof.
  do 2 eexists. split; [by vm_compute|]. split; [by vm_compute|]. by vm_compute.
Qed.

(** * Subscribers that throw *)

Lemma catch_timers r a e w :
  timers (catch r a e w) = timers w ++ [Evict (clock w + 5000) (modelId (progressData a))].
Proof. unfold catch. rewrite notifyProgress_result. by rewrite settle_timers. Qed.

Lemma onResolved_timers r a model w :
  timers (onResolved r a model w) =
    timers w ++ [Evict (clock w + 5000) (modelId (progressData a))].
Proof.
  unfold onResolved. rewrite notifyProgress_result.
  destruct (snd (forEach _ _)).
  - by rewrite catch_timers.
  - by rewrite settle_timers.
Qed.

(** C6, as the code has it.  [notifyProgress] runs the callbacks of the
    identity in registration order up to the first one that throws: that one
    ends the notification, the callbacks registered after it are not run, and
    its exception is handed to the code that notified.  Whatever the callbacks
    do, the continuation of a fetch still leaves the record of the download in
    a terminal status and still arms the eviction timer. *)
Theorem notification_ends_at_first_raise id d w pre cb post v :
  subscribers id w = pre ++ cb :: post →
  Forall (fun c => cb_body c d = None) pre →
  cb_body cb d = Some v →
  notifyProgress id d w =
    (set_delivered (delivered w ++ map (fun c => (cb_id c, d)) (pre ++ [cb])) w, Some v) ∧
  ∀ r a ev, running r w = Some a →
    (∃ model, ev = Settles r model) ∨ (∃ e, ev = Fails r e) →
    ∃ w' a', step w ev = Some w' ∧
      timers w' = timers w ++ [Evict (clock w + 5000) (modelId (progressData a))] ∧
      heap w' !! r = Some a' ∧
      terminal (status (progressData a')) = true ∧ awaiting a' = false.
Proof.
  intros Hsub Hpre Hcb. split.
  - rewrite notifyProgress_result. fold (subscribers id w). rewrite Hsub.
    by rewrite (forEach_raise pre cb post d v).
  - intros r a ev Hrun Hev.
    destruct (running_Some _ _ _ Hrun) as [Hr _].
    assert (r < length (heap w)) as Hlt by by eapply lookup_lt_Some.
    destruct Hev as [[model ->]|[e ->]]; cbn; rewrite Hrun; cbn.
    + destruct (onResolved_heap r a model w) as (d' & Hh & Hd' & _).
      do 2 eexists. split; [done|]. split; [apply onResolved_timers|].
      rewrite Hh. split; [by apply list_lookup_insert_eq|done].
    + do 2 eexists. split; [done|]. unfold onRejected.
      split; [exact (catch_timers r (settled a) e w)|]. rewrite catch_heap.
      split; [by apply list_lookup_insert_eq|done].
Qed.

Lemma notification_ends_at_first_raise_witness :
  ∃ w, run initial faulty_first = Some w ∧
       subscribers "m" w = [] ++ faulty 0 (JsError "render failed") :: [quiet 1] ∧
       notifyProgress "m" (fresh "m") w =
         (set_delivered (delivered w ++ [(0, fresh "m")]) w, Some (JsError "render failed")).
Proof.
  eexists. split; [by vm_compute|].
  match goal with
  | |- ?s = ?l ∧ _ => assert (s = l) as Hsub by (by vm_compute)
  end.
  split; [exact Hsub|].
  by apply (notification_ends_at_first_raise "m" (fresh "m") _ _ _ _
              (JsError "render failed") Hsub).
Defined.

(** C6, as stated, fails: the fetch resolves, the first subscriber throws on
    the notification of completion and again on the notification of the
    [catch] block, so the second subscriber is never run; the record ends in
    status ['error'] and the requester is rejected with the exception of the
    subscriber, though the fetch has succeeded. *)
Lemma raise_starves_later_subscribers :
  ∃ w, run initial (faulty_first ++ [Settles 0 (JsModel 7)]) = Some w ∧
       map fst (delivered w) = [0; 0] ∧
       map (fun x => status (snd x)) (delivered w) = [StCompleted; StError] ∧
       (status <$> getProgress "m" w) = Some StError ∧
       promises w !! 0 = Some (Rejected (JsError "render failed")) ∧
       timers w = [Poll 100 "m" 1; Evict 5000 "m"].
Proof. eexists. split; [by vm_compute|]. by vm_compute. Qed.

(** * Eviction *)

(** The timer of [finally] is due 5000 ms after the continuation of the fetch
    ran; it cannot fire before it is due; when it fires, the entries of the
    identity in [activeDownloads] and in [callbacks] are gone, so that
    [getProgress] finds nothing and the next request starts a fetch with a
    fresh record. *)
Lemma eviction_then_fresh_request w i due id :
  timers w !! i = Some (Evict due id) →
  (is_Some (step w (Fires i)) ↔ (due <= clock w)%Z) ∧
  ∀ w', step w (Fires i) = Some w' →
    getProgress id w' = None ∧ callbacks w' !! id = None ∧
    isDownloading id w' = false ∧
    ∀ task cb, ∃ w'',
      step w' (Call id task cb) = Some w'' ∧
      pipelineCalls w'' = pipelineCalls w' ++ [(task, id)] ∧
      getProgress id w'' = Some (fresh id).
Proof.
  intros Hi. cbn. rewrite Hi. cbn. split.
  - destruct (Z.leb_spec due (clock w)) as [Hle|Hlt].
    + split; [done|]. intros _. by eexists.
    + split; [by intros [? ?]|lia].
  - destruct (due <=? clock w)%Z; [|done]. intros w' [= <-].
    assert (getProgress id (evict id (set_timers (delete i (timers w)) w)) = None) as Hg.
    { unfold getProgress, evict. cbn. by rewrite lookup_delete_eq. }
    split; [done|]. split; [cbn; by rewrite lookup_delete_eq|].
    split; [unfold isDownloading; by rewrite Hg|].
    intros task cb. rewrite downloadModel_starts.
    + eexists; split; [done|]. rewrite startDownload_getProgress.
      split; [|done]. by destruct cb.
    + unfold joins, evict. cbn. by rewrite lookup_delete_eq.
Qed.

(** C8, at a failing input.  The retry reaches status ['completed'] at time
    2000 and its own timer is due at 7000; the timer of the failed download,
    due at 5000, removes the record and the subscribers of the retry 3000 ms
    after its terminal transition. *)
Theorem eviction_before_grace_delay :
  ∃ w1 w2,
    run initial retry_completes = Some w1 ∧
    clock w1 = 2000%Z ∧
    (status <$> getProgress "m" w1) = Some StCompleted ∧
    timers w1 = [Evict 5000 "m"; Evict 7000 "m"] ∧
    run w1 [Advance 3000; Fires 0] = Some w2 ∧
    clock w2 = 5000%Z ∧
    getProgress "m" w2 = None ∧
    subscribers "m" w2 = [] ∧
    timers w2 = [Evict 7000 "m"].
Proof. do 2 eexists. split; [by vm_compute|]. by vm_compute. Qed.

(** * Deduplication and eviction when no earlier timer is pending *)

Lemma checkStatus_timers id p w w' :
  checkStatus id p w = Some w' →
  timers w' = timers w ∨ timers w' = timers w ++ [Poll (clock w + 100) id p].
Proof.
  unfold checkStatus. intros H.
  destruct (activeDownloads w !! id) as [r|]; cbn in H.
  - destruct (heap w !! r) as [a|]; [|done]. cbn in H.
    destruct (status (progressData a)); simplify_eq;
      rewrite ?settle_timers; auto.
  - simplify_eq. rewrite settle_timers. auto.
Qed.

Lemma catch_fields r a e w :
  clock (catch r a e w) = clock w ∧ pipelineCalls (catch r a e w) = pipelineCalls w.
Proof.
  unfold catch. rewrite notifyProgress_result.
  by rewrite settle_clock, settle_pipelineCalls.
Qed.

Lemma onResolved_fields r a model w :
  clock (onResolved r a model w) = clock w ∧
  pipelineCalls (onResolved r a model w) = pipelineCalls w.
Proof.
  unfold onResolved. rewrite notifyProgress_result.
  destruct (snd (forEach _ _)).
  - by rewrite (proj1 (catch_fields _ _ _ _)), (proj2 (catch_fields _ _ _ _)).
  - by rewrite settle_clock, settle_pipelineCalls.
Qed.

(** The clock never goes back. *)
Lemma step_clock w ev w' : step w ev = Some w' → (clock w <= clock w')%Z.
Proof.
  destruct ev as [id task cb|r raw|r model|r e|i|dt]; cbn; intros H.
  - unfold downloadModel in H.
    destruct (joins id w) as [[]|]; cbn in H; [| |done].
    + apply checkStatus_same in H as (-> & _). by destruct cb.
    + simplify_eq. by destruct cb.
  - destruct (running r w) as [a|]; [|done]. cbn in H.
    destruct (progressTracker _ _ _); simplify_eq; [|done].
    by rewrite notifyProgress_result.
  - destruct (running r w) as [a|]; [|done]. simplify_eq/=.
    by rewrite (proj1 (onResolved_fields _ _ _ _)).
  - destruct (running r w) as [a|]; [|done]. simplify_eq/=.
    unfold onRejected. by rewrite (proj1 (catch_fields _ _ _ _)).
  - destruct (timers w !! i) as [t|]; [|done]. cbn in H.
    destruct (due_of t <=? clock w)%Z; [|done].
    destruct t; simplify_eq; [done|].
    by apply checkStatus_same in H as (-> & _).
  - destruct (Z.leb_spec 0 dt); simplify_eq. cbn. lia.
Qed.

Lemma run_clock evs : ∀ w w', run w evs = Some w' → (clock w <= clock w')%Z.
Proof.
  induction evs as [|ev evs IH]; intros w w' H; cbn in H; [by simplify_eq|].
  destruct (step w ev) as [w1|] eqn:Hstep; [|done]. cbn in H.
  apply step_clock in Hstep. apply IH in H. lia.
Qed.

Section Dedup.
Context (id : string) (r : nat).

Lemma sole_fetch_transfer w w' :
  activeDownloads w' !! id = activeDownloads w !! id →
  (∀ a, heap w !! r = Some a →
     ∃ a', heap w' !! r = Some a' ∧ awaiting a' = awaiting a ∧
           modelId (progressData a') = modelId (progressData a) ∧
           status (progressData a') = status (progressData a)) →
  (∀ r' a', r' ≠ r → heap w' !! r' = Some a' →
     modelId (progressData a') = id → awaiting a' = false) →
  no_eviction_pending id w' →
  sole_fetch id r w → sole_fetch id r w'.
Proof.
  intros Ha Hr Ho Ht [He (a & Hrun & Hid & Hs) _ _].
  apply running_Some in Hrun as [Hra Haw].
  destruct (Hr _ Hra) as (a' & Hra' & Haw' & Hid' & Hs').
  split; [by rewrite Ha| |done|done].
  exists a'. unfold running. rewrite Hra'. cbn. rewrite Haw', Haw.
  split; [done|]. by rewrite Hid', Hs'.
Qed.

Lemma sole_fetch_joins w : sole_fetch id r w → joins id w = Some true.
Proof.
  intros [He (a & Hrun & Hid & Hs) _ _].
  apply running_Some in Hrun as [Hra _].
  unfold joins. rewrite He. cbn. rewrite Hra. cbn. by rewrite Hs.
Qed.

(** Another fetch that is pending is not one for [id]. *)
Lemma sole_fetch_other w r0 a0 :
  sole_fetch id r w → r0 ≠ r → running r0 w = Some a0 →
  modelId (progressData a0) ≠ id.
Proof.
  intros Hsole Hne Hrun Hid. apply running_Some in Hrun as [Hr0 Haw].
  rewrite (sole_others _ _ _ Hsole r0 a0) in Haw; done.
Qed.

Lemma no_eviction_pending_poll ts due id' p :
  Forall (fun t => ∀ d, t ≠ Evict d id) ts →
  Forall (fun t => ∀ d, t ≠ Evict d id) (ts ++ [Poll due id' p]).
Proof. intros H. apply Forall_app. split; [done|]. by repeat constructor. Qed.

(** One step that does not end the fetch of [r] keeps it the one fetch in
    flight for [id] and starts no fetch for [id]. *)
Lemma sole_fetch_step w ev w' :
  sole_fetch id r w → leaves_pending r ev → step w ev = Some w' →
  sole_fetch id r w' ∧ fetches id w' = fetches id w.
Proof.
  intros Hsole Hev Hstep.
  pose proof Hsole as [He (a & Hrun & Hid & Hs) Ho Ht].
  destruct (running_Some _ _ _ Hrun) as [Hra Haw].
  assert (r < length (heap w)) as Hlt by by eapply lookup_lt_Some.
  destruct ev as [id0 task cb|r0 raw|r0 model|r0 e|i|dt]; cbn in Hstep.
  - unfold downloadModel in Hstep.
    destruct (joins id0 w) as [[]|] eqn:Hj; cbn in Hstep; [| |done].
    + pose proof (checkStatus_timers _ _ _ _ Hstep) as Htm.
      apply checkStatus_same in Hstep as (_ & Hh & Ha & _ & Hp & _).
      assert (heap w' = heap w) as Hh' by (rewrite Hh; by destruct cb).
      assert (activeDownloads w' = activeDownloads w) as Ha'
        by (rewrite Ha; by destruct cb).
      split.
      * apply (sole_fetch_transfer w); [by rewrite Ha'| | | |done].
        -- intros a1 Ha1. exists a1. by rewrite Hh'.
        -- intros r' a' Hr'. rewrite Hh'. by apply Ho.
        -- unfold no_eviction_pending.
           destruct Htm as [Htm|Htm]; rewrite Htm; [by destruct cb|].
           apply no_eviction_pending_poll. by destruct cb.
      * unfold fetches. rewrite Hp. by destruct cb.
    + injection Hstep as <-.
      assert (id0 ≠ id) as Hne.
      { intros ->. rewrite (sole_fetch_joins _ Hsole) in Hj. done. }
      split.
      * apply (sole_fetch_transfer w); [| | |by destruct cb|done].
        -- unfold startDownload. destruct cb; cbn; by rewrite lookup_insert_ne.
        -- intros a1 Ha1. exists a1. split; [|done].
           unfold startDownload. destruct cb; cbn; by apply lookup_app_l_Some.
        -- intros r' a' Hr' Hl Hid'.
           assert ((heap w ++ [mkActivation (fresh id0) 0 (clock w)
                                 (length (promises w)) true]) !! r' = Some a') as Hl'
             by (by destruct cb).
           apply lookup_app_Some in Hl' as [Hl'|[_ Hl']]; [by eapply Ho|].
           apply list_lookup_singleton_Some in Hl' as [_ <-]. done.
      * unfold fetches, startDownload. destruct cb; cbn.
        all: rewrite List.filter_app; cbn.
        all: apply String.eqb_neq in Hne; rewrite Hne.
        all: by rewrite app_nil_r.
  - destruct (running r0 w) as [a0|] eqn:Hr0; [|done]. cbn in Hstep.
    destruct (progressTracker _ _ _) as [a0'|] eqn:Htr; injection Hstep as <-; [|done].
    rewrite notifyProgress_result. cbn.
    apply progressTracker_keeps in Htr as (Hs0 & Hid0 & _ & _ & Haw0).
    split; [|done].
    apply (sole_fetch_transfer w); [done| | |done|done]; cbn.
    + intros a1 Ha1. destruct (decide (r0 = r)) as [->|Hne].
      * exists a0'. rewrite list_lookup_insert_eq by done.
        apply running_Some in Hr0 as [Hr0 _].
        rewrite Hr0 in Ha1. injection Ha1 as <-. done.
      * exists a1. by rewrite list_lookup_insert_ne.
    + intros r' a' Hr' Hl Hid'. destruct (decide (r' = r0)) as [->|Hne].
      * exfalso. eapply (sole_fetch_other w r0 a0); try done.
        apply running_Some in Hr0 as [Hr0 _].
        rewrite list_lookup_insert_eq in Hl by by eapply lookup_lt_Some.
        injection Hl as <-. by rewrite <- Hid0.
      * rewrite list_lookup_insert_ne in Hl by done. by eapply Ho.
  - destruct (running r0 w) as [a0|] eqn:Hr0; [|done]. injection Hstep as <-.
    pose proof (sole_fetch_other w r0 a0 Hsole Hev Hr0) as Hid0.
    destruct (onResolved_heap r0 a0 model w) as (d & Hh & _ & _).
    split; [|unfold fetches; by rewrite (proj2 (onResolved_fields _ _ _ _))].
    apply (sole_fetch_transfer w); [by rewrite onResolved_activeDownloads| | | |done].
    + intros a1 Ha1. exists a1. rewrite Hh. by rewrite list_lookup_insert_ne.
    + intros r' a' Hr' Hl Hid'. rewrite Hh in Hl.
      destruct (decide (r' = r0)) as [->|Hne].
      * apply running_Some in Hr0 as [Hr0 _].
        rewrite list_lookup_insert_eq in Hl by by eapply lookup_lt_Some.
        by injection Hl as <-.
      * rewrite list_lookup_insert_ne in Hl by done. by eapply Ho.
    + unfold no_eviction_pending. rewrite onResolved_timers.
      apply Forall_app. split; [done|]. repeat constructor. congruence.
  - destruct (running r0 w) as [a0|] eqn:Hr0; [|done]. injection Hstep as <-.
    pose proof (sole_fetch_other w r0 a0 Hsole Hev Hr0) as Hid0.
    unfold onRejected.
    split; [|unfold fetches; by rewrite (proj2 (catch_fields _ _ _ _))].
    apply (sole_fetch_transfer w); [by rewrite catch_activeDownloads| | | |done].
    + intros a1 Ha1. exists a1. rewrite catch_heap. by rewrite list_lookup_insert_ne.
    + intros r' a' Hr' Hl Hid'. rewrite catch_heap in Hl.
      destruct (decide (r' = r0)) as [->|Hne].
      * apply running_Some in Hr0 as [Hr0 _].
        rewrite list_lookup_insert_eq in Hl by by eapply lookup_lt_Some.
        by injection Hl as <-.
      * rewrite list_lookup_insert_ne in Hl by done. by eapply Ho.
    + unfold no_eviction_pending. rewrite catch_timers.
      apply Forall_app. split; [done|]. repeat constructor. cbn. congruence.
  - destruct (timers w !! i) as [t|] eqn:Hi; [|done]. cbn in Hstep.
    destruct (due_of t <=? clock w)%Z; [|done].
    assert (Forall (fun t => ∀ d, t ≠ Evict d id) (delete i (timers w))) as Hdel.
    { by apply Forall_delete. }
    destruct t as [due id0|due id0 p]; [injection Hstep as <-|].
    + assert (id0 ≠ id) as Hne.
      { intros ->. by eapply (Forall_lookup_1 _ _ _ _ Ht Hi). }
      split; [|done].
      apply (sole_fetch_transfer w); [|by eauto|done|done|done].
      cbn. by rewrite lookup_delete_ne.
    + pose proof (checkStatus_timers _ _ _ _ Hstep) as Htm.
      apply checkStatus_same in Hstep as (_ & Hh & Ha & _ & Hp & _).
      cbn in *. split; [|unfold fetches; by rewrite Hp].
      apply (sole_fetch_transfer w); [by rewrite Ha| | |  |done].
      * intros a1 Ha1. exists a1. by rewrite Hh.
      * intros r' a' Hr'. rewrite Hh. by apply Ho.
      * unfold no_eviction_pending.
        destruct Htm as [Htm|Htm]; rewrite Htm; [done|].
        by apply no_eviction_pending_poll.
  - destruct (0 <=? dt)%Z; [|done]. injection Hstep as <-. split; [|done].
    apply (sole_fetch_transfer w); by eauto.
Qed.

(** Deduplication, where it holds: as long as the fetch of [r] is pending and
    no eviction timer for [id] was pending when it became the one fetch for
    [id], no sequence of calls, samples, timers and other fetches starts a
    second fetch for [id]. *)
Lemma dedup_without_stale_timer evs : ∀ w w',
  sole_fetch id r w → Forall (leaves_pending r) evs → run w evs = Some w' →
  sole_fetch id r w' ∧ fetches id w' = fetches id w.
Proof.
  induction evs as [|ev evs IH]; intros w w' Hsole Hevs Hrun; cbn in Hrun.
  - by injection Hrun as <-.
  - destruct (step w ev) as [w1|] eqn:Hstep; [|done]. cbn in Hrun.
    apply Forall_cons in Hevs as [Hev Hevs].
    destruct (sole_fetch_step _ _ _ Hsole Hev Hstep) as [Hsole1 Hf1].
    destruct (IH _ _ Hsole1 Hevs Hrun) as [Hsole' Hf'].
    split; [done|]. by rewrite Hf', Hf1.
Qed.

End Dedup.

(** The very first request for an identity is the one fetch for it. *)
Lemma first_request_sole_fetch id task cb :
  ∃ w, step initial (Call id task cb) = Some w ∧ sole_fetch id 0 w ∧
       fetches id w = [(task, id)].
Proof.
  eexists. split; [done|]. split.
  - split.
    + destruct cb; cbn; by rewrite lookup_insert_eq.
    + eexists. split; [by destruct cb|done].
    + intros r' a' Hr' Hl. destruct cb; cbn in Hl.
      all: apply list_lookup_singleton_Some in Hl as [-> _]; done.
    + destruct cb; constructor.
  - unfold fetches. destruct cb; cbn; by rewrite String.eqb_refl.
Qed.

Section Grace.
Context (id : string) (deadline : Z).

Lemma in_grace_same w w' :
  activeDownloads w' = activeDownloads w → clock w' = clock w →
  (timers w' = timers w ∨ ∃ due id' p, timers w' = timers w ++ [Poll due id' p]) →
  in_grace id deadline w → in_grace id deadline w'.
Proof.
  intros Ha Hc Ht [H1 H2 H3]. split; [by rewrite Ha| |by rewrite Hc].
  destruct Ht as [Ht|(due & id' & p & Ht)]; rewrite Ht; [done|].
  apply Forall_app. split; [done|]. by repeat constructor.
Qed.

(** Before the deadline, a step does not remove the entry of [id]. *)
Lemma in_grace_step w ev w' :
  in_grace id deadline w → (clock w < deadline)%Z → step w ev = Some w' →
  in_grace id deadline w'.
Proof.
  intros Hg Hlt Hstep. pose proof Hg as [H1 H2 H3].
  destruct ev as [id0 task cb|r0 raw|r0 model|r0 e|i|dt]; cbn in Hstep.
  - unfold downloadModel in Hstep.
    destruct (joins id0 w) as [[]|] eqn:Hj; cbn in Hstep; [| |done].
    + pose proof (checkStatus_timers _ _ _ _ Hstep) as Htm.
      apply checkStatus_same in Hstep as (Hc & _ & Ha & _).
      apply (in_grace_same w); [rewrite Ha; by destruct cb|rewrite Hc; by destruct cb| |done].
      destruct Htm as [Htm|Htm]; rewrite Htm; [left; by destruct cb|].
      right. do 3 eexists. by destruct cb.
    + injection Hstep as <-. split.
      * unfold startDownload. destruct cb; cbn.
        all: destruct (decide (id0 = id)) as [->|Hne];
          [rewrite lookup_insert_eq; by eexists|by rewrite lookup_insert_ne].
      * by destruct cb.
      * by destruct cb.
  - destruct (running r0 w) as [a0|]; [|done]. cbn in Hstep.
    destruct (progressTracker _ _ _); injection Hstep as <-; [|done].
    rewrite notifyProgress_result. by split.
  - destruct (running r0 w) as [a0|]; [|done]. injection Hstep as <-.
    split.
    + by rewrite onResolved_activeDownloads.
    + rewrite onResolved_timers. apply Forall_app. split; [done|].
      repeat constructor. intros due [= <- _]. done.
    + by rewrite (proj1 (onResolved_fields _ _ _ _)).
  - destruct (running r0 w) as [a0|]; [|done]. injection Hstep as <-.
    unfold onRejected. split.
    + by rewrite catch_activeDownloads.
    + rewrite catch_timers. apply Forall_app. split; [done|].
      repeat constructor. intros due [= <- _]. done.
    + by rewrite (proj1 (catch_fields _ _ _ _)).
  - destruct (timers w !! i) as [t|] eqn:Hi; [|done]. cbn in Hstep.
    destruct (Z.leb_spec (due_of t) (clock w)) as [Hdue|]; [|done].
    assert (Forall (fun t => ∀ due, t = Evict due id → (deadline <= due)%Z)
              (delete i (timers w))) as Hdel by by apply Forall_delete.
    destruct t as [due id0|due id0 p].
    + injection Hstep as <-.
      assert (id0 ≠ id) as Hne.
      { intros ->. pose proof (Forall_lookup_1 _ _ _ _ H2 Hi due eq_refl).
        cbn in Hdue. lia. }
      split; [|done|done]. cbn. by rewrite lookup_delete_ne.
    + pose proof (checkStatus_timers _ _ _ _ Hstep) as Htm.
      apply checkStatus_same in Hstep as (Hc & _ & Ha & _).
      split; [by rewrite Ha|by destruct Htm as [Htm|Htm]; rewrite Htm;
        [|apply Forall_app; split; [|repeat constructor]]|by rewrite Hc].
  - destruct (Z.leb_spec 0 dt); [|done]. injection Hstep as <-.
    split; [done|done|]. cbn. lia.
Qed.

Lemma in_grace_run evs : ∀ w w',
  in_grace id deadline w → run w evs = Some w' → (clock w' < deadline)%Z →
  in_grace id deadline w'.
Proof.
  induction evs as [|ev evs IH]; intros w w' Hg Hrun Hlt; cbn in Hrun.
  - by injection Hrun as <-.
  - destruct (step w ev) as [w1|] eqn:Hstep; [|done]. cbn in Hrun.
    pose proof (step_clock _ _ _ Hstep). pose proof (run_clock _ _ _ Hrun).
    eapply IH; [|done|done]. eapply in_grace_step; [done| |done]. lia.
Qed.

End Grace.

(** Eviction, where it holds.  When the fetch of a download is over and no
    eviction timer for its identity was pending, the record stays visible to
    [getProgress] as long as the clock is short of 5000 ms after that moment,
    whatever happens in between. *)
Lemma record_survives_grace_delay w r a ev w1 evs w2 :
  consistent w → running r w = Some a →
  is_Some (activeDownloads w !! modelId (progressData a)) →
  no_eviction_pending (modelId (progressData a)) w →
  (∃ model, ev = Settles r model) ∨ (∃ e, ev = Fails r e) →
  step w ev = Some w1 → run w1 evs = Some w2 →
  (clock w2 < clock w + 5000)%Z →
  is_Some (getProgress (modelId (progressData a)) w2).
Proof.
  intros Hw Hrun He Ht Hev Hstep Hevs Hlt.
  assert (in_grace (modelId (progressData a)) (clock w + 5000) w1) as Hg.
  { destruct Hev as [[model ->]|[e ->]]; cbn in Hstep; rewrite Hrun in Hstep;
      injection Hstep as <-.
    - split.
      + by rewrite onResolved_activeDownloads.
      + rewrite onResolved_timers. apply Forall_app. split.
        * eapply Forall_impl; [exact Ht|]. intros t Hn due ->. by destruct (Hn due).
        * repeat constructor. by intros due [= <-].
      + by rewrite (proj1 (onResolved_fields _ _ _ _)).
    - unfold onRejected. split.
      + by rewrite catch_activeDownloads.
      + rewrite catch_timers. apply Forall_app. split.
        * eapply Forall_impl; [exact Ht|]. intros t Hn due ->. by destruct (Hn due).
        * repeat constructor. by intros due [= <-].
      + by rewrite (proj1 (catch_fields _ _ _ _)). }
  pose proof (in_grace_run _ _ _ _ _ Hg Hevs Hlt) as [[r2 Hr2] _ _].
  assert (consistent w2) as Hw2.
  { eapply run_consistent; [done|]. by eapply step_consistent. }
  destruct (cons_refs _ Hw2 _ _ Hr2) as (a2 & Ha2 & _).
  unfold getProgress. rewrite Hr2. cbn. rewrite Ha2. by eexists.
Qed.

(** * Further properties of the manager *)

Lemma catch_callbacks r a e w : callbacks (catch r a e w) = callbacks w.
Proof. unfold catch. rewrite notifyProgress_result. by rewrite settle_callbacks. Qed.

Lemma onResolved_callbacks r a model w : callbacks (onResolved r a model w) = callbacks w.
Proof.
  unfold onResolved. rewrite notifyProgress_result.
  destruct (snd (forEach _ _)).
  - by rewrite catch_callbacks.
  - by rewrite settle_callbacks.
Qed.

(** What one step does to the map of callbacks. *)
Lemma step_callbacks w ev w' :
  step w ev = Some w' →
  callbacks w' = callbacks w ∨
  (∃ id task cb, ev = Call id task (Some cb) ∧
     callbacks w' = <[id := subscribers id w ++ [cb]]> (callbacks w)) ∨
  (∃ i due id, ev = Fires i ∧ timers w !! i = Some (Evict due id) ∧
     callbacks w' = delete id (callbacks w)).
Proof.
  destruct ev as [id task cb|r raw|r model|r e|i|dt]; cbn; intros H.
  - unfold downloadModel in H.
    destruct (joins id w) as [[]|]; cbn in H; [| |done].
    + apply checkStatus_same in H as (_ & _ & _ & Hc & _).
      destruct cb as [cb|]; [|by left].
      right; left. exists id, task, cb. by rewrite Hc.
    + injection H as <-. destruct cb as [cb|]; [|by left].
      right; left. by exists id, task, cb.
  - destruct (running r w) as [a|]; [|done]. cbn in H.
    destruct (progressTracker _ _ _); injection H as <-; [|by left].
    rewrite notifyProgress_result. by left.
  - destruct (running r w) as [a|]; [|done]. injection H as <-.
    left. apply onResolved_callbacks.
  - destruct (running r w) as [a|]; [|done]. injection H as <-.
    left. apply catch_callbacks.
  - destruct (timers w !! i) as [t|] eqn:Hi; [|done]. cbn in H.
    destruct (due_of t <=? clock w)%Z; [|done].
    destruct t as [due id|due id p].
    + injection H as <-. right; right. by exists i, due, id.
    + apply checkStatus_same in H as (_ & _ & _ & Hc & _). by left.
  - destruct (0 <=? dt)%Z; [|done]. injection H as <-. by left.
Qed.

(** What one step does to the log of fetches. *)
Lemma step_pipelineCalls w ev w' :
  step w ev = Some w' →
  pipelineCalls w' = pipelineCalls w ∨
  ∃ id task cb, ev = Call id task cb ∧ joins id w = Some false ∧
                pipelineCalls w' = pipelineCalls w ++ [(task, id)].
Proof.
  destruct ev as [id task cb|r raw|r model|r e|i|dt]; cbn; intros H.
  - unfold downloadModel in H.
    destruct (joins id w) as [[]|] eqn:Hj; cbn in H; [| |done].
    + apply checkStatus_same in H as (_ & _ & _ & _ & Hp & _).
      left. rewrite Hp. by destruct cb.
    + injection H as <-. right. exists id, task, cb. by destruct cb.
  - destruct (running r w) as [a|]; [|done]. cbn in H.
    destruct (progressTracker _ _ _); injection H as <-; [|by left].
    rewrite notifyProgress_result. by left.
  - destruct (running r w) as [a|]; [|done]. injection H as <-.
    left. apply onResolved_fields.
  - destruct (running r w) as [a|]; [|done]. injection H as <-.
    left. apply catch_fields.
  - destruct (timers w !! i) as [t|]; [|done]. cbn in H.
    destruct (due_of t <=? clock w)%Z; [|done].
    destruct t as [due id|due id p].
    + injection H as <-. by left.
    + apply checkStatus_same in H as (_ & _ & _ & _ & Hp & _). by left.
  - destruct (0 <=? dt)%Z; [|done]. injection H as <-. by left.
Qed.

(** The manager never fetches on its own.  Along every run the invocations of
    [pipeline] are those of some of the calls of [downloadModel], in the order
    of the calls, one per call at most: no failure is retried and no timer
    starts a fetch. *)
Theorem fetches_are_calls evs : ∀ w w',
  run w evs = Some w' →
  ∃ started, pipelineCalls w' = pipelineCalls w ++ started ∧
             sublist started (calls_of evs).
Proof.
  induction evs as [|ev evs IH]; intros w w' Hrun; cbn in Hrun.
  - injection Hrun as <-. exists []. by rewrite app_nil_r.
  - destruct (step w ev) as [w1|] eqn:Hstep; [|done]. cbn in Hrun.
    destruct (IH _ _ Hrun) as (started & Hp & Hsub).
    destruct (step_pipelineCalls _ _ _ Hstep) as [H1|(id & task & cb & -> & _ & H1)].
    + exists started. rewrite Hp, H1. split; [done|].
      destruct ev; cbn; try done. by apply sublist_cons.
    + exists ((task, id) :: started). rewrite Hp, H1, <- app_assoc.
      split; [done|]. cbn. by apply sublist_skip.
Qed.

Lemma fetches_are_calls_witness :
  ∃ w started,
    run initial (joined ++ [Fails 0 (JsError "network timeout"); Advance 5000]) = Some w ∧
    pipelineCalls w = pipelineCalls initial ++ started ∧
    length started ≤ 2.
Proof.
  eexists.
  match goal with
  | |- ∃ s, run ?w0 ?evs = Some ?w ∧ _ =>
      assert (run w0 evs = Some w) as Hrun by (by vm_compute)
  end.
  destruct (fetches_are_calls _ _ _ Hrun) as (started & Hp & Hsub).
  exists started. split; [exact Hrun|]. split; [exact Hp|].
  apply sublist_length in Hsub. exact Hsub.
Defined.



Lemma getProgress_same w w' id :
  heap w' = heap w → activeDownloads w' !! id = activeDownloads w !! id →
  getProgress id w' = getProgress id w.
Proof. intros Hh Ha. unfold getProgress. by rewrite Hh, Ha. Qed.

Lemma getProgress_update_other w w' id r a a' :
  consistent w → heap w !! r = Some a → modelId (progressData a) ≠ id →
  heap w' = <[r := a']> (heap w) → activeDownloads w' = activeDownloads w →
  getProgress id w' = getProgress id w.
Proof.
  intros Hw Hr Hid Hh Ha. unfold getProgress. rewrite Hh, Ha.
  destruct (activeDownloads w !! id) as [r0|] eqn:Hr0; [|done]. cbn.
  destruct (cons_refs _ Hw _ _ Hr0) as (a0 & Ha0 & Hid0).
  rewrite list_lookup_insert_ne; [done|]. intros <-. congruence.
Qed.

(** Downloads of different identities do not touch each other.  A step about
    one identity (a call for it, a sample or the settlement of one of its
    fetches, one of its timers) leaves what [getProgress] shows for every
    other identity, the subscribers of every other identity and the fetches
    started for it as they were. *)
Theorem other_identities_untouched w ev w' id :
  consistent w → step w ev = Some w' → concerns w ev ≠ Some id →
  getProgress id w' = getProgress id w ∧
  subscribers id w' = subscribers id w ∧
  fetches id w' = fetches id w.
Proof.
  intros Hw Hstep Hne. split; [|split].
  - destruct ev as [id0 task cb|r raw|r model|r e|i|dt]; cbn in Hstep, Hne.
    + assert (id0 ≠ id) as Hid by congruence.
      unfold downloadModel in Hstep.
      destruct (joins id0 w) as [[]|]; cbn in Hstep; [| |done].
      * apply checkStatus_same in Hstep as (_ & Hh & Ha & _).
        apply getProgress_same; rewrite ?Hh, ?Ha; by destruct cb.
      * injection Hstep as <-. unfold getProgress, startDownload.
        destruct cb; cbn; rewrite lookup_insert_ne by done.
        all: destruct (activeDownloads w !! id) as [r0|] eqn:Hr0; [|done]; cbn.
        all: destruct (cons_refs _ Hw _ _ Hr0) as (a0 & Ha0 & _).
        all: by rewrite (lookup_app_l_Some _ _ _ _ Ha0), Ha0.
    + destruct (running r w) as [a|] eqn:Hr; [|done]. cbn in Hstep.
      apply running_Some in Hr as [Hr _]. rewrite Hr in Hne. cbn in Hne.
      destruct (progressTracker _ _ _) as [a'|]; injection Hstep as <-; [|done].
      rewrite notifyProgress_result.
      eapply (getProgress_update_other w _ id r a a'); try done. congruence.
    + destruct (running r w) as [a|] eqn:Hr; [|done]. injection Hstep as <-.
      apply running_Some in Hr as [Hr _]. rewrite Hr in Hne. cbn in Hne.
      destruct (onResolved_heap r a model w) as (d & Hh & _).
      eapply (getProgress_update_other w _ id r a); try done; [congruence|].
      apply onResolved_activeDownloads.
    + destruct (running r w) as [a|] eqn:Hr; [|done]. injection Hstep as <-.
      apply running_Some in Hr as [Hr _]. rewrite Hr in Hne. cbn in Hne.
      eapply (getProgress_update_other w _ id r a); try done; [congruence| |].
      * apply catch_heap.
      * apply catch_activeDownloads.
    + destruct (timers w !! i) as [t|] eqn:Hi; [|done]. cbn in Hstep, Hne.
      destruct (due_of t <=? clock w)%Z; [|done].
      destruct t as [due id0|due id0 p].
      * injection Hstep as <-. apply getProgress_same; [done|]. cbn.
        apply lookup_delete_ne. congruence.
      * apply checkStatus_same in Hstep as (_ & Hh & Ha & _).
        apply getProgress_same; by rewrite ?Hh, ?Ha.
    + destruct (0 <=? dt)%Z; [|done]. by injection Hstep as <-.
  - unfold subscribers.
    destruct (step_callbacks _ _ _ Hstep)
      as [->|[(id0 & task & cb & -> & ->)|(i & due & id0 & -> & Hi & ->)]]; [done| |].
    + cbn in Hne. rewrite lookup_insert_ne; [done|congruence].
    + cbn in Hne. rewrite Hi in Hne. cbn in Hne.
      rewrite lookup_delete_ne; [done|congruence].
  - unfold fetches.
    destruct (step_pipelineCalls _ _ _ Hstep) as [->|(id0 & task & cb & -> & _ & ->)];
      [done|].
    cbn in Hne. rewrite List.filter_app. cbn.
    assert (id0 ≠ id) as Hid by congruence.
    apply String.eqb_neq in Hid. rewrite Hid. by rewrite app_nil_r.
Qed.

Lemma other_identities_untouched_witness :
  ∃ w w', run initial side_by_side = Some w ∧
          step w (Fails 1 (JsError "network timeout")) = Some w' ∧
          getProgress "m" w' = getProgress "m" w ∧
          subscribers "m" w' = subscribers "m" w ∧
          fetches "m" w' = fetches "m" w.
Proof.
  do 2 eexists.
  match goal with
  | |- run ?w0 ?evs = Some ?w ∧ step _ ?ev = Some ?w' ∧ _ =>
      assert (run w0 evs = Some w) as Hrun by (by vm_compute);
      assert (step w ev = Some w') as Hstep by (by vm_compute)
  end.
  split; [exact Hrun|]. split; [exact Hstep|].
  apply (other_identities_untouched _ _ _ "m" (reachable_consistent _ _ Hrun) Hstep).
  by vm_compute.
Defined.

(** [isDownloading] tells what a call will do.  In every state the manager
    reaches a call of [downloadModel] goes through; it starts no fetch and
    leaves the record alone when [isDownloading] holds for the identity, and
    otherwise it starts exactly one fetch and stores a fresh record. *)
Theorem isDownloading_decides_join w id task cb :
  consistent w →
  ∃ w', step w (Call id task cb) = Some w' ∧
        if isDownloading id w
        then pipelineCalls w' = pipelineCalls w ∧ getProgress id w' = getProgress id w
        else pipelineCalls w' = pipelineCalls w ++ [(task, id)] ∧
             getProgress id w' = Some (fresh id).
Proof.
  intros Hw. cbn. unfold isDownloading, getProgress.
  destruct (activeDownloads w !! id) as [r|] eqn:Hr; cbn.
  - destruct (cons_refs _ Hw _ _ Hr) as (a & Ha & _). rewrite Ha. cbn.
    destruct (status (progressData a)) eqn:Hs.
    2: { destruct (downloadModel_joins id task cb w r a Hr Ha Hs)
           as (w' & -> & Hp & Hh & Had & _).
         exists w'. split; [done|]. split; [done|].
         rewrite Hh, Had, Hr. cbn. by rewrite Ha. }
    all: rewrite downloadModel_starts
      by (unfold joins; rewrite Hr; cbn; rewrite Ha; cbn; by rewrite Hs).
    all: eexists; split; [done|].
    all: split; [by destruct cb|]; apply startDownload_getProgress.
  - rewrite downloadModel_starts by (unfold joins; by rewrite Hr).
    eexists; split; [done|].
    split; [by destruct cb|]. apply startDownload_getProgress.
Qed.

Lemma isDownloading_decides_join_witness :
  ∃ w w', run initial joined = Some w ∧ isDownloading "m" w = true ∧
          step w (Call "m" "text-generation" None) = Some w' ∧
          pipelineCalls w' = pipelineCalls w ∧
          getProgress "m" w' = getProgress "m" w.
Proof.
  eexists.
  match goal with
  | |- ∃ w', run ?w0 ?evs = Some ?w ∧ _ =>
      assert (run w0 evs = Some w) as Hrun by (by vm_compute)
  end.
  destruct (isDownloading_decides_join _ "m" "text-generation" None
              (reachable_consistent _ _ Hrun)) as (w' & Hstep & H).
  exists w'. split; [exact Hrun|].
  match goal with
  | |- ?A ∧ _ => assert A as Hd by (by vm_compute)
  end.
  rewrite Hd in H. by destruct H.
Defined.

(** Every subscriber hears every sample.  A sample that [progressTracker]
    takes into account is written to the record of its download, and each
    callback registered for the identity at that moment is called once with
    that record, in registration order (none of them throwing); promises,
    timers and fetches are left alone.  [getProgress] shows the updated
    record when the entry of the identity refers to this download, and shows
    what it showed before when the entry has been evicted or replaced.  A
    sample of another status, or one without a file, changes nothing and
    notifies nobody. *)
Theorem sample_fans_out w r a raw :
  running r w = Some a →
  let id := modelId (progressData a) in
  (accepted raw = false → step w (Sample r raw) = Some w) ∧
  (∀ a', progressTracker (clock w) a raw = Some a' →
     Forall (fun cb => cb_body cb (progressData a') = None) (subscribers id w) →
     ∃ w', step w (Sample r raw) = Some w' ∧
       delivered w' =
         delivered w ++ map (fun cb => (cb_id cb, progressData a')) (subscribers id w) ∧
       heap w' = <[r := a']> (heap w) ∧
       (activeDownloads w !! id = Some r → getProgress id w' = Some (progressData a')) ∧
       (activeDownloads w !! id ≠ Some r → getProgress id w' = getProgress id w) ∧
       promises w' = promises w ∧ timers w' = timers w ∧
       pipelineCalls w' = pipelineCalls w).
Proof.
  intros Hrun id. split.
  - intros Hacc. cbn. rewrite Hrun. cbn. by rewrite progressTracker_None.
  - intros a' Ha' Hq. cbn. rewrite Hrun. cbn. rewrite Ha'.
    destruct (progressTracker_keeps _ _ _ _ Ha') as (_ & Hid & _).
    rewrite notifyProgress_result. cbn. rewrite Hid. fold id.
    fold (subscribers id w). rewrite forEach_quiet by done.
    eexists. split; [done|]. cbn. split; [done|]. split; [done|].
    apply running_Some in Hrun as [Hr _].
    split; [|split; [|done]].
    + intros He. unfold getProgress. cbn. rewrite He. cbn.
      rewrite list_lookup_insert_eq by by eapply lookup_lt_Some. done.
    + intros He. unfold getProgress. cbn.
      destruct (activeDownloads w !! id) as [r0|]; [|done]. cbn.
      rewrite list_lookup_insert_ne; [done|]. congruence.
Qed.

Lemma sample_fans_out_witness :
  ∃ w a w', run initial joined = Some w ∧ running 0 w = Some a ∧
    step w (Sample 0 (sample "model.onnx" 500 1000)) = Some w' ∧
    map fst (delivered w') = map fst (delivered w) ++ [0; 1] ∧
    (loaded <$> getProgress "m" w') = Some 500%Q.
Proof.
  do 2 eexists.
  match goal with
  | |- ∃ w', run ?w0 ?evs = Some ?w ∧ running 0 _ = Some ?a ∧ _ =>
      assert (run w0 evs = Some w) as Hrun by (by vm_compute);
      assert (running 0 w = Some a) as Ha by (by vm_compute)
  end.
  destruct (sample_fans_out _ 0 _ (sample "model.onnx" 500 1000) Ha) as [_ H].
  edestruct H as (w' & Hstep & Hd & _ & Hg & _).
  - by vm_compute.
  - vm_compute. by repeat constructor.
  - exists w'. split; [exact Hrun|]. split; [exact Ha|]. split; [exact Hstep|].
    split; [rewrite Hd, map_app; by vm_compute|].
    pose proof (Hg ltac:(by vm_compute) : getProgress "m" w' = _) as Hg'.
    rewrite Hg'. by vm_compute.
Defined.

(** The estimate of the remaining time.  For a sample that is taken into
    account the recorded [eta] is 0 whenever the recorded speed is not
    positive (an unknown estimate reads as 0 seconds); when the speed is
    positive [eta] has the sign of what is still missing: it is not negative
    as long as [loaded] does not exceed [total], and not positive once
    [loaded] has reached [total]. *)
Theorem eta_of_sample now a raw a' :
  progressTracker now a raw = Some a' →
  let d := progressData a' in
  ((speed d <= 0)%Q → eta d = 0%Q) ∧
  ((0 < speed d)%Q → (loaded d <= total d)%Q → (0 <= eta d)%Q) ∧
  ((0 < speed d)%Q → (total d <= loaded d)%Q → (eta d <= 0)%Q).
Proof.
  unfold progressTracker. case_match; [|done]. intros [= <-]. cbn.
  set (sp := if Qgtb _ 0 then _ else _).
  split; [|split].
  - intros Hle. case_match eqn:Hgt; [|done].
    apply Qgtb_true in Hgt. exfalso. by eapply Qlt_not_le.
  - intros Hlt Hl. case_match eqn:Hgt; [|done].
    apply Qmult_le_0_compat.
    + by apply Qle_minus_iff in Hl.
    + apply Qinv_le_0_compat. by apply Qlt_le_weak.
  - intros Hlt Hl. case_match eqn:Hgt; [|done].
    unfold Qdiv.
    assert (0 <= (raw_loaded raw - raw_total raw) * / sp)%Q as H0.
    { apply Qmult_le_0_compat.
      - by apply Qle_minus_iff in Hl.
      - apply Qinv_le_0_compat. by apply Qlt_le_weak. }
    apply Qle_minus_iff.
    eapply Qle_trans; [exact H0|]. apply Qle_lteq. right. ring.
Qed.

Lemma eta_of_sample_witness :
  ∃ a', progressTracker 1000 (started "m" 0) (sample "model.onnx" 500 1000) = Some a' ∧
        (0 < speed (progressData a'))%Q ∧
        (0 <= eta (progressData a'))%Q.
Proof.
  eexists.
  match goal with
  | |- ?t = Some ?a' ∧ _ => assert (t = Some a') as H1 by (by vm_compute)
  end.
  split; [exact H1|]. split; [by vm_compute|].
  apply (proj1 (proj2 (eta_of_sample _ _ _ _ H1))); by vm_compute.
Defined.

(** ** No promise is left behind *)

Lemma settle_still_unsettled p o w q :
  o ≠ Unsettled → promises (settle p o w) !! q = Some Unsettled →
  q ≠ p ∧ promises w !! q = Some Unsettled.
Proof.
  intros Ho H. destruct (decide (q = p)) as [->|Hne].
  - exfalso. unfold settle in H.
    destruct (promises w !! p) as [[]|] eqn:Hp; try congruence.
    cbn in H. rewrite list_lookup_insert_eq in H by by eapply lookup_lt_Some.
    congruence.
  - split; [done|]. by rewrite settle_other in H.
Qed.

Lemma awaited_mono p w w' :
  (∀ r a, running r w = Some a → caller a = p →
     ∃ a', running r w' = Some a' ∧ caller a' = p) →
  (∀ due id, Poll due id p ∈ timers w → Poll due id p ∈ timers w') →
  awaited p w → awaited p w'.
Proof.
  intros Hr Ht [(r & a & Hrun & Hc)|(due & id & Hin)].
  - left. destruct (Hr _ _ Hrun Hc) as (a' & Ha' & Hc'). by exists r, a'.
  - right. exists due, id. by apply Ht.
Qed.

Lemma awaited_same p w w' :
  heap w' = heap w → (∀ t, t ∈ timers w → t ∈ timers w') →
  awaited p w → awaited p w'.
Proof.
  intros Hh Ht. apply awaited_mono; [|by auto].
  intros r a Hrun Hc. exists a. unfold running in *. by rewrite Hh.
Qed.

Lemma elem_of_delete_other {A} (l : list A) i x y :
  l !! i = Some x → y ≠ x → y ∈ l → y ∈ delete i l.
Proof.
  intros Hi Hne Hin. apply list_elem_of_lookup in Hin as [j Hj].
  apply list_elem_of_lookup.
  destruct (decide (j < i)) as [Hlt|Hge].
  - exists j. by rewrite list_lookup_delete_lt.
  - assert (j ≠ i) by congruence.
    exists (pred j). rewrite list_lookup_delete_ge by lia.
    replace (S (pred j)) with j by lia. done.
Qed.

Lemma checkStatus_awaited id p w w' :
  checkStatus id p w = Some w' →
  (∀ q, q ≠ p → promises w !! q = Some Unsettled → awaited q w) →
  ∀ q, promises w' !! q = Some Unsettled → awaited q w'.
Proof.
  intros H Hw q Hq.
  assert (∀ o, o ≠ Unsettled → promises (settle p o w) !! q = Some Unsettled →
               awaited q (settle p o w)) as Hsettle.
  { intros o Ho Hq'. apply settle_still_unsettled in Hq' as [Hne Hq']; [|done].
    eapply (awaited_same q w); [apply settle_heap| |by apply Hw].
    intros t. by rewrite settle_timers. }
  unfold checkStatus in H.
  destruct (activeDownloads w !! id) as [r|]; cbn in H.
  - destruct (heap w !! r) as [a|]; [|done]. cbn in H.
    destruct (status (progressData a)); injection H as <-;
      try (by apply Hsettle).
    all: destruct (decide (q = p)) as [->|Hne];
      [right; do 2 eexists; cbn; apply elem_of_app; right; by constructor|].
    all: eapply (awaited_same q w); [done| |by apply Hw].
    all: intros t Ht; cbn; apply elem_of_app; by left.
  - injection H as <-. by apply Hsettle.
Qed.

Lemma catch_promises r a e w :
  ∃ o, o ≠ Unsettled ∧ promises (catch r a e w) = promises (settle (caller a) o w).
Proof.
  unfold catch. rewrite notifyProgress_result.
  eexists. split; [|unfold settle; cbn; by repeat case_match]. done.
Qed.

Lemma onResolved_promises r a model w :
  ∃ o, o ≠ Unsettled ∧
       promises (onResolved r a model w) = promises (settle (caller a) o w).
Proof.
  unfold onResolved. rewrite notifyProgress_result.
  destruct (snd (forEach _ _)).
  - unfold catch. rewrite notifyProgress_result.
    eexists. split; [|unfold settle; cbn; by repeat case_match]. done.
  - eexists. split; [|unfold settle; cbn; by repeat case_match]. done.
Qed.

(** After the continuation of the fetch of [r], whatever is still unsettled
    was awaited before by something else than [r], and still is. *)
Lemma settlement_awaited w w' r a :
  running r w = Some a →
  (∃ a', heap w' = <[r := a']> (heap w)) →
  (∀ t, t ∈ timers w → t ∈ timers w') →
  (∃ o, o ≠ Unsettled ∧ promises w' = promises (settle (caller a) o w)) →
  (∀ q, promises w !! q = Some Unsettled → awaited q w) →
  ∀ q, promises w' !! q = Some Unsettled → awaited q w'.
Proof.
  intros Hrun [a1 Hh] Ht (o & Ho & Hp) Hw q Hq.
  rewrite Hp in Hq. apply settle_still_unsettled in Hq as [Hne Hq]; [|done].
  eapply (awaited_mono q w); [| |by apply Hw].
  - intros r0 a0 Hr0 Hc. exists a0. split; [|done].
    assert (r0 ≠ r) as Hr by (intros ->; congruence).
    unfold running in *. rewrite Hh. by rewrite list_lookup_insert_ne.
  - intros due id. apply Ht.
Qed.

Lemma step_awaited w ev w' :
  (∀ q, promises w !! q = Some Unsettled → awaited q w) →
  step w ev = Some w' →
  ∀ q, promises w' !! q = Some Unsettled → awaited q w'.
Proof.
  intros Hw Hstep.
  destruct ev as [id task cb|r raw|r model|r e|i|dt]; cbn in Hstep.
  - unfold downloadModel in Hstep.
    destruct (joins id w) as [[]|]; cbn in Hstep; [| |done].
    + eapply checkStatus_awaited; [exact Hstep|].
      intros q Hne Hq.
      assert (promises w !! q = Some Unsettled) as Hq'.
      { assert ((promises w ++ [Unsettled]) !! q = Some Unsettled) as Hq2
          by (by destruct cb).
        apply lookup_app_Some in Hq2 as [Hq2|[Hge Hq2]]; [done|].
        apply list_lookup_singleton_Some in Hq2 as [Hq2 _]. lia. }
      eapply (awaited_same q w); [| |by apply Hw]; by destruct cb.
    + injection Hstep as <-. intros q Hq.
      assert ((promises w ++ [Unsettled]) !! q = Some Unsettled) as Hq2
        by (by destruct cb).
      apply lookup_app_Some in Hq2 as [Hq2|[Hge Hq2]].
      * eapply (awaited_mono q w); [| |by apply Hw].
        -- intros r a Hrun Hc. exists a. split; [|done].
           apply running_Some in Hrun as [Hr Haw].
           unfold running, startDownload. destruct cb; cbn.
           all: rewrite (lookup_app_l_Some _ _ _ _ Hr); cbn; by rewrite Haw.
        -- intros due id0 Hin. by destruct cb.
      * apply list_lookup_singleton_Some in Hq2 as [Hq2 _].
        left. exists (length (heap w)). eexists. split.
        -- unfold running, startDownload. destruct cb; cbn.
           all: rewrite list_lookup_middle by done; done.
        -- cbn. lia.
  - destruct (running r w) as [a|] eqn:Hr; [|done]. cbn in Hstep.
    destruct (progressTracker _ _ _) as [a'|] eqn:Ht; injection Hstep as <-; [|done].
    rewrite notifyProgress_result. cbn. intros q Hq.
    apply progressTracker_keeps in Ht as (_ & _ & _ & Hc & Haw).
    eapply (awaited_mono q w); [| |by apply Hw]; [|done].
    intros r0 a0 Hr0 Hc0. unfold running. cbn.
    destruct (decide (r0 = r)) as [->|Hne].
    + exists a'. rewrite Hr in Hr0. injection Hr0 as <-.
      apply running_Some in Hr as [Hr Haw0].
      rewrite list_lookup_insert_eq by by eapply lookup_lt_Some.
      cbn. rewrite Haw, Haw0. split; [done|congruence].
    + exists a0. rewrite list_lookup_insert_ne by done. done.
  - destruct (running r w) as [a|] eqn:Hr; [|done]. injection Hstep as <-.
    eapply settlement_awaited; [exact Hr| | |apply onResolved_promises|exact Hw].
    + destruct (onResolved_heap r a model w) as (d & Hh & _). by eexists.
    + intros t Ht. rewrite onResolved_timers. apply elem_of_app. by left.
  - destruct (running r w) as [a|] eqn:Hr; [|done]. injection Hstep as <-.
    unfold onRejected.
    eapply settlement_awaited; [exact Hr| | |exact (catch_promises r (settled a) e w)|exact Hw].
    + eexists. apply catch_heap.
    + intros t Ht. rewrite catch_timers. apply elem_of_app. by left.
  - destruct (timers w !! i) as [t|] eqn:Hi; [|done]. cbn in Hstep.
    destruct (due_of t <=? clock w)%Z; [|done].
    destruct t as [due id|due id p].
    + injection Hstep as <-. intros q Hq.
      eapply (awaited_mono q w); [| |by apply Hw]; [by eauto|].
      intros due0 id0 Hin. cbn. by eapply elem_of_delete_other.
    + eapply checkStatus_awaited; [exact Hstep|].
      intros q Hne Hq. eapply (awaited_mono q w); [| |by apply Hw]; [by eauto|].
      intros due0 id0 Hin. cbn. eapply elem_of_delete_other; [done| |done].
      congruence.
  - destruct (0 <=? dt)%Z; [|done]. injection Hstep as <-. done.
Qed.

(** No promise is left behind.  In every state the manager reaches, each
    promise of [downloadModel] that is not settled yet has something pending
    for it: a fetch in flight whose call returned it, or a poll of its
    waiting loop.  What is pending does settle it when it comes: the end of
    that fetch, resolved or rejected, settles the promise; and that poll,
    once due, settles the promise unless the record stored for the identity
    has its fetch still in flight, in which case the promise stays unsettled
    and the next poll is armed. *)
Theorem unsettled_promise_is_awaited evs : ∀ w p,
  run initial evs = Some w → promises w !! p = Some Unsettled →
  awaited p w ∧
  (∀ r a, running r w = Some a → caller a = p →
     (∀ model, ∃ w' o, step w (Settles r model) = Some w' ∧
                       promises w' !! p = Some o ∧ o ≠ Unsettled) ∧
     (∀ e, ∃ w' o, step w (Fails r e) = Some w' ∧
                   promises w' !! p = Some o ∧ o ≠ Unsettled)) ∧
  (∀ i due id, timers w !! i = Some (Poll due id p) → (due <= clock w)%Z →
     ∃ w', step w (Fires i) = Some w' ∧
           ((∃ o, promises w' !! p = Some o ∧ o ≠ Unsettled) ∨
            (∃ r a, activeDownloads w !! id = Some r ∧ running r w = Some a ∧
                    promises w' !! p = Some Unsettled ∧ awaited p w'))).
Proof.
  assert (∀ w0 w, (∀ q, promises w0 !! q = Some Unsettled → awaited q w0) →
            run w0 evs = Some w →
            ∀ q, promises w !! q = Some Unsettled → awaited q w) as Hgen.
  { induction evs as [|ev evs IH]; intros w0 w H0 Hrun; cbn in Hrun.
    - by injection Hrun as <-.
    - destruct (step w0 ev) as [w1|] eqn:Hstep; [|done]. cbn in Hrun.
      eapply IH; [|exact Hrun]. by eapply step_awaited. }
  intros w p Hrun Hp. split; [|split].
  - eapply Hgen; [|exact Hrun|exact Hp].
    intros q Hq. cbn in Hq. by rewrite lookup_nil in Hq.
  - intros r a Hr <-. split.
    + intros model. cbn. rewrite Hr. cbn.
      destruct (onResolved_promises r a model w) as (o & Ho & Hps).
      exists (onResolved r a model w), o. split; [done|].
      rewrite Hps. split; [by apply settle_unsettled|done].
    + intros e. cbn. rewrite Hr. cbn. unfold onRejected.
      destruct (catch_promises r (settled a) e w) as (o & Ho & Hps).
      exists (catch r (settled a) e w), o. split; [done|].
      rewrite Hps. split; [by apply settle_unsettled|done].
  - intros i due id Hi Hdue. cbn. rewrite Hi. cbn.
    apply Z.leb_le in Hdue. rewrite Hdue.
    pose proof (reachable_consistent _ _ Hrun) as Hc.
    set (w0 := set_timers (delete i (timers w)) w).
    assert (∀ o, o ≠ Unsettled →
              ∃ o', promises (settle p o w0) !! p = Some o' ∧ o' ≠ Unsettled) as Hset.
    { intros o Ho. exists o. split; [by apply settle_unsettled|done]. }
    destruct (activeDownloads w !! id) as [r|] eqn:Hr.
    + destruct (cons_refs _ Hc _ _ Hr) as (a & Ha & Hid).
      erewrite (checkStatus_present id p w0 r a) by done.
      eexists. split; [done|].
      pose proof (cons_status _ Hc _ _ Ha) as Hs.
      destruct (status (progressData a)) eqn:Est; try (left; by apply Hset).
      all: right; exists r, a; split; [done|].
      all: destruct (awaiting a) eqn:Haw; [|done].
      all: split; [unfold running; rewrite Ha; cbn; by rewrite Haw|].
      all: split; [done|].
      all: right; exists (clock w + 100)%Z, id; cbn; apply elem_of_app; right; by left.
    + rewrite (checkStatus_absent id p w0) by done.
      eexists. split; [done|]. left. by apply Hset.
Qed.

Lemma unsettled_promise_is_awaited_witness :
  ∃ w, run initial joined = Some w ∧ promises w !! 1 = Some Unsettled ∧ awaited 1 w ∧
       ∃ w', step w (Fires 0) = Some w' ∧ promises w' !! 1 = Some Unsettled ∧ awaited 1 w'.
Proof.
  eexists.
  match goal with
  | |- run ?w0 ?evs = Some ?w ∧ ?A ∧ _ =>
      assert (run w0 evs = Some w) as Hrun by (by vm_compute);
      assert A as Hp by (by vm_compute)
  end.
  split; [exact Hrun|]. split; [exact Hp|].
  destruct (unsettled_promise_is_awaited _ _ _ Hrun Hp) as (Haw & _ & Hpoll).
  split; [exact Haw|].
  destruct (Hpoll 0 100%Z "m" ltac:(by vm_compute) ltac:(by vm_compute))
    as (w' & Hstep & [(o & Ho & Hne)|(r & a & _ & _ & Hu & Haw')]).
  - exfalso. pose proof Hstep as Hw'. vm_compute in Hw'. injection Hw' as Hw'.
    rewrite <- Hw' in Ho. vm_compute in Ho. injection Ho as <-. done.
  - by exists w'.
Defined.

(** * The promise of a requester and the promises of the joiners *)

Lemma settle_length p o w : length (promises (settle p o w)) = length (promises w).
Proof. unfold settle. repeat case_match; try done. cbn. by rewrite length_insert. Qed.

Lemma accounted_initial : accounted initial.
Proof.
  split; cbn.
  - intros r a H. by rewrite lookup_nil in H.
  - intros r r' a a' H. by rewrite lookup_nil in H.
  - intros p H. by apply elem_of_nil in H.
  - constructor.
Qed.

(** The invariant looks at the heap, the promises and the polls only. *)
Lemma accounted_fields w w' :
  heap w' = heap w → promises w' = promises w →
  waiting w' `sublist_of` waiting w →
  accounted w → accounted w'.
Proof.
  intros Hh Hp Ht [H1 H2 H3 H4]. split; rewrite ?Hh, ?Hp; auto.
  - intros p Hin. apply H3. by eapply elem_of_sublist.
  - by eapply sublist_NoDup.
Qed.

Lemma sublist_omap {A B} (f : A → option B) (l1 l2 : list A) :
  l1 `sublist_of` l2 → omap f l1 `sublist_of` omap f l2.
Proof.
  induction 1 as [|x l1 l2 _ IH|x l1 l2 _ IH]; cbn.
  - constructor.
  - destruct (f x); [by constructor|done].
  - destruct (f x); [by constructor|done].
Qed.

Lemma waiting_setTimeout t w :
  waiting (setTimeout t w) = waiting w ++ from_option (λ p, [p]) [] (polled t).
Proof. unfold waiting. cbn. rewrite omap_app. cbn. by destruct (polled t). Qed.

Lemma waiting_delete ts i due id p :
  ts !! i = Some (Poll due id p) →
  ∃ l1 l2, omap polled ts = l1 ++ p :: l2 ∧ omap polled (delete i ts) = l1 ++ l2.
Proof.
  intros Hi. exists (omap polled (take i ts)), (omap polled (drop (S i) ts)).
  rewrite delete_take_drop, omap_app. split; [|done].
  rewrite <- (take_drop_middle ts i _ Hi) at 1. by rewrite omap_app.
Qed.

Lemma accounted_caller_lt w r a :
  accounted w → heap w !! r = Some a → caller a < length (promises w).
Proof.
  intros Hw Hr. destruct (acc_callers _ Hw _ _ Hr) as (o & Ho & _).
  by eapply lookup_lt_Some.
Qed.

Lemma accounted_waiting_lt w p :
  accounted w → p ∈ waiting w → p < length (promises w).
Proof.
  intros Hw Hp. destruct (acc_polls _ Hw _ Hp) as [Ho _]. by eapply lookup_lt_Some.
Qed.

(** A new promise. *)
Lemma accounted_push w :
  accounted w → accounted (set_promises (promises w ++ [Unsettled]) w).
Proof.
  intros [H1 H2 H3 H4]. split; cbn; [|done| |done].
  - intros r a Hr. destruct (H1 _ _ Hr) as (o & Ho & Hf).
    exists o. split; [by apply lookup_app_l_Some|done].
  - intros p Hin. destruct (H3 _ Hin) as [Ho Hc].
    split; [by apply lookup_app_l_Some|done].
Qed.

(** The promise of a joiner settles. *)
Lemma accounted_settle p o w :
  accounted w → p ∉ waiting w →
  (∀ r a, heap w !! r = Some a → caller a ≠ p) →
  accounted (settle p o w).
Proof.
  intros [H1 H2 H3 H4] Hp Hc.
  split; unfold waiting; rewrite ?settle_heap, ?settle_timers; [|done| |done].
  - intros r a Hr. rewrite settle_other by by eapply Hc. by eapply H1.
  - intros q Hin. rewrite settle_other by (intros ->; by apply Hp). by apply H3.
Qed.

(** The next poll of a joiner is armed. *)
Lemma accounted_poll due id p w :
  accounted w → p ∉ waiting w → promises w !! p = Some Unsettled →
  (∀ r a, heap w !! r = Some a → caller a ≠ p) →
  accounted (setTimeout (Poll due id p) w).
Proof.
  intros [H1 H2 H3 H4] Hp Ho Hc. split; rewrite ?waiting_setTimeout; cbn; [done|done| |].
  - intros q Hin. apply elem_of_app in Hin as [Hin|Hin]; [auto|].
    apply list_elem_of_singleton in Hin as ->. done.
  - apply NoDup_app. split; [done|]. split; [|apply NoDup_singleton].
    intros q Hq Hin. apply list_elem_of_singleton in Hin as ->. done.
Qed.

Lemma accounted_checkStatus id p w w' :
  accounted w → p ∉ waiting w → promises w !! p = Some Unsettled →
  (∀ r a, heap w !! r = Some a → caller a ≠ p) →
  checkStatus id p w = Some w' → accounted w'.
Proof.
  intros Hw Hp Ho Hc H. unfold checkStatus in H.
  destruct (activeDownloads w !! id) as [r|]; cbn in H.
  - destruct (heap w !! r) as [a|]; [|done]. cbn in H.
    destruct (status (progressData a)); injection H as <-;
      auto using accounted_settle, accounted_poll.
  - injection H as <-. by apply accounted_settle.
Qed.

(** A record is created. *)
Lemma accounted_start id task cb w :
  accounted w →
  accounted (startDownload id task cb (length (promises w))
               (set_promises (promises w ++ [Unsettled]) w)).
Proof.
  intros Hw. pose proof Hw as [H1 H2 H3 H4].
  assert (heap (startDownload id task cb (length (promises w))
                  (set_promises (promises w ++ [Unsettled]) w)) =
          heap w ++ [mkActivation (fresh id) 0 (clock w) (length (promises w)) true]) as Hh
    by by destruct cb.
  assert (promises (startDownload id task cb (length (promises w))
                  (set_promises (promises w ++ [Unsettled]) w)) =
          promises w ++ [Unsettled]) as Hp by by destruct cb.
  assert (waiting (startDownload id task cb (length (promises w))
                  (set_promises (promises w ++ [Unsettled]) w)) = waiting w) as Ht
    by by destruct cb.
  split; rewrite ?Hh, ?Hp, ?Ht; [| | |done].
  - intros r a Hr. apply lookup_app_Some in Hr as [Hr|[_ Hr]].
    + destruct (H1 _ _ Hr) as (o & Ho & Hf).
      exists o. split; [by apply lookup_app_l_Some|done].
    + apply list_lookup_singleton_Some in Hr as [_ <-]. cbn.
      exists Unsettled. split; [by apply list_lookup_middle|done].
  - intros r r' a a' Hr Hr' Hc.
    apply lookup_app_Some in Hr as [Hr|[Hge Hr]];
      apply lookup_app_Some in Hr' as [Hr'|[Hge' Hr']].
    + by eapply H2.
    + apply list_lookup_singleton_Some in Hr' as [_ <-]. cbn in Hc.
      pose proof (accounted_caller_lt _ _ _ Hw Hr). lia.
    + apply list_lookup_singleton_Some in Hr as [_ <-]. cbn in Hc.
      pose proof (accounted_caller_lt _ _ _ Hw Hr'). lia.
    + apply list_lookup_singleton_Some in Hr as [Hr _].
      apply list_lookup_singleton_Some in Hr' as [Hr' _]. lia.
  - intros p Hin. destruct (H3 _ Hin) as [Ho Hc].
    split; [by apply lookup_app_l_Some|].
    intros r a Hr. apply lookup_app_Some in Hr as [Hr|[_ Hr]]; [by eapply Hc|].
    apply list_lookup_singleton_Some in Hr as [_ <-]. cbn.
    pose proof (accounted_waiting_lt _ _ Hw Hin). lia.
Qed.

(** A sample is recorded. *)
Lemma accounted_update w r a a' :
  heap w !! r = Some a → caller a' = caller a →
  status (progressData a') = status (progressData a) →
  accounted w → accounted (set_heap (<[r := a']> (heap w)) w).
Proof.
  intros Hr Hc Hs [H1 H2 H3 H4].
  assert (∀ r0 a0, <[r := a']> (heap w) !! r0 = Some a0 →
            ∃ a1, heap w !! r0 = Some a1 ∧ caller a0 = caller a1 ∧
                  status (progressData a0) = status (progressData a1)) as Hold.
  { intros r0 a0 H0. destruct (decide (r0 = r)) as [->|Hne].
    - rewrite list_lookup_insert_eq in H0 by by eapply lookup_lt_Some.
      injection H0 as <-. by exists a.
    - rewrite list_lookup_insert_ne in H0 by done. by exists a0. }
  split; cbn; [| | |done].
  - intros r0 a0 H0. destruct (Hold _ _ H0) as (a1 & Ha1 & -> & ->). by eapply H1.
  - intros r0 r1 a0 a1 H0 Hr1 Heq.
    destruct (Hold _ _ H0) as (b0 & Hb0 & E0 & _).
    destruct (Hold _ _ Hr1) as (b1 & Hb1 & E1 & _).
    eapply H2; [done|done|congruence].
  - intros p Hin. destruct (H3 _ Hin) as [Ho Hcl]. split; [done|].
    intros r0 a0 H0. destruct (Hold _ _ H0) as (a1 & Ha1 & -> & _). by eapply Hcl.
Qed.

(** The fetch of a download is over: its record becomes terminal and the
    promise of its requester settles to match. *)
Lemma accounted_settlement w r a a' o :
  heap w !! r = Some a → caller a' = caller a →
  outcome_fits (status (progressData a')) o →
  accounted w →
  accounted (set_promises (<[caller a := o]> (promises w))
               (set_heap (<[r := a']> (heap w)) w)).
Proof.
  intros Hr Hc Hf Hw. pose proof Hw as [H1 H2 H3 H4].
  pose proof (accounted_caller_lt _ _ _ Hw Hr) as Hlt.
  split; cbn; [| | |done].
  - intros r0 a0 H0. destruct (decide (r0 = r)) as [->|Hne].
    + rewrite list_lookup_insert_eq in H0 by by eapply lookup_lt_Some.
      injection H0 as <-. exists o. rewrite Hc.
      split; [by apply list_lookup_insert_eq|done].
    + rewrite list_lookup_insert_ne in H0 by done.
      rewrite list_lookup_insert_ne; [by eapply H1|].
      intros E. apply Hne. symmetry. by eapply H2.
  - intros r0 r1 a0 a1 H0 Hr1 Heq.
    assert (∀ r2 a2, <[r := a']> (heap w) !! r2 = Some a2 →
              ∃ a3, heap w !! r2 = Some a3 ∧ caller a2 = caller a3) as Hold.
    { intros r2 a2 H2'. destruct (decide (r2 = r)) as [->|Hne].
      - rewrite list_lookup_insert_eq in H2' by by eapply lookup_lt_Some.
        injection H2' as <-. by exists a.
      - rewrite list_lookup_insert_ne in H2' by done. by exists a2. }
    destruct (Hold _ _ H0) as (b0 & Hb0 & E0).
    destruct (Hold _ _ Hr1) as (b1 & Hb1 & E1).
    eapply H2; [done|done|congruence].
  - intros p Hin. destruct (H3 _ Hin) as [Ho Hcl].
    split.
    + rewrite list_lookup_insert_ne; [done|]. by eapply Hcl.
    + intros r0 a0 H0. destruct (decide (r0 = r)) as [->|Hne].
      * rewrite list_lookup_insert_eq in H0 by by eapply lookup_lt_Some.
        injection H0 as <-. rewrite Hc. by eapply Hcl.
      * rewrite list_lookup_insert_ne in H0 by done. by eapply Hcl.
Qed.

Lemma catch_outcome r a e w :
  promises w !! caller a = Some Unsettled →
  ∃ v, heap (catch r a e w) = <[r := with_data (error_record e (progressData a)) a]> (heap w) ∧
       promises (catch r a e w) = <[caller a := Rejected v]> (promises w).
Proof.
  intros Hp. unfold catch. rewrite notifyProgress_result. cbn.
  unfold settle. cbn. rewrite Hp. cbn. by eexists.
Qed.

Lemma onResolved_outcome r a model w :
  promises w !! caller a = Some Unsettled →
  ∃ a' o, heap (onResolved r a model w) = <[r := a']> (heap w) ∧
          caller a' = caller a ∧
          promises (onResolved r a model w) = <[caller a := o]> (promises w) ∧
          outcome_fits (status (progressData a')) o.
Proof.
  intros Hp. unfold onResolved. rewrite notifyProgress_result.
  destruct (snd (forEach _ _)) as [e|].
  - match goal with
    | |- context [catch r ?a1 e ?w1] =>
        destruct (catch_outcome r a1 e w1) as (v & Hh & Hps); [exact Hp|]
    end.
    rewrite Hh, Hps. cbn. rewrite list_insert_insert_eq.
    do 2 eexists. split; [done|]. cbn. split; [done|]. split; [done|]. by eexists.
  - unfold settle. cbn. rewrite Hp. cbn.
    do 2 eexists. split; [done|]. cbn. split; [done|]. split; [done|]. by eexists.
Qed.

Lemma waiting_evict_timer ts due id : omap polled (ts ++ [Evict due id]) = omap polled ts.
Proof. rewrite omap_app. cbn. by rewrite app_nil_r. Qed.

Lemma step_accounted w ev w' :
  consistent w → accounted w → step w ev = Some w' → accounted w'.
Proof.
  intros Hc Hw.
  destruct ev as [id task cb|r raw|r model|r e|i|dt]; cbn; intros H.
  - unfold downloadModel in H.
    destruct (joins id w) as [[]|]; cbn in H; [| |done].
    + eapply accounted_checkStatus; [| | | |exact H].
      * eapply (accounted_fields (set_promises (promises w ++ [Unsettled]) w));
          [by destruct cb|by destruct cb|by destruct cb|by apply accounted_push].
      * intros Hin.
        assert (length (promises w) ∈ waiting w) as Hin' by by destruct cb.
        pose proof (accounted_waiting_lt _ _ Hw Hin'). lia.
      * assert ((promises w ++ [Unsettled]) !! length (promises w) = Some Unsettled)
          by by apply list_lookup_middle.
        by destruct cb.
      * intros r a Hr Heq.
        assert (heap w !! r = Some a) as Hr' by by destruct cb.
        pose proof (accounted_caller_lt _ _ _ Hw Hr'). lia.
    + injection H as <-. by apply accounted_start.
  - destruct (running r w) as [a|] eqn:Hr; [|done]. cbn in H.
    apply running_Some in Hr as [Hr Haw].
    destruct (progressTracker _ _ _) as [a'|] eqn:Ht; injection H as <-; [|done].
    apply progressTracker_keeps in Ht as (Hs & _ & _ & Hcl & _).
    rewrite notifyProgress_result. cbn.
    eapply (accounted_fields (set_heap (<[r := a']> (heap w)) w)); [done|done|done|].
    by eapply accounted_update.
  - destruct (running r w) as [a|] eqn:Hr; [|done]. injection H as <-.
    apply running_Some in Hr as [Hr Haw].
    pose proof (cons_status _ Hc _ _ Hr) as Hs. rewrite Haw in Hs.
    destruct (acc_callers _ Hw _ _ Hr) as (o & Ho & Hf). rewrite Hs in Hf. cbn in Hf. subst o.
    destruct (onResolved_outcome r a model w Ho) as (a' & o & Hh & Hcl & Hps & Hf).
    eapply (accounted_fields (set_promises (<[caller a := o]> (promises w))
                                (set_heap (<[r := a']> (heap w)) w))); [done|done| |].
    + unfold waiting. rewrite onResolved_timers. cbn. by rewrite waiting_evict_timer.
    + by eapply accounted_settlement.
  - destruct (running r w) as [a|] eqn:Hr; [|done]. injection H as <-.
    apply running_Some in Hr as [Hr Haw].
    pose proof (cons_status _ Hc _ _ Hr) as Hs. rewrite Haw in Hs.
    destruct (acc_callers _ Hw _ _ Hr) as (o & Ho & Hf). rewrite Hs in Hf. cbn in Hf. subst o.
    unfold onRejected.
    destruct (catch_outcome r (settled a) e w Ho) as (v & Hh & Hps).
    eapply (accounted_fields (set_promises (<[caller a := Rejected v]> (promises w))
              (set_heap (<[r := with_data (error_record e (progressData a)) (settled a)]>
                           (heap w)) w))); [done|done| |].
    + unfold waiting. rewrite catch_timers. cbn. by rewrite waiting_evict_timer.
    + eapply accounted_settlement; [done|done| |done]. by eexists.
  - destruct (timers w !! i) as [t|] eqn:Hi; [|done]. cbn in H.
    destruct (due_of t <=? clock w)%Z; [|done].
    assert (accounted (set_timers (delete i (timers w)) w)) as Hw1.
    { eapply (accounted_fields w); [done|done| |exact Hw].
      unfold waiting. cbn. apply sublist_omap, sublist_delete. }
    destruct t as [due id|due id p].
    + injection H as <-.
      eapply (accounted_fields (set_timers (delete i (timers w)) w)); [| | |exact Hw1]; done.
    + destruct (waiting_delete _ _ _ _ _ Hi) as (l1 & l2 & E1 & E2).
      assert (p ∈ waiting w) as Hin.
      { unfold waiting. rewrite E1. apply elem_of_app. right. by left. }
      destruct (acc_polls _ Hw _ Hin) as [Ho Hcl].
      eapply accounted_checkStatus; [exact Hw1| | | |exact H]; [|done|done].
      unfold waiting. cbn. rewrite E2.
      pose proof (acc_once _ Hw) as Hnd. unfold waiting in Hnd. rewrite E1 in Hnd.
      apply NoDup_app in Hnd as (_ & Hnd1 & Hnd2).
      apply NoDup_cons in Hnd2 as [Hnd2 _].
      intros Hin'. apply elem_of_app in Hin' as [Hin'|Hin']; [|done].
      apply (Hnd1 _ Hin'). by left.
  - destruct (0 <=? dt)%Z; [|done]. injection H as <-.
    eapply (accounted_fields w); [| | |exact Hw]; done.
Qed.

Lemma run_accounted evs : ∀ w w',
  run w evs = Some w' → consistent w → accounted w → consistent w' ∧ accounted w'.
Proof.
  induction evs as [|ev evs IH]; intros w w' H Hc Hw; cbn in H.
  - by injection H as <-.
  - destruct (step w ev) as [w1|] eqn:Hstep; [|done]. cbn in H.
    eapply IH; [exact H|by eapply step_consistent|by eapply step_accounted].
Qed.

Lemma reachable_accounted evs w : run initial evs = Some w → accounted w.
Proof.
  intros H. eapply run_accounted; [exact H|apply consistent_initial|apply accounted_initial].
Qed.

(** A record keeps its place in the heap, its identity and the promise of the
    call that created it. *)
Lemma step_identity w ev w' r a :
  step w ev = Some w' → heap w !! r = Some a →
  ∃ a', heap w' !! r = Some a' ∧ caller a' = caller a ∧
        modelId (progressData a') = modelId (progressData a).
Proof.
  intros H Hr.
  assert (∀ r0 a0 a1, heap w !! r0 = Some a0 → caller a1 = caller a0 →
            modelId (progressData a1) = modelId (progressData a0) →
            ∃ a', <[r0 := a1]> (heap w) !! r = Some a' ∧ caller a' = caller a ∧
                  modelId (progressData a') = modelId (progressData a)) as Hins.
  { intros r0 a0 a1 H0 Hc Hid. destruct (decide (r = r0)) as [->|Hne].
    - exists a1. rewrite list_lookup_insert_eq by by eapply lookup_lt_Some.
      split; [done|]. rewrite H0 in Hr. injection Hr as <-. done.
    - exists a. by rewrite list_lookup_insert_ne. }
  destruct ev as [id task cb|r0 raw|r0 model|r0 e|i|dt]; cbn in H.
  - unfold downloadModel in H.
    destruct (joins id w) as [[]|]; cbn in H; [| |done].
    + apply checkStatus_same in H as (_ & Hh & _). exists a. rewrite Hh.
      split; [by destruct cb|done].
    + injection H as <-. exists a. split; [|done].
      unfold startDownload. destruct cb; cbn; by apply lookup_app_l_Some.
  - destruct (running r0 w) as [a0|] eqn:Hr0; [|done]. cbn in H.
    apply running_Some in Hr0 as [Hr0 _].
    destruct (progressTracker _ _ _) as [a'|] eqn:Ht; injection H as <-; [|by exists a].
    apply progressTracker_keeps in Ht as (_ & Hid & _ & Hcl & _).
    rewrite notifyProgress_result. cbn. by eapply Hins.
  - destruct (running r0 w) as [a0|] eqn:Hr0; [|done]. injection H as <-.
    apply running_Some in Hr0 as [Hr0 _].
    destruct (onResolved_heap r0 a0 model w) as (d & Hh & _ & Hid).
    rewrite Hh. by eapply Hins.
  - destruct (running r0 w) as [a0|] eqn:Hr0; [|done]. injection H as <-.
    apply running_Some in Hr0 as [Hr0 _].
    unfold onRejected. rewrite catch_heap. by eapply Hins.
  - destruct (timers w !! i) as [t|]; [|done]. cbn in H.
    destruct (due_of t <=? clock w)%Z; [|done].
    destruct t; [injection H as <-; by exists a|].
    apply checkStatus_same in H as (_ & Hh & _). exists a. by rewrite Hh.
  - destruct (0 <=? dt)%Z; [|done]. injection H as <-. by exists a.
Qed.

Lemma run_identity evs : ∀ w w' r a,
  run w evs = Some w' → heap w !! r = Some a →
  ∃ a', heap w' !! r = Some a' ∧ caller a' = caller a ∧
        modelId (progressData a') = modelId (progressData a).
Proof.
  induction evs as [|ev evs IH]; intros w w' r a H Hr; cbn in H.
  - injection H as <-. by exists a.
  - destruct (step w ev) as [w1|] eqn:Hstep; [|done]. cbn in H.
    destruct (step_identity _ _ _ _ _ Hstep Hr) as (a1 & Hr1 & Hc1 & Hid1).
    destruct (IH _ _ _ _ H Hr1) as (a' & Hr' & Hc' & Hid').
    exists a'. split; [done|]. split; congruence.
Qed.

(** While the fetch of a download is in flight the promise of its requester
    is unsettled. *)
Lemma running_unsettled w r a :
  consistent w → accounted w → running r w = Some a →
  promises w !! caller a = Some Unsettled.
Proof.
  intros Hc Hw Hrun. apply running_Some in Hrun as [Hr Haw].
  pose proof (cons_status _ Hc _ _ Hr) as Hs. rewrite Haw in Hs.
  destruct (acc_callers _ Hw _ _ Hr) as (o & Ho & Hf). rewrite Hs in Hf. cbn in Hf. by subst o.
Qed.

(** What the requester of a download is handed when its fetch is over and no
    subscriber throws. *)
Lemma requester_outcome w r a :
  consistent w → accounted w → running r w = Some a →
  let id := modelId (progressData a) in
  (∀ model,
     Forall (fun cb => cb_body cb (completed_record (progressData a)) = None)
       (subscribers id w) →
     ∃ w1, step w (Settles r model) = Some w1 ∧
           promises w1 !! caller a = Some (Resolved model) ∧
           heap w1 !! r = Some (settled (with_data (completed_record (progressData a)) a))) ∧
  (∀ e,
     Forall (fun cb => cb_body cb (error_record e (progressData a)) = None)
       (subscribers id w) →
     ∃ w1, step w (Fails r e) = Some w1 ∧
           promises w1 !! caller a = Some (Rejected e) ∧
           heap w1 !! r = Some (settled (with_data (error_record e (progressData a)) a))).
Proof.
  intros Hc Hw Hrun id.
  pose proof (running_unsettled _ _ _ Hc Hw Hrun) as Hp.
  destruct (running_Some _ _ _ Hrun) as [Hr _].
  assert (r < length (heap w)) as Hlt by by eapply lookup_lt_Some.
  assert (caller a < length (promises w)) as Hclt by by eapply lookup_lt_Some.
  split.
  - intros model Hq.
    destruct (Settles_quiet w r a model Hrun Hq Hp) as (w1 & H1 & _ & Hh & _ & _ & _ & Hps & _).
    exists w1. split; [done|]. rewrite Hps, Hh.
    by rewrite !list_lookup_insert_eq.
  - intros e Hq.
    destruct (Fails_quiet w r a e Hrun Hq Hp) as (w1 & H1 & _ & Hh & _ & _ & _ & Hps & _).
    exists w1. split; [done|]. rewrite Hps, Hh.
    by rewrite !list_lookup_insert_eq.
Qed.

Lemma run_app evs1 : ∀ evs2 w w1 w2,
  run w evs1 = Some w1 → run w1 evs2 = Some w2 → run w (evs1 ++ evs2) = Some w2.
Proof.
  induction evs1 as [|ev evs1 IH]; intros evs2 w w1 w2 H1 H2; cbn in *.
  - by injection H1 as ->.
  - destruct (step w ev) as [w0|]; [|done]. cbn in *. by eapply IH.
Qed.

(** ** Requests that find a terminal record *)

(** C3, as the code has it.  A call that finds the record of its identity in a
    terminal status does not join it: it invokes [pipeline] again, replaces the
    record by a fresh one in status ['downloading'] with all counters at zero,
    and arms no poll; the promise it returns is the one of the activation that
    awaits the new fetch.  In the states the manager reaches, that promise is
    unsettled as long as the new fetch is in flight, and it is settled with
    the outcome of the new fetch: resolved with the model the fetch resolves
    with, rejected with the value the fetch rejects with (no subscriber
    throwing). *)
Theorem request_on_terminal_record_starts_fetch id task cb w r a :
  activeDownloads w !! id = Some r → heap w !! r = Some a →
  terminal (status (progressData a)) = true →
  let p := length (promises w) in
  let r' := length (heap w) in
  ∃ w', downloadModel id task cb w = Some w' ∧
        pipelineCalls w' = pipelineCalls w ++ [(task, id)] ∧
        getProgress id w' = Some (fresh id) ∧
        activeDownloads w' !! id = Some r' ∧
        promises w' = promises w ++ [Unsettled] ∧
        timers w' = timers w ∧
        running r' w' = Some (mkActivation (fresh id) 0 (clock w) p true) ∧
        ∀ evs0 evs w2 a2,
          run initial evs0 = Some w → run w' evs = Some w2 →
          running r' w2 = Some a2 →
          caller a2 = p ∧ modelId (progressData a2) = id ∧
          promises w2 !! p = Some Unsettled ∧
          (∀ model,
             Forall (fun c => cb_body c (completed_record (progressData a2)) = None)
               (subscribers id w2) →
             ∃ w3, step w2 (Settles r' model) = Some w3 ∧
                   promises w3 !! p = Some (Resolved model)) ∧
          (∀ e,
             Forall (fun c => cb_body c (error_record e (progressData a2)) = None)
               (subscribers id w2) →
             ∃ w3, step w2 (Fails r' e) = Some w3 ∧
                   promises w3 !! p = Some (Rejected e)).
Proof.
  intros Hr Ha Ht p r'.
  assert (joins id w = Some false) as Hj.
  { unfold joins. rewrite Hr. cbn. rewrite Ha. cbn.
    by destruct (status (progressData a)). }
  pose proof (downloadModel_starts id task cb w Hj) as Hd.
  eexists. split; [exact Hd|].
  rewrite startDownload_getProgress.
  assert (running r' (startDownload id task cb p
            (set_promises (promises w ++ [Unsettled]) w)) =
          Some (mkActivation (fresh id) 0 (clock w) p true)) as Hrun'.
  { unfold running, startDownload. destruct cb; cbn.
    all: by rewrite list_lookup_middle. }
  do 6 (split; [unfold startDownload; destruct cb; cbn; by rewrite ?lookup_insert_eq|]).
  intros evs0 evs w2 a2 Hrun0 Hrun Hrun2.
  assert (run initial (evs0 ++ Call id task cb :: evs) = Some w2) as Hreach.
  { eapply run_app; [exact Hrun0|]. cbn. rewrite Hd. exact Hrun. }
  pose proof (reachable_consistent _ _ Hreach) as Hc2.
  pose proof (reachable_accounted _ _ Hreach) as Hw2.
  destruct (running_Some _ _ _ Hrun') as [Hr' _].
  destruct (run_identity _ _ _ _ _ Hrun Hr') as (a2' & Hr2 & Hcl & Hid).
  destruct (running_Some _ _ _ Hrun2) as [Hr2' _].
  rewrite Hr2' in Hr2. injection Hr2 as <-. cbn in Hcl, Hid.
  pose proof (running_unsettled _ _ _ Hc2 Hw2 Hrun2) as Hp. rewrite Hcl in Hp.
  destruct (requester_outcome _ _ _ Hc2 Hw2 Hrun2) as [Hres Hrej].
  rewrite Hid, Hcl in Hres, Hrej.
  split; [done|]. split; [done|]. split; [done|]. split.
  - intros model Hq. destruct (Hres model Hq) as (w3 & H3 & Hp3 & _). by exists w3.
  - intros e Hq. destruct (Hrej e Hq) as (w3 & H3 & Hp3 & _). by exists w3.
Qed.

Lemma request_on_terminal_record_starts_fetch_witness :
  ∃ w, run initial grace_window = Some w ∧
       activeDownloads w !! "m" = Some 0 ∧
       ∃ w', downloadModel "m" "text-generation" (Some (quiet 1)) w = Some w' ∧
             pipelineCalls w' = pipelineCalls w ++ [("text-generation", "m")] ∧
             getProgress "m" w' = Some (fresh "m") ∧
             promises w' = promises w ++ [Unsettled] ∧
             (caller <$> running 1 w') = Some 1 ∧
             ∃ w3, step w' (Settles 1 (JsModel 9)) = Some w3 ∧
                   promises w3 !! 1 = Some (Resolved (JsModel 9)).
Proof.
  eexists.
  match goal with
  | |- run ?w0 ?evs = Some ?w ∧ _ =>
      assert (run w0 evs = Some w) as Hrun by (by vm_compute)
  end.
  split; [exact Hrun|]. split; [by vm_compute|].
  match type of Hrun with
  | _ = Some ?w =>
      edestruct (request_on_terminal_record_starts_fetch
                   "m" "text-generation" (Some (quiet 1)) w 0)
        as (w' & Hd & Hpc & Hg & _ & Hps & _ & Hr' & Hlater);
        [by vm_compute|by vm_compute|by vm_compute|]
  end.
  exists w'. split; [exact Hd|]. split; [exact Hpc|]. split; [exact Hg|].
  split; [exact Hps|]. split; [exact (f_equal (fmap caller) Hr')|].
  destruct (Hlater _ [] w' _ Hrun eq_refl Hr') as (_ & _ & _ & Hres & _).
  apply Hres. pose proof Hd as Hw'. vm_compute in Hw'. injection Hw' as <-.
  vm_compute. by repeat constructor.
Defined.

(** C3, as stated, fails: in the grace window after a completed download the
    record is terminal, and the next request starts a second fetch instead of
    being handed the recorded outcome: no poll is armed for it, and when the
    second fetch fails the request is rejected although the record it found
    was ['completed']. *)
Lemma request_in_grace_window_refetches :
  ∃ w w' w'', run initial grace_window = Some w ∧
          (status <$> getProgress "m" w) = Some StCompleted ∧
          step w (Call "m" "text-generation" (Some (quiet 1))) = Some w' ∧
          length (pipelineCalls w) = 1 ∧ length (pipelineCalls w') = 2 ∧
          (status <$> getProgress "m" w') = Some StDownloading ∧
          promises w' !! 1 = Some Unsettled ∧
          timers w' = timers w ∧
          step w' (Fails 1 (JsError "offline")) = Some w'' ∧
          promises w'' !! 1 = Some (Rejected (JsError "offline")).
Proof.
  do 3 eexists. split; [by vm_compute|]. split; [by vm_compute|].
  split; [by vm_compute|]. do 5 (split; [by vm_compute|]).
  split; by vm_compute.
Qed.

(** ** The polls of a joiner *)

Lemma waiting_settle p o w : waiting (settle p o w) = waiting w.
Proof. unfold waiting. by rewrite settle_timers. Qed.

Lemma joins_false id w : joins id w = Some false → isDownloading id w = false.
Proof.
  unfold joins, isDownloading, getProgress.
  destruct (activeDownloads w !! id) as [r|]; [|done]. cbn.
  destruct (heap w !! r) as [a|]; [|done]. cbn.
  by destruct (status (progressData a)).
Qed.

(** The entry of an identity changes in two ways only: a call for the
    identity that starts a download stores a new record, and an eviction
    timer of the identity removes the entry. *)
Lemma step_entry w ev w' id :
  step w ev = Some w' →
  activeDownloads w' !! id = activeDownloads w !! id ∨
  (∃ task cb, ev = Call id task cb ∧ isDownloading id w = false ∧
              activeDownloads w' !! id = Some (length (heap w))) ∨
  (∃ j due, ev = Fires j ∧ timers w !! j = Some (Evict due id) ∧
            activeDownloads w' !! id = None).
Proof.
  destruct ev as [id0 task cb|r raw|r model|r e|i|dt]; cbn; intros H.
  - unfold downloadModel in H.
    destruct (joins id0 w) as [[]|] eqn:Hj; cbn in H; [| |done].
    + apply checkStatus_same in H as (_ & _ & -> & _). left. by destruct cb.
    + injection H as <-. destruct (decide (id0 = id)) as [->|Hne].
      * right. left. exists task, cb. split; [done|]. split; [by apply joins_false|].
        unfold startDownload. destruct cb; cbn; by rewrite lookup_insert_eq.
      * left. unfold startDownload. destruct cb; cbn; by rewrite lookup_insert_ne.
  - destruct (running r w) as [a|]; [|done]. cbn in H.
    destruct (progressTracker _ _ _); injection H as <-; [|by left].
    rewrite notifyProgress_result. by left.
  - destruct (running r w) as [a|]; [|done]. injection H as <-.
    left. by rewrite onResolved_activeDownloads.
  - destruct (running r w) as [a|]; [|done]. injection H as <-.
    left. unfold onRejected. by rewrite catch_activeDownloads.
  - destruct (timers w !! i) as [t|] eqn:Hi; [|done]. cbn in H.
    destruct (due_of t <=? clock w)%Z; [|done].
    destruct t as [due id0|due id0 p].
    + injection H as <-. cbn. destruct (decide (id0 = id)) as [->|Hne].
      * right. right. exists i, due. by rewrite lookup_delete_eq.
      * left. by rewrite lookup_delete_ne.
    + apply checkStatus_same in H as (_ & _ & -> & _). by left.
  - destruct (0 <=? dt)%Z; [|done]. injection H as <-. by left.
Qed.

(** C2, as the code has it.  In every state the manager reaches, and for
    every identity [id]:

    (1) a call that finds the record of [id] in status ['downloading'] joins:
    it starts no fetch, returns a new promise and arms the first poll of its
    waiting loop, 100 ms later;

    (2) the promise [p] of a pending poll for [id] is unsettled, and when the
    poll runs it acts on the record that is stored for [id] at that moment.
    If the record is in status ['downloading'] the promise stays unsettled,
    as the promise of the requester of that record is, and the next poll is
    armed 100 ms later.  If it is ['completed'] the promise is resolved with
    [null] and the loop ends; the requester of the record holds a resolved
    promise.  If it is ['error'] the promise is rejected with a new [Error]
    that carries the recorded message (['Download failed'] when that is
    empty) and the loop ends; the requester of the record holds a rejected
    promise.  If no record is stored the promise is rejected with ['Download
    cancelled'].  Once settled the promise keeps its outcome whatever happens
    next;

    (3) the record stored for [id] is replaced only by a call for [id] that
    joins nothing and starts a download, and removed only by an eviction
    timer of [id]: short of these a poll finds the record its caller joined;

    (4) the requester of a record is handed the very model its fetch resolves
    with, and the very value it rejects with, when no subscriber throws. *)
Theorem joiner_outcome evs w id :
  run initial evs = Some w →
  (∀ task cb r a,
     activeDownloads w !! id = Some r → heap w !! r = Some a →
     status (progressData a) = StDownloading →
     ∃ w', step w (Call id task cb) = Some w' ∧
           pipelineCalls w' = pipelineCalls w ∧ heap w' = heap w ∧
           activeDownloads w' = activeDownloads w ∧
           promises w' = promises w ++ [Unsettled] ∧
           timers w' = timers w ++ [Poll (clock w + 100) id (length (promises w))]) ∧
  (∀ i due p, timers w !! i = Some (Poll due id p) →
     promises w !! p = Some Unsettled ∧
     ((due <= clock w)%Z →
      ∃ w', step w (Fires i) = Some w' ∧
        (∀ evs' w'' o, run w' evs' = Some w'' →
           promises w' !! p = Some o → o ≠ Unsettled → promises w'' !! p = Some o) ∧
        match activeDownloads w !! id with
        | None =>
            promises w' !! p = Some (Rejected (JsError "Download cancelled")) ∧
            (p ∉ waiting w')
        | Some r =>
            ∃ a, heap w !! r = Some a ∧ modelId (progressData a) = id ∧ caller a ≠ p ∧
              match status (progressData a) with
              | StCompleted =>
                  promises w' !! p = Some (Resolved JsNull) ∧ (p ∉ waiting w') ∧
                  ∃ model, promises w' !! caller a = Some (Resolved model)
              | StError =>
                  promises w' !! p =
                    Some (Rejected (JsError (error_or_default (error (progressData a))))) ∧
                  (p ∉ waiting w') ∧
                  ∃ v, promises w' !! caller a = Some (Rejected v)
              | _ =>
                  promises w' !! p = Some Unsettled ∧
                  promises w' !! caller a = Some Unsettled ∧
                  timers w' = delete i (timers w) ++ [Poll (clock w + 100) id p]
              end
        end)) ∧
  (∀ ev w',
     step w ev = Some w' →
     activeDownloads w' !! id = activeDownloads w !! id ∨
     (∃ task cb, ev = Call id task cb ∧ isDownloading id w = false ∧
                 activeDownloads w' !! id = Some (length (heap w))) ∨
     (∃ j due, ev = Fires j ∧ timers w !! j = Some (Evict due id) ∧
               activeDownloads w' !! id = None)) ∧
  (∀ r a, running r w = Some a →
     (∀ model,
        Forall (fun cb => cb_body cb (completed_record (progressData a)) = None)
          (subscribers (modelId (progressData a)) w) →
        ∃ w1, step w (Settles r model) = Some w1 ∧
              promises w1 !! caller a = Some (Resolved model) ∧
              heap w1 !! r = Some (settled (with_data (completed_record (progressData a)) a))) ∧
     (∀ e,
        Forall (fun cb => cb_body cb (error_record e (progressData a)) = None)
          (subscribers (modelId (progressData a)) w) →
        ∃ w1, step w (Fails r e) = Some w1 ∧
              promises w1 !! caller a = Some (Rejected e) ∧
              heap w1 !! r = Some (settled (with_data (error_record e (progressData a)) a)))).
Proof.
  intros Hrun.
  pose proof (reachable_consistent _ _ Hrun) as Hc.
  pose proof (reachable_accounted _ _ Hrun) as Hw.
  split; [|split; [|split]].
  { intros task cb r a Hr Ha Hs. by apply (downloadModel_joins id task cb w r a). }
  2: { intros ev w'. apply step_entry. }
  2: { intros r a Hr. by apply requester_outcome. }
  intros i due p Hi.
  destruct (waiting_delete _ _ _ _ _ Hi) as (l1 & l2 & E1 & E2).
  assert (p ∈ waiting w) as Hin.
  { unfold waiting. rewrite E1. apply elem_of_app. right. by left. }
  destruct (acc_polls _ Hw _ Hin) as [Hp Hcl].
  assert (p ∉ l1 ++ l2) as Hout.
  { pose proof (acc_once _ Hw) as Hnd. unfold waiting in Hnd. rewrite E1 in Hnd.
    apply NoDup_app in Hnd as (_ & Hnd1 & Hnd2).
    apply NoDup_cons in Hnd2 as [Hnd2 _].
    intros Hin'. apply elem_of_app in Hin' as [Hin'|Hin']; [|done].
    apply (Hnd1 _ Hin'). by left. }
  split; [exact Hp|]. intros Hdue.
  cbn. rewrite Hi. cbn. apply Z.leb_le in Hdue. rewrite Hdue.
  set (w0 := set_timers (delete i (timers w)) w).
  assert (∀ o, promises (settle p o w0) !! p = Some o ∧ p ∉ waiting (settle p o w0)) as Hset.
  { intros o. split; [by apply settle_unsettled|].
    rewrite waiting_settle. unfold waiting. cbn. by rewrite E2. }
  assert (∀ w', checkStatus id p w0 = Some w' →
            ∀ evs' w'' o, run w' evs' = Some w'' →
              promises w' !! p = Some o → o ≠ Unsettled → promises w'' !! p = Some o) as Hkeep.
  { intros w' _ evs' w'' o Hrun' Ho Hne. by eapply run_keeps. }
  destruct (activeDownloads w !! id) as [r|] eqn:Hr.
  - destruct (cons_refs _ Hc _ _ Hr) as (a & Ha & Hid).
    erewrite (checkStatus_present id p w0 r a) by done.
    eexists. split; [done|]. split; [by apply Hkeep; erewrite checkStatus_present|].
    exists a. split; [done|]. split; [done|]. split; [by eapply Hcl|].
    destruct (acc_callers _ Hw _ _ Ha) as (o & Ho & Hf).
    assert (∀ o', promises (settle p o' w0) !! caller a = Some o) as Hreq.
    { intros o'. rewrite settle_other by by eapply Hcl. done. }
    destruct (status (progressData a)); cbn in Hf; try done.
    + subst o. done.
    + destruct Hf as [model ->]. split; [apply Hset|]. split; [apply Hset|].
      exists model. apply Hreq.
    + destruct Hf as [v ->]. split; [apply Hset|]. split; [apply Hset|].
      exists v. apply Hreq.
  - rewrite (checkStatus_absent id p w0) by done.
    eexists. split; [done|]. split; [by apply Hkeep; rewrite checkStatus_absent|].
    apply Hset.
Qed.

Lemma joiner_outcome_witness :
  ∃ w w', run initial (joined ++ [Settles 0 (JsModel 7)]) = Some w ∧
          timers w !! 0 = Some (Poll 100 "m" 1) ∧
          promises w !! 1 = Some Unsettled ∧
          step w (Fires 0) = Some w' ∧
          promises w' !! 1 = Some (Resolved JsNull) ∧
          promises w' !! 0 = Some (Resolved (JsModel 7)) ∧
          ∀ evs' w'', run w' evs' = Some w'' → promises w'' !! 1 = Some (Resolved JsNull).
Proof.
  eexists.
  match goal with
  | |- ∃ w', run ?w0 ?evs = Some ?w ∧ ?A ∧ _ =>
      assert (run w0 evs = Some w) as Hrun by (by vm_compute);
      assert A as Hi by (by vm_compute)
  end.
  destruct (joiner_outcome _ _ "m" Hrun) as (_ & Hpoll & _).
  destruct (Hpoll 0 100%Z 1 Hi) as (Hp & Hfire).
  destruct (Hfire ltac:(by vm_compute)) as (w' & Hstep & Hkeep & Hm).
  exists w'. split; [exact Hrun|]. split; [exact Hi|]. split; [exact Hp|].
  split; [exact Hstep|].
  pose proof Hstep as Hw'. vm_compute in Hw'. injection Hw' as Hw'.
  assert (promises w' !! 1 = Some (Resolved JsNull)) as H1
    by (rewrite <- Hw'; by vm_compute).
  split; [exact H1|]. split; [rewrite <- Hw'; by vm_compute|].
  intros evs' w'' Hrun'. by eapply Hkeep.
Defined.

(** * The cache manager *)

Lemma append_cons c s t : String c s +:+ t = String c (s +:+ t).
Proof. done. Qed.

Lemma append_nil_r s : s +:+ "" = s.
Proof. induction s as [|c s IH]; [done|]. by rewrite append_cons, IH. Qed.

Lemma append_assoc s t u : (s +:+ t) +:+ u = s +:+ t +:+ u.
Proof. induction s as [|c s IH]; [done|]. by rewrite !append_cons, IH. Qed.

Lemma prefix_append n post : String.prefix n (n +:+ post) = true.
Proof.
  induction n as [|c n IH]; [by destruct post|].
  rewrite append_cons. cbn. by destruct (ascii_dec c c).
Qed.

Lemma includes_prefix n h : String.prefix n h = true → includes n h = true.
Proof. intros H. destruct h; cbn [includes]; by rewrite H. Qed.

Lemma includes_append_r n pre h : includes n h = true → includes n (pre +:+ h) = true.
Proof.
  intros H. induction pre as [|c pre IH]; [done|].
  rewrite append_cons. cbn [includes]. rewrite IH. apply orb_true_r.
Qed.

Lemma includes_middle pre n post : includes n (pre +:+ n +:+ post) = true.
Proof. apply includes_append_r, includes_prefix, prefix_append. Qed.

Lemma includes_empty h : includes "" h = true.
Proof. by destruct h. Qed.

Lemma split_nonempty sep s : split sep s ≠ [].
Proof.
  destruct s as [|c s]; cbn; [done|].
  destruct (Ascii.eqb c sep); [done|]. by destruct (split sep s).
Qed.

(** Splitting at a separator and joining with it gives the string back. *)
Lemma concat_split sep s : String.concat (String sep "") (split sep s) = s.
Proof.
  induction s as [|c s IH]; [done|]. cbn [split].
  destruct (Ascii.eqb_spec c sep) as [->|Hne].
  - pose proof (split_nonempty sep s) as Hs.
    destruct (split sep s) as [|h t] eqn:E; [done|].
    change (String.concat (String sep "") ("" :: h :: t))
      with ("" +:+ String sep "" +:+ String.concat (String sep "") (h :: t)).
    by rewrite IH.
  - pose proof (split_nonempty sep s) as Hs.
    destruct (split sep s) as [|h t] eqn:E; [done|].
    destruct t as [|h' t].
    + cbn in *. by rewrite IH.
    + change (String.concat (String sep "") (String c h :: h' :: t))
        with (String c h +:+ String sep "" +:+ String.concat (String sep "") (h' :: t)).
      change (String.concat (String sep "") (h :: h' :: t))
        with (h +:+ String sep "" +:+ String.concat (String sep "") (h' :: t)) in IH.
      by rewrite append_cons, IH.
Qed.

(** The join of a tail of a list of pieces ends the join of the list. *)
Lemma concat_drop sep l : ∀ k,
  ∃ pre, String.concat sep l = pre +:+ String.concat sep (drop k l).
Proof.
  induction l as [|x xs IH]; intros k.
  - exists "". by destruct k.
  - destruct k as [|k]; [by exists ""|].
    destruct (IH k) as (pre & Hpre). cbn [drop].
    destruct xs as [|y ys].
    + exists x. rewrite drop_nil. cbn. by rewrite append_nil_r.
    + exists (x +:+ sep +:+ pre).
      change (String.concat sep (x :: y :: ys))
        with (x +:+ sep +:+ String.concat sep (y :: ys)).
      by rewrite Hpre, !append_assoc.
Qed.

(** The identifier [getCachedModels] gives an entry occurs in its URL. *)
Lemma modelId_in_url q : includes (modelId_of q) (url q) = true.
Proof.
  unfold modelId_of, slice_last, url.
  destruct (concat_drop "/" (split "/"%char (req_pathname q))
              (length (split "/"%char (req_pathname q)) - 2)) as (pre & Hpre).
  rewrite concat_split in Hpre.
  set (m := String.concat _ _) in *.
  rewrite Hpre, append_assoc, <- append_assoc.
  apply includes_middle.
Qed.

Lemma filter_filter {A} (f g : A → bool) l :
  List.filter f (List.filter g l) = List.filter (fun x => g x && f x) l.
Proof.
  induction l as [|x l IH]; [done|]. cbn.
  destruct (g x); cbn; [|done]. destruct (f x); by rewrite IH.
Qed.

(** The inner loop of [deleteModel], started on any list of requests. *)
Lemma delete_requests_spec id qs : ∀ c d,
  delete_requests id qs c d =
    (d || existsb (fun q => includes id (url q)) qs,
     List.filter (fun e => negb (existsb (fun q => includes id (url q) &&
                     String.eqb (url (entry_request e)) (url q)) qs)) c).
Proof.
  induction qs as [|q qs IH]; intros c d; cbn.
  - rewrite orb_false_r. f_equal. induction c as [|e c IHc]; [done|].
    cbn. by rewrite <- IHc.
  - destruct (includes id (url q)) eqn:Hq; rewrite IH; cbn.
    + rewrite orb_true_r. f_equal. unfold cache_delete. rewrite filter_filter.
      apply List.filter_ext. intros e. by rewrite negb_orb.
    + done.
Qed.

(** On the requests of the cache itself the loop removes the entries that
    mention [id]. *)
Lemma delete_requests_own id c d :
  delete_requests id (map entry_request c) c d =
    (d || existsb (mentions id) c,
     List.filter (fun e => negb (mentions id e)) c).
Proof.
  rewrite delete_requests_spec. f_equal.
  - f_equal. induction c as [|e c IH]; [done|]. cbn. by rewrite IH.
  - apply List.filter_ext_in. intros e He. f_equal.
    apply Bool.eq_iff_eq_true. rewrite existsb_exists. split.
    + intros (q & _ & Hq). apply andb_true_iff in Hq as [Hq Hu].
      apply String.eqb_eq in Hu. unfold mentions. by rewrite Hu.
    + intros Hm. exists (entry_request e). split; [by apply in_map|].
      unfold mentions in Hm. by rewrite Hm, String.eqb_refl.
Qed.

Lemma purge_cons id name c s :
  purge id ((name, c) :: s) =
    (if is_transformers name
     then (name, List.filter (fun e => negb (mentions id e)) c)
     else (name, c)) :: purge id s.
Proof. done. Qed.

Lemma any_mention_cons id name c s :
  any_mention id ((name, c) :: s) =
    is_transformers name && existsb (mentions id) c || any_mention id s.
Proof. done. Qed.

Lemma delete_in_caches_spec id s : ∀ d,
  delete_in_caches id s d = (d || any_mention id s, purge id s).
Proof.
  induction s as [|[name c] s IH]; intros d.
  - cbn. by rewrite orb_false_r.
  - rewrite purge_cons, any_mention_cons. cbn [delete_in_caches].
    destruct (is_transformers name) eqn:Hn.
    + rewrite delete_requests_own, IH. cbn. by rewrite orb_assoc.
    + by rewrite IH.
Qed.

(** [deleteModel] on a storage that can be used, by the loops above. *)
Lemma deleteModel_unfold id s :
  deleteModel id (Some s) = (false || any_mention id s, Some (purge id s)).
Proof. unfold deleteModel. by rewrite delete_in_caches_spec. Qed.

(** What [deleteModel] does.  It removes from the caches whose name contains
    ['transformers'] exactly the entries whose URL contains [modelId] as a
    substring, keeps every other entry in its place, leaves the other caches
    alone, and returns [true] exactly when it found such an entry. *)
Theorem deleteModel_removes_mentions id s :
  deleteModel id (Some s) = (any_mention id s, Some (purge id s)).
Proof.
  unfold deleteModel.
  destruct (delete_in_caches id s false) as [deleted s'] eqn:Hloop.
  rewrite delete_in_caches_spec in Hloop. by injection Hloop as <- <-.
Qed.

Lemma purge_no_mention id s : any_mention id (purge id s) = false.
Proof.
  induction s as [|[name c] s IH]; [done|].
  rewrite purge_cons.
  destruct (is_transformers name) eqn:Hn; rewrite any_mention_cons, Hn, IH; [|done].
  cbn. rewrite orb_false_r. apply not_true_is_false. rewrite existsb_exists.
  intros (e & He & Hm). apply filter_In in He as [_ He]. by rewrite Hm in He.
Qed.

Lemma purge_purge id s : purge id (purge id s) = purge id s.
Proof.
  induction s as [|[name c] s IH]; [done|].
  rewrite purge_cons.
  destruct (is_transformers name) eqn:Hn; rewrite purge_cons, Hn, IH; [|done].
  do 2 f_equal. rewrite filter_filter. apply List.filter_ext.
  intros e. by destruct (mentions id e).
Qed.

(** Deleting twice.  After [deleteModel] a second call for the same
    identifier finds nothing: it returns [false] and leaves the storage as the
    first call left it. *)
Theorem deleteModel_twice id cs :
  deleteModel id (snd (deleteModel id cs)) = (false, snd (deleteModel id cs)).
Proof.
  destruct cs as [s|]; [|done].
  rewrite deleteModel_unfold. cbn [snd orb].
  by rewrite deleteModel_unfold, purge_no_mention, purge_purge.
Qed.

Lemma models_of_In now c qs m :
  In m (models_of now c qs) → ∃ q, In q qs ∧ cached_modelId m = modelId_of q.
Proof.
  induction qs as [|q qs IH]; cbn; [done|].
  destruct (cache_match q c).
  - intros [<-|H]; [by exists q; auto|]. destruct (IH H) as (q' & ? & ?). eauto.
  - intros H. destruct (IH H) as (q' & ? & ?). eauto.
Qed.

(** A listed model comes from an entry of a transformers cache. *)
Lemma getCachedModels_In now s m :
  In m (getCachedModels now (Some s)) →
  ∃ name c e, In (name, c) s ∧ is_transformers name = true ∧ In e c ∧
              cached_modelId m = modelId_of (entry_request e).
Proof.
  unfold getCachedModels, transformerCaches. rewrite in_flat_map.
  intros ([name c] & Hnc & Hm). apply filter_In in Hnc as [Hnc Ht].
  apply models_of_In in Hm as (q & Hq & Hid).
  apply in_map_iff in Hq as (e & <- & He). by exists name, c, e.
Qed.

Lemma purge_In id s name c' :
  In (name, c') (purge id s) → is_transformers name = true →
  ∃ c, In (name, c) s ∧ c' = List.filter (fun e => negb (mentions id e)) c.
Proof.
  unfold purge. rewrite in_map_iff. intros ([name0 c] & Heq & Hin) Ht.
  cbn -[is_transformers] in Heq. destruct (is_transformers name0) eqn:Hn.
  - injection Heq as <- <-. by exists c.
  - injection Heq as -> ->. congruence.
Qed.

(** Listing, then deleting.  [deleteModel] called with the identifier of a
    model that [getCachedModels] lists finds something to delete and returns
    [true], and afterwards [getCachedModels] lists no model under that
    identifier any more. *)
Theorem listed_model_can_be_deleted now s m :
  In m (getCachedModels now (Some s)) →
  fst (deleteModel (cached_modelId m) (Some s)) = true ∧
  ∀ now' m', In m' (getCachedModels now' (snd (deleteModel (cached_modelId m) (Some s)))) →
             cached_modelId m' ≠ cached_modelId m.
Proof.
  intros Hm. rewrite deleteModel_unfold. cbn [fst snd orb].
  apply getCachedModels_In in Hm as (name & c & e & Hnc & Ht & He & Hid).
  split.
  - unfold any_mention. apply existsb_exists. exists (name, c). split; [done|].
    cbn [fst snd]. rewrite Ht. cbn. apply existsb_exists. exists e. split; [done|].
    unfold mentions. rewrite Hid. apply modelId_in_url.
  - intros now' m' Hm' Heq.
    apply getCachedModels_In in Hm' as (name' & c' & e' & Hnc' & Ht' & He' & Hid').
    apply purge_In in Hnc' as (c0 & _ & ->); [|done].
    apply filter_In in He' as [_ He']. apply negb_true_iff in He'.
    unfold mentions in He'. rewrite <- Heq, Hid' in He'.
    by rewrite modelId_in_url in He'.
Qed.

Lemma listed_model_can_be_deleted_witness :
  let m := mkCachedModel "main/model.onnx" 300000 7 in
  In m (getCachedModels 7 (Some sample_storage)) ∧
  fst (deleteModel (cached_modelId m) (Some sample_storage)) = true.
Proof.
  intros m.
  assert (In m (getCachedModels 7 (Some sample_storage))) as Hm
    by (vm_compute; auto).
  split; [exact Hm|].
  exact (proj1 (listed_model_can_be_deleted 7 sample_storage m Hm)).
Defined.

Lemma models_of_nil now c : models_of now c [] = [].
Proof. done. Qed.

(** The loop of [clearAllCache], started on any list of names. *)
Lemma clear_loop names : ∀ s,
  fold_left (fun acc name => caches_delete name acc) names s =
    List.filter (fun nc => negb (existsb (String.eqb (fst nc)) names)) s.
Proof.
  induction names as [|n names IH]; intros s; cbn.
  - induction s as [|x s IHs]; [done|]. cbn. by rewrite <- IHs.
  - rewrite IH. unfold caches_delete. rewrite filter_filter.
    apply List.filter_ext. intros nc. by rewrite negb_orb.
Qed.

(** What [clearAllCache] does.  It deletes every cache whose name contains
    ['transformers'] and no other cache, and returns [true]; afterwards
    [getCachedModels] lists nothing and [getTotalCacheSize] is 0.  The same
    two readings result when the storage cannot be used. *)
Theorem clearAllCache_leaves_nothing_listed cs now :
  getCachedModels now (snd (clearAllCache cs)) = [] ∧
  getTotalCacheSize now (snd (clearAllCache cs)) = 0%N ∧
  ∀ s, cs = Some s →
       clearAllCache cs =
         (true, Some (List.filter (fun nc => negb (is_transformers (fst nc))) s)).
Proof.
  assert (∀ s, clearAllCache (Some s) =
            (true, Some (List.filter (fun nc => negb (is_transformers (fst nc))) s)))
    as Hspec.
  { intros s. unfold clearAllCache. do 2 f_equal. rewrite clear_loop.
    apply List.filter_ext_in. intros [name c] Hin. cbn [fst]. f_equal.
    apply Bool.eq_iff_eq_true. rewrite existsb_exists. split.
    - intros (n & Hn & He). apply String.eqb_eq in He as <-.
      apply in_map_iff in Hn as ([n' c'] & <- & Hn).
      by apply filter_In in Hn as [_ Hn].
    - intros Ht. exists name. split; [|apply String.eqb_refl].
      apply in_map_iff. exists (name, c). split; [done|].
      apply filter_In. by split. }
  assert (getCachedModels now (snd (clearAllCache cs)) = []) as Hnone.
  { destruct cs as [s|]; [|done]. rewrite Hspec. cbn [snd].
    unfold getCachedModels, transformerCaches. rewrite filter_filter.
    replace (List.filter _ s) with (@nil (string * list CacheEntry)); [done|].
    symmetry. induction s as [|[name c] s IH]; [done|]. cbn -[is_transformers].
    by destruct (is_transformers name). }
  split; [done|]. split.
  - unfold getTotalCacheSize. by rewrite Hnone.
  - intros s ->. apply Hspec.
Qed.

Lemma existsb_pointwise {A} (f g : A → bool) l :
  (∀ x, f x = g x) → existsb f l = existsb g l.
Proof. intros H. induction l as [|x l IH]; [done|]. cbn. by rewrite H, IH. Qed.

(** The empty identifier.  Every string contains the empty string, so
    [deleteModel('')] empties every cache whose name contains
    ['transformers'] (the caches themselves stay, unlike after
    [clearAllCache]) and leaves the others alone; it returns [true] exactly
    when one of those caches had an entry. *)
Theorem deleteModel_of_empty_id s :
  deleteModel "" (Some s) =
    (existsb (fun nc => is_transformers (fst nc) &&
                        match snd nc with [] => false | _ => true end) s,
     Some (map (fun nc => if is_transformers (fst nc) then (fst nc, []) else nc) s)).
Proof.
  rewrite deleteModel_unfold. cbn [orb]. f_equal.
  - unfold any_mention. apply existsb_pointwise. intros [name c]. cbn [fst snd].
    f_equal. destruct c as [|e c]; [done|]. cbn. unfold mentions.
    by rewrite includes_empty.
  - f_equal. unfold purge. apply map_ext. intros [name c]. cbn [fst snd].
    destruct (is_transformers name); [|done]. f_equal.
    induction c as [|e c IH]; [done|]. cbn. unfold mentions at 1.
    by rewrite includes_empty.
Qed.

Lemma cache_match_stored q c :
  (∃ e, In e c ∧ url (entry_request e) = url q) → is_Some (cache_match q c).
Proof.
  intros (e & He & Hu). unfold cache_match.
  destruct (List.find _ c) as [e'|] eqn:Hf; [by eexists|].
  exfalso. eapply find_none in Hf; [|exact He]. cbn in Hf.
  rewrite Hu, String.eqb_refl in Hf. done.
Qed.

Lemma models_of_ids now c qs :
  (∀ q, In q qs → ∃ e, In e c ∧ url (entry_request e) = url q) →
  map cached_modelId (models_of now c qs) = map modelId_of qs.
Proof.
  induction qs as [|q qs IH]; intros H; [done|]. cbn.
  destruct (cache_match_stored q c) as [n Hn]; [apply H; by left|].
  rewrite Hn. cbn. rewrite IH; [done|]. intros q' Hq'. apply H. by right.
Qed.

(** What [getCachedModels] lists.  It lists one model for each entry of each
    cache whose name contains ['transformers'], in the order of the caches and
    of their entries, and nothing from other caches; the identifier of a
    listed model is made of the last two segments of the path of the entry's
    URL. *)
Theorem getCachedModels_lists_every_entry now s :
  map cached_modelId (getCachedModels now (Some s)) =
    flat_map (fun nc => map (fun e => modelId_of (entry_request e)) (snd nc))
             (transformerCaches s).
Proof.
  unfold getCachedModels.
  induction (transformerCaches s) as [|[name c] l IH]; [done|].
  cbn. rewrite map_app, IH. f_equal.
  rewrite models_of_ids.
  - by rewrite map_map.
  - intros q Hq. apply in_map_iff in Hq as (e & <- & He). by exists e.
Qed.

Lemma find_filter_same {A} (f P : A → bool) l :
  (∀ x, f x = true → P x = true) →
  List.find f (List.filter P l) = List.find f l.
Proof.
  intros H. induction l as [|x l IH]; [done|]. cbn.
  destruct (P x) eqn:HP; cbn.
  - by rewrite IH.
  - destruct (f x) eqn:Hf; [|done]. apply H in Hf. congruence.
Qed.

(** Looking up an entry that does not mention [id] gives the same response
    before and after the entries that mention [id] are gone. *)
Lemma cache_match_purged id q c :
  includes id (url q) = false →
  cache_match q (List.filter (fun e => negb (mentions id e)) c) = cache_match q c.
Proof.
  intros Hq. unfold cache_match. f_equal. apply find_filter_same.
  intros e He. apply String.eqb_eq in He. unfold mentions. by rewrite He, Hq.
Qed.

Lemma models_of_purged now id c : ∀ c',
  sublist (models_of now (List.filter (fun e => negb (mentions id e)) c)
             (map entry_request (List.filter (fun e => negb (mentions id e)) c')))
          (models_of now c (map entry_request c')).
Proof.
  induction c' as [|e c' IH]; [constructor|]. cbn.
  destruct (mentions id e) eqn:Hm; cbn.
  - destruct (cache_match (entry_request e) c); [by apply sublist_cons|done].
  - rewrite cache_match_purged by done.
    destruct (cache_match (entry_request e) c); [by apply sublist_skip|done].
Qed.

Lemma total_size_sublist (l l' : list CachedModel) : ∀ a,
  sublist l l' →
  (fold_left (fun total model => total + cached_size model) l a <=
   fold_left (fun total model => total + cached_size model) l' a)%N.
Proof.
  assert (∀ (l : list CachedModel) a b, (a <= b)%N →
            (fold_left (fun total model => total + cached_size model) l a <=
             fold_left (fun total model => total + cached_size model) l b)%N) as Hmono.
  { induction l0 as [|m l0 IH]; intros a b Hab; [done|]. cbn. apply IH. lia. }
  intros a Hsub. revert a.
  induction Hsub as [|m l1 l2 Hsub IH|m l1 l2 Hsub IH]; intros a; cbn.
  - lia.
  - apply IH.
  - etrans; [apply IH|]. apply Hmono. lia.
Qed.

(** Deleting only removes.  What [getCachedModels] lists after [deleteModel]
    is what it listed before with some models left out: no other model
    appears, changes or moves.  So [getTotalCacheSize] does not grow. *)
Theorem deleteModel_only_removes now id cs :
  sublist (getCachedModels now (snd (deleteModel id cs))) (getCachedModels now cs) ∧
  (getTotalCacheSize now (snd (deleteModel id cs)) <= getTotalCacheSize now cs)%N.
Proof.
  assert (sublist (getCachedModels now (snd (deleteModel id cs)))
                  (getCachedModels now cs)) as Hsub.
  { destruct cs as [s|]; [|done]. rewrite deleteModel_unfold. cbn [snd].
    unfold getCachedModels, transformerCaches.
    induction s as [|[name c] s IH]; [constructor|].
    rewrite purge_cons. cbn -[is_transformers].
    destruct (is_transformers name) eqn:Hn; cbn -[is_transformers]; rewrite Hn; [|done].
    cbn. apply sublist_app; [|done]. apply models_of_purged. }
  split; [done|]. unfold getTotalCacheSize. by apply total_size_sublist.
Qed.

(** * The hardware service *)

Lemma Qgtb_false x y : Qgtb x y = false → (x <= y)%Q.
Proof. unfold Qgtb. intros H%negb_false_iff. by apply Qle_bool_iff. Qed.

(** The detected resources are never zero.  [detectRAM] and [detectCPUCores]
    return what the browser reports when that is a positive number, and 4 and
    2 when the browser reports nothing, zero or a negative number; so the
    profile always shows a positive amount of RAM and a positive number of
    cores. *)
Theorem detected_resources_positive b :
  (0 < detectRAM b)%Q ∧ (0 < detectCPUCores b)%Q ∧
  (∀ m, deviceMemory b = Some m → (0 < m)%Q → detectRAM b = m) ∧
  (∀ n, hardwareConcurrency b = Some n → (0 < n)%Q → detectCPUCores b = n) ∧
  ((∀ m, deviceMemory b = Some m → (m <= 0)%Q) → detectRAM b = 4%Q) ∧
  ((∀ n, hardwareConcurrency b = Some n → (n <= 0)%Q) → detectCPUCores b = 2%Q).
Proof.
  assert (∀ x d : Q, (0 < d)%Q → (0 < (if nonzero x && Qgtb x 0 then x else d))%Q) as Hpos.
  { intros x d Hd. destruct (nonzero x); cbn; [|done].
    destruct (Qgtb x 0) eqn:H; [by apply Qgtb_true|done]. }
  assert (∀ x d : Q, (0 < x)%Q → (if nonzero x && Qgtb x 0 then x else d) = x) as Hkeep.
  { intros x d Hx. unfold nonzero, Qgtb.
    destruct (Qeq_bool x 0) eqn:E.
    - apply Qeq_bool_eq in E. rewrite E in Hx. by apply Qlt_irrefl in Hx.
    - destruct (Qle_bool x 0) eqn:L; [|done].
      apply Qle_bool_iff in L. exfalso. by eapply Qlt_not_le. }
  assert (∀ x d : Q, (x <= 0)%Q → (if nonzero x && Qgtb x 0 then x else d) = d) as Hdef.
  { intros x d Hx. unfold Qgtb. apply Qle_bool_iff in Hx. rewrite Hx.
    by rewrite andb_false_r. }
  unfold detectRAM, detectCPUCores. repeat split.
  - destruct (deviceMemory b); [by apply Hpos|done].
  - destruct (hardwareConcurrency b); [by apply Hpos|done].
  - intros m -> Hm. by apply Hkeep.
  - intros n -> Hn. by apply Hkeep.
  - intros H. destruct (deviceMemory b) as [m|]; [|done]. by apply Hdef, H.
  - intros H. destruct (hardwareConcurrency b) as [n|]; [|done]. by apply Hdef, H.
Qed.

Lemma short_of_None need have :
  short_of need have = None ↔
  ∀ x, need = Some x → (x == 0)%Q ∨ (x <= have)%Q.
Proof.
  unfold short_of. destruct need as [x|]; [|by split].
  unfold nonzero. destruct (Qeq_bool x 0) eqn:E; cbn.
  - split; [|done]. intros _ ? [= <-]. left. by apply Qeq_bool_eq.
  - destruct (Qgtb x have) eqn:G.
    + split; [done|]. intros H. destruct (H x eq_refl) as [H0|Hle].
      * apply Qeq_bool_iff in H0. congruence.
      * apply Qgtb_true in G. exfalso. by eapply Qlt_not_le.
    + split; [|done]. intros _ ? [= <-]. right. by apply Qgtb_false.
Qed.

(** What compatible means.  [checkModelCompatibility] finds a model
    compatible exactly when the profile has at least the RAM the model asks
    for, at least the cores it asks for, and, if the model requires WebGPU,
    WebGPU or WebGL (WebGL alone is enough); a requirement that is absent or
    0 asks for nothing.  A profile that is not passed is the detected one. *)
Theorem compatible_iff show b model profile :
  let p := default (getHardwareProfile b) profile in
  compatible (checkModelCompatibility show b model profile) = true ↔
  (∀ x, min_ram_gb model = Some x → (x == 0)%Q ∨ (x <= ram p)%Q) ∧
  (∀ x, min_cores model = Some x → (x == 0)%Q ∨ (x <= cores p)%Q) ∧
  (requires_webgpu model = Some true → webgpu p = true ∨ webgl p = true).
Proof.
  intros p. unfold checkModelCompatibility. fold p.
  rewrite <- !short_of_None.
  destruct (short_of (min_ram_gb model) (ram p)); cbn; [by split; [|intros [? _]]|].
  destruct (short_of (min_cores model) (cores p)); cbn; [by split; [|intros (_ & ? & _)]|].
  destruct (requires_webgpu model) as [[]|]; cbn.
  - destruct (webgpu p), (webgl p); cbn; split; try done; auto.
    + intros (_ & _ & H). by destruct H.
  - split; [|done]. intros _. by repeat split.
  - split; [|done]. intros _. by repeat split.
Qed.

(** More hardware never hurts.  A model that is compatible with a profile is
    compatible with every profile that has at least as much RAM, at least as
    many cores and every kind of GPU support the first one has. *)
Theorem compatible_with_more_hardware show b model p p' :
  at_least p p' →
  compatible (checkModelCompatibility show b model (Some p)) = true →
  compatible (checkModelCompatibility show b model (Some p')) = true.
Proof.
  intros (Hram & Hcores & Hgpu & Hgl).
  assert (∀ need have have', (have <= have')%Q →
            short_of need have = None → short_of need have' = None) as Hshort.
  { intros need have have' Hle H. apply short_of_None. intros x Hx.
    destruct (proj1 (short_of_None need have) H x Hx) as [H0|Hx']; [by left|].
    right. by eapply Qle_trans. }
  unfold checkModelCompatibility. change (default _ (Some p)) with p.
  change (default (getHardwareProfile b) (Some p')) with p'.
  destruct (short_of (min_ram_gb model) (ram p)) eqn:E1; [by cbn|].
  rewrite (Hshort _ _ _ Hram E1).
  destruct (short_of (min_cores model) (cores p)) eqn:E2; [by cbn|].
  rewrite (Hshort _ _ _ Hcores E2).
  destruct (default false (requires_webgpu model)); cbn; [|done].
  destruct (webgpu p); [by rewrite Hgpu|]. destruct (webgl p); [|by cbn].
  rewrite Hgl by done. by destruct (webgpu p').
Qed.

Lemma compatible_with_more_hardware_witness :
  let model := mkModel "whisper-small" (Some 4%Q) None (Some true) in
  let p := mkProfile false true 4 2 wasm_backend in
  let p' := mkProfile true true 8 8 webgpu_backend in
  let b := mkBrowser None Found Null None None in
  at_least p p' ∧
  compatible (checkModelCompatibility (fun _ => ""%string) b model (Some p)) = true ∧
  compatible (checkModelCompatibility (fun _ => ""%string) b model (Some p')) = true.
Proof.
  intros model p p' b.
  assert (at_least p p') as Hle by (by vm_compute).
  assert (compatible (checkModelCompatibility (fun _ => ""%string) b model (Some p)) = true)
    as Hc by (by vm_compute).
  split; [exact Hle|]. split; [exact Hc|].
  exact (compatible_with_more_hardware _ b model p p' Hle Hc).
Defined.

(** * The scenarios of the properties above *)

Lemma dedup_without_stale_timer_witness :
  ∃ w w',
    step initial (Call "m" "text-generation" (Some (quiet 0))) = Some w ∧
    run w [Call "m" "text-generation" (Some (quiet 1)); Advance 100; Fires 0;
           Sample 0 (sample "model.onnx" 500 1000);
           Call "m" "text-generation" None] = Some w' ∧
    sole_fetch "m" 0 w' ∧
    fetches "m" w' = [("text-generation", "m")].
Proof.
  destruct (first_request_sole_fetch "m" "text-generation" (Some (quiet 0)))
    as (w & Hstep & Hsole & Hf).
  exists w. eexists. split; [exact Hstep|].
  match goal with
  | |- run _ ?evs = Some ?w' ∧ _ =>
      assert (run w evs = Some w') as Hrun
        by (injection Hstep as <-; by vm_compute)
  end.
  split; [exact Hrun|].
  match type of Hrun with
  | run _ ?evs = _ =>
      destruct (dedup_without_stale_timer "m" 0 evs w _ Hsole
                  ltac:(repeat constructor) Hrun) as [Hsole' Hf']
  end.
  split; [exact Hsole'|]. rewrite Hf'. exact Hf.
Defined.

Lemma record_survives_grace_delay_witness :
  ∃ w a w1 w2,
    run initial joined = Some w ∧ running 0 w = Some a ∧
    step w (Settles 0 (JsModel 7)) = Some w1 ∧
    run w1 [Advance 4000; Fires 0] = Some w2 ∧
    (clock w2 < clock w + 5000)%Z ∧
    is_Some (getProgress (modelId (progressData a)) w2).
Proof.
  do 4 eexists.
  match goal with
  | |- run ?w0 ?evs = Some ?w ∧ running 0 _ = Some ?a ∧
       step _ ?ev = Some ?w1 ∧ run _ ?evs' = Some ?w2 ∧ _ =>
      assert (run w0 evs = Some w) as Hrun by (by vm_compute);
      assert (running 0 w = Some a) as Ha by (by vm_compute);
      assert (step w ev = Some w1) as Hstep by (by vm_compute);
      assert (run w1 evs' = Some w2) as Hrun' by (by vm_compute)
  end.
  split; [exact Hrun|]. split; [exact Ha|]. split; [exact Hstep|].
  split; [exact Hrun'|].
  match goal with
  | |- ?A ∧ _ => assert A as Hlt by (by vm_compute)
  end.
  split; [exact Hlt|].
  eapply (record_survives_grace_delay _ 0 _ _ _ _ _
            (reachable_consistent _ _ Hrun) Ha); [| | |exact Hstep|exact Hrun'|exact Hlt].
  - vm_compute. by eexists.
  - vm_compute. repeat constructor. by intros due.
  - left. by eexists.
Defined.

Lemma eviction_then_fresh_request_witness :
  ∃ w w' w'',
    run initial (grace_window ++ [Advance 4000]) = Some w ∧
    timers w !! 0 = Some (Evict 5000 "m") ∧
    step w (Fires 0) = Some w' ∧
    getProgress "m" w' = None ∧
    step w' (Call "m" "text-generation" None) = Some w'' ∧
    getProgress "m" w'' = Some (fresh "m").
Proof.
  do 2 eexists.
  match goal with
  | |- ∃ w'', run ?w0 ?evs = Some ?w ∧ ?T ∧ step _ ?ev = Some ?w' ∧ _ =>
      assert (run w0 evs = Some w) as Hrun by (by vm_compute);
      assert T as Ht by (by vm_compute);
      assert (step w ev = Some w') as Hstep by (by vm_compute)
  end.
  destruct (proj2 (eviction_then_fresh_request _ 0 5000 "m" Ht) _ Hstep)
    as (Hg & _ & _ & Hcall).
  destruct (Hcall "text-generation" None) as (w'' & Hstep' & _ & Hg').
  exists w''. done.
Defined.
